(** * Christmas-Tree: particle engine, card subsystem and dispersion state

    A shallow embedding of the parts of
      - src/components/ChristmasTree.vue   (dispersion state, wheel handler,
                                            card selection and close),
      - src/components/ParticleSystem.ts   (generation and per-frame update),
      - src/components/OrnamentSystem.ts   (cards: texture swap and update)
    that the specification's testable properties talk about.

    JavaScript numbers are read as exact numbers.  Quantities that only go
    through [+], [-], [*], [min], [max] and [floor] (the dispersion pair and
    the density sliders) are rationals, so the definitions compute; quantities
    that go through [Math.sin], [Math.cos], [Math.sqrt], [Math.pow] or
    [Math.acos] (positions, scales, time) are real numbers. *)

From stdpp Require Import base list strings pretty gmap.
From Stdlib Require Import QArith Qabs Qminmax Qround.
From Stdlib Require Import ZArith Lia Lqa Lra.
From Stdlib Require Import Reals.

(* ===================================================================== *)
(** * Definitions                                                         *)
(* ===================================================================== *)

(** ** three.js: the few operations of [THREE.Vector3] the sources call

    three.js is an external library; these follow its documented behaviour.
    [normalize] is [divideScalar(length() || 1)]: the zero vector stays
    zero. *)

Module Vector3.
Local Open Scope R_scope.

Record t : Type := new { x : R; y : R; z : R }.

Definition zero : t := new 0 0 0.

Definition lengthSq (v : t) : R := x v * x v + y v * y v + z v * z v.

Definition length (v : t) : R := sqrt (lengthSq v).

Definition multiplyScalar (v : t) (s : R) : t :=
  new (x v * s) (y v * s) (z v * s).

Definition divideScalar (v : t) (s : R) : t := multiplyScalar v (1 / s).

Definition normalize (v : t) : t :=
  divideScalar v (if Req_dec_T (length v) 0 then 1 else length v).

Definition add (v w : t) : t := new (x v + x w) (y v + y w) (z v + z w).

Definition sub (v w : t) : t := new (x v - x w) (y v - y w) (z v - z w).

Definition addScaledVector (v w : t) (s : R) : t :=
  new (x v + x w * s) (y v + y w * s) (z v + z w * s).

Definition lerp (v w : t) (alpha : R) : t :=
  new (x v + (x w - x v) * alpha)
      (y v + (y w - y v) * alpha)
      (z v + (z w - z v) * alpha).

Definition distanceTo (v w : t) : R := length (sub v w).

Definition setX (v : t) (a : R) : t := new a (y v) (z v).
Definition setY (v : t) (a : R) : t := new (x v) a (z v).
Definition setZ (v : t) (a : R) : t := new (x v) (y v) a.

End Vector3.

(** [THREE.Color] values are kept symbolic: no property below reads a
    colour channel. *)
Inductive Color : Type :=
| ColorHex (css : string)
| ColorNum (rgb : Z)
| ColorLerp (from to : Color) (alpha : R)
| ColorOffsetHSL (c : Color) (h s l : R).

(** A [THREE.Object3D]'s rotation: Euler angles set by [rotation.set], the
    orientation left by [lookAt], or a further turn about a local axis. *)
Inductive Rotation : Type :=
| Euler (x y z : R)
| LookAt (eye target : Vector3.t)
| RotateX (r : Rotation) (angle : R)
| RotateY (r : Rotation) (angle : R)
| RotateZ (r : Rotation) (angle : R).

(** An instance matrix, by the way it was built: [dummy.updateMatrix()]
    composes position, rotation and scale; [makeScale] is a pure scaling. *)
Inductive Matrix4 : Type :=
| Identity
| Compose (position : Vector3.t) (rotation : Rotation) (scale : Vector3.t)
| MakeScale (sx sy sz : R).

(** [Math.random()]: a source of draws from [0, 1) and a cursor into it.
    A computation reads the draws it needs, in program order. *)
Module Random.

Definition Rand (A : Type) : Type := (nat -> R) -> nat -> A * nat.

Definition ret {A} (a : A) : Rand A := fun _ k => (a, k).

Definition bind {A B} (c : Rand A) (f : A -> Rand B) : Rand B :=
  fun src k => let (a, k') := c src k in f a src k'.

Definition Math_random : Rand R := fun src k => (src k, S k).

(** Run from the first draw and keep the result. *)
Definition run {A} (c : Rand A) (src : nat -> R) : A := fst (c src O).

(** Every draw is in [0, 1). *)
Definition uniform (src : nat -> R) : Prop :=
  forall k, (0 <= src k < 1)%R.

End Random.

Declare Scope rand_scope.
Delimit Scope rand_scope with rand.
Notation "v <- c ;; k" := (Random.bind c (fun v => k))
  (at level 100, c at next level, right associativity) : rand_scope.

(** ** ParticleSystem.ts *)

Module ParticleSystem.
Import Random.
Local Open Scope R_scope.
Local Open Scope rand_scope.

Inductive ParticleType : Set :=
| foliage | decoration | trunk | snow | aura | gift | candy.

Record ParticleData : Type := mkParticle
  { id : Z
  ; targetPosition : Vector3.t
  ; currentPosition : Vector3.t
  ; color : Color
  ; baseScale : R
  ; currentScale : R
  ; layer : Z
  ; phaseOffset : R
  ; type : ParticleType
  ; explosionVelocity : Vector3.t }.

Definition set_currentPosition (p : ParticleData) (v : Vector3.t) :=
  mkParticle (id p) (targetPosition p) v (color p) (baseScale p)
    (currentScale p) (layer p) (phaseOffset p) (type p) (explosionVelocity p).

Definition set_currentScale (p : ParticleData) (s : R) :=
  mkParticle (id p) (targetPosition p) (currentPosition p) (color p)
    (baseScale p) s (layer p) (phaseOffset p) (type p) (explosionVelocity p).

Definition set_color (p : ParticleData) (c : Color) :=
  mkParticle (id p) (targetPosition p) (currentPosition p) c (baseScale p)
    (currentScale p) (layer p) (phaseOffset p) (type p) (explosionVelocity p).

(** A [THREE.InstancedMesh]: one matrix and one colour per instance slot. *)
Record InstancedMesh : Type := mkMesh
  { instanceMatrix : list Matrix4
  ; instanceColor : list Color }.

Definition newInstancedMesh (count : nat) : InstancedMesh :=
  mkMesh (replicate count Identity) (replicate count (ColorNum 16777215)).

Definition setMatrixAt (m : InstancedMesh) (i : nat) (mat : Matrix4) :=
  mkMesh (<[i := mat]> (instanceMatrix m)) (instanceColor m).

Definition setColorAt (m : InstancedMesh) (i : nat) (c : Color) :=
  mkMesh (instanceMatrix m) (<[i := c]> (instanceColor m)).

(** The fields of the class: the seven typed lists, [particles], and
    [meshes] in creation order (foliage, decoration, trunk, snow, aura,
    gift, candy). *)
Record t : Type := mkSystem
  { meshes : list InstancedMesh
  ; particles : list ParticleData
  ; foliageParticles : list ParticleData
  ; decorationParticles : list ParticleData
  ; trunkParticles : list ParticleData
  ; snowParticles : list ParticleData
  ; auraParticles : list ParticleData
  ; giftParticles : list ParticleData
  ; candyParticles : list ParticleData }.

Definition empty : t := mkSystem [] [] [] [] [] [] [] [] [].

(** [this.particles.push(p)] followed by the push on the typed list. *)
Definition push (p : ParticleData) (s : t) : t :=
  let ps := particles s ++ [p] in
  match type p with
  | foliage => mkSystem (meshes s) ps (foliageParticles s ++ [p])
      (decorationParticles s) (trunkParticles s) (snowParticles s)
      (auraParticles s) (giftParticles s) (candyParticles s)
  | decoration => mkSystem (meshes s) ps (foliageParticles s)
      (decorationParticles s ++ [p]) (trunkParticles s) (snowParticles s)
      (auraParticles s) (giftParticles s) (candyParticles s)
  | trunk => mkSystem (meshes s) ps (foliageParticles s)
      (decorationParticles s) (trunkParticles s ++ [p]) (snowParticles s)
      (auraParticles s) (giftParticles s) (candyParticles s)
  | snow => mkSystem (meshes s) ps (foliageParticles s)
      (decorationParticles s) (trunkParticles s) (snowParticles s ++ [p])
      (auraParticles s) (giftParticles s) (candyParticles s)
  | aura => mkSystem (meshes s) ps (foliageParticles s)
      (decorationParticles s) (trunkParticles s) (snowParticles s)
      (auraParticles s ++ [p]) (giftParticles s) (candyParticles s)
  | gift => mkSystem (meshes s) ps (foliageParticles s)
      (decorationParticles s) (trunkParticles s) (snowParticles s)
      (auraParticles s) (giftParticles s ++ [p]) (candyParticles s)
  | candy => mkSystem (meshes s) ps (foliageParticles s)
      (decorationParticles s) (trunkParticles s) (snowParticles s)
      (auraParticles s) (giftParticles s) (candyParticles s ++ [p])
  end.

(** [for (let i = 0; i < count; i++) body(i)], written from index [i] with
    [n] iterations left. *)
Fixpoint for_loop {S : Type} (n i : nat) (body : nat -> S -> Rand S) (s : S)
  : Rand S :=
  match n with
  | O => ret s
  | Datatypes.S k => s' <- body i s ;; for_loop k (Datatypes.S i) body s'
  end.

(** [Math.pow(b, e)] for a base [b >= 0] and an exponent [e > 0], the only
    use in the source: 0 at base 0, [exp (e * ln b)] otherwise. *)
Definition Math_pow (b e : R) : R :=
  if Req_dec_T b 0 then 0 else Rpower b e.

(** [Math.floor], as a number. *)
Definition Math_floor (a : R) : R := IZR (Zfloor a).

(** *** generateTreeData *)

Definition treeHeight : R := 13.0.
Definition bottomRadius : R := 5.5.
Definition topRadius : R := 0.5.
Definition layerCount : R := 10.
Definition particleCount : nat := 12 * 1000.

(** The height part of one iteration, from the first draw [u]: the values
    of [layerIndex], [layerResidue], the tightened [hNorm], [y],
    [currentMaxRadius], [flare] and [baseR]. *)
Definition layerIndex (u : R) : Z := Zfloor (Math_pow u 0.8 * layerCount).

Definition layerResidue (u : R) : R :=
  Math_pow u 0.8 * layerCount - IZR (layerIndex u).

Definition tightResidue (u : R) : R := 0.5 + (layerResidue u - 0.5) * 0.7.

Definition hNorm (u : R) : R := (IZR (layerIndex u) + tightResidue u) / layerCount.

Definition height_y (u : R) : R := hNorm u * treeHeight.

Definition currentMaxRadius (u : R) : R :=
  bottomRadius - (height_y u / treeHeight) * (bottomRadius - topRadius).

(** [const flare = 1.0 + 0.4 * (1.0 - layerProgress)]; the line above it in
    the source reads "Local flare factor: 1.0 to 0.6 within a layer". *)
Definition flare (layerProgress : R) : R := 1.0 + 0.4 * (1.0 - layerProgress).

Definition baseR (u : R) : R := currentMaxRadius u * flare (layerResidue u).

(** The body of the loop for index [i]; the draws are taken in the order
    the source evaluates them. *)
Definition generateTreeParticle (i : nat) : Rand ParticleData :=
  u <- Math_random ;;
  let y := height_y u in
  let noise := sin (y * 2.0) * cos (INR i * 0.1) * 0.5 + 0.5 in
  let irregularity := 0.8 + 0.4 * noise in
  u2 <- Math_random ;;
  let rRatio := (0.3 + 0.7 * sqrt u2) * irregularity in
  let r := baseR u * rRatio in
  u3 <- Math_random ;;
  let angle := u3 * PI * 2 in
  let x := cos angle * r in
  let z := sin angle * r in
  let targetPos := Vector3.new x (y + 2.0) z in
  u4 <- Math_random ;;
  let explosionVec0 := Vector3.normalize targetPos in
  let explosionVec1 :=
    Vector3.setY explosionVec0 (Vector3.y explosionVec0 + (u4 - 0.5) * 0.5) in
  let explosionVec := Vector3.normalize explosionVec1 in
  randType <- Math_random ;;
  typed <-
    (if Rlt_dec randType 0.10 then
       u5 <- Math_random ;;
       rand <- Math_random ;;
       ret (decoration, 0.08 + u5 * 0.08,
            if Rlt_dec rand 0.4 then ColorHex "#FFD700"
            else if Rlt_dec rand 0.7 then ColorHex "#D42426"
            else if Rlt_dec rand 0.9 then ColorHex "#C0C0C0"
            else ColorHex "#00BFFF")
     else if Rlt_dec randType 0.15 then
       u5 <- Math_random ;;
       u6 <- Math_random ;;
       ret (gift, 0.18 + u5 * 0.1,
            ColorHex (if Rlt_dec u6 0.5 then "#D42426" else "#2ecc71"))
     else if Rlt_dec randType 0.20 then
       u5 <- Math_random ;;
       ret (candy, 0.12 + u5 * 0.1, ColorHex "#ffffff")
     else
       u5 <- Math_random ;;
       u6 <- Math_random ;;
       ret (foliage, 0.03 + u5 * 0.04,
            ColorOffsetHSL
              (ColorLerp (ColorHex "#0f3b0f") (ColorHex "#2ecc71") (hNorm u))
              0 0 ((u6 - 0.5) * 0.15))) ;;
  let '(type, scale, color) := typed in
  cx <- Math_random ;;
  cy <- Math_random ;;
  cz <- Math_random ;;
  ph <- Math_random ;;
  ret {| id := Z.of_nat i
       ; targetPosition := targetPos
       ; currentPosition :=
           Vector3.new ((cx - 0.5) * 60) ((cy - 0.5) * 60) ((cz - 0.5) * 60)
       ; color := color
       ; baseScale := scale
       ; currentScale := 0
       ; layer := layerIndex u
       ; phaseOffset := ph * 10
       ; type := type
       ; explosionVelocity := explosionVec |}.

Definition generateTreeData (s : t) : Rand t :=
  for_loop particleCount 0
    (fun i s => p <- generateTreeParticle i ;; ret (push p s)) s.

(** *** generateTrunkData *)

Definition trunkHeight : R := 6.0.
Definition trunkRadius : R := 1.4.
Definition trunkCount : nat := 3 * 1000.

Definition generateTrunkParticle : Rand ParticleData :=
  u <- Math_random ;;
  let h := u * trunkHeight in
  u2 <- Math_random ;;
  let angle := u2 * PI * 2 in
  u3 <- Math_random ;;
  let r := (0.4 + 0.6 * sqrt u3) * trunkRadius in
  let x := cos angle * r in
  let z := sin angle * r in
  let y := h - 2.0 in
  let targetPos := Vector3.new x y z in
  let explosionVec0 := Vector3.normalize (Vector3.new x 0 z) in
  u4 <- Math_random ;;
  let explosionVec1 := Vector3.setY explosionVec0 ((u4 - 0.5) * 0.2) in
  let explosionVec := Vector3.normalize explosionVec1 in
  u5 <- Math_random ;;
  let color := ColorOffsetHSL (ColorHex "#4a3c31") 0 0 ((u5 - 0.5) * 0.15) in
  cx <- Math_random ;;
  cz <- Math_random ;;
  u6 <- Math_random ;;
  ph <- Math_random ;;
  ret {| id := -1
       ; targetPosition := targetPos
       ; currentPosition := Vector3.new ((cx - 0.5) * 30) (-30) ((cz - 0.5) * 30)
       ; color := color
       ; baseScale := 0.06 + u6 * 0.05
       ; currentScale := 0
       ; layer := -1
       ; phaseOffset := ph * 5
       ; type := trunk
       ; explosionVelocity := explosionVec |}.

Definition generateTrunkData (s : t) : Rand t :=
  for_loop trunkCount 0
    (fun _ s => p <- generateTrunkParticle ;; ret (push p s)) s.

(** *** generateSnowData *)

Definition snowCount : nat := 3 * 1000.

Definition generateSnowParticle : Rand ParticleData :=
  cx <- Math_random ;;
  cy <- Math_random ;;
  cz <- Math_random ;;
  u <- Math_random ;;
  u2 <- Math_random ;;
  ph <- Math_random ;;
  ret {| id := -2
       ; targetPosition := Vector3.new 0 0 0
       ; currentPosition :=
           Vector3.new ((cx - 0.5) * 80) (cy * 60 - 10) ((cz - 0.5) * 80)
       ; color := ColorNum 16777215
       ; baseScale := 0.04 + u * 0.06
       ; currentScale := 0.04 + u2 * 0.06
       ; layer := -2
       ; phaseOffset := ph * 20
       ; type := snow
       ; explosionVelocity := Vector3.new 0 (-1) 0 |}.

Definition generateSnowData (s : t) : Rand t :=
  for_loop snowCount 0
    (fun _ s => p <- generateSnowParticle ;; ret (push p s)) s.

(** *** generateAuraData *)

Definition auraCount : nat := 500.

Definition generateAuraParticle : Rand ParticleData :=
  u <- Math_random ;;
  let theta := u * PI * 2 in
  u2 <- Math_random ;;
  let phi := acos (2 * u2 - 1) in
  u3 <- Math_random ;;
  let r := 10 + u3 * 15 in
  let x := r * sin phi * cos theta in
  let y := r * sin phi * sin theta + 8 in
  let z := r * cos phi in
  u4 <- Math_random ;;
  ph <- Math_random ;;
  ret {| id := -3
       ; targetPosition := Vector3.new x y z
       ; currentPosition := Vector3.new x y z
       ; color := ColorNum 16766720
       ; baseScale := 0.03 + u4 * 0.04
       ; currentScale := 0
       ; layer := -3
       ; phaseOffset := ph * 10
       ; type := aura
       ; explosionVelocity := Vector3.normalize (Vector3.new x y z) |}.

Definition generateAuraData (s : t) : Rand t :=
  for_loop auraCount 0
    (fun _ s => p <- generateAuraParticle ;; ret (push p s)) s.

(** The four generation calls of the constructor, in order. *)
Definition generate : Rand t :=
  s1 <- generateTreeData empty ;;
  s2 <- generateTrunkData s1 ;;
  s3 <- generateSnowData s2 ;;
  generateAuraData s3.

(** *** createMeshes, initInstances

    The shared [dummy] object is not kept in the state: every use below
    overwrites its position, scale and rotation before [updateMatrix], except
    [updateMesh], which runs on the freshly built dummy (rotation 0). *)

Definition createMeshes (s : t) : t :=
  mkSystem
    [ newInstancedMesh (length (foliageParticles s))
    ; newInstancedMesh (length (decorationParticles s))
    ; newInstancedMesh (length (trunkParticles s))
    ; newInstancedMesh (length (snowParticles s))
    ; newInstancedMesh (length (auraParticles s))
    ; newInstancedMesh (length (giftParticles s))
    ; newInstancedMesh (length (candyParticles s)) ]
    (particles s) (foliageParticles s) (decorationParticles s)
    (trunkParticles s) (snowParticles s) (auraParticles s)
    (giftParticles s) (candyParticles s).

Definition uniformScale (a : R) : Vector3.t := Vector3.new a a a.

Fixpoint updateMesh_from (i : nat) (l : list ParticleData)
    (mesh : InstancedMesh) : InstancedMesh :=
  match l with
  | [] => mesh
  | p :: rest =>
      let matrix :=
        Compose (currentPosition p) (Euler 0 0 0)
                (uniformScale (currentScale p)) in
      updateMesh_from (S i) rest
        (setColorAt (setMatrixAt mesh i matrix) i (color p))
  end.

Definition updateMesh (l : list ParticleData) (mesh : InstancedMesh) :=
  updateMesh_from 0 l mesh.

Definition initInstances (s : t) : t :=
  match meshes s with
  | [m0; m1; m2; m3; m4; m5; m6] =>
      mkSystem
        [ updateMesh (foliageParticles s) m0
        ; updateMesh (decorationParticles s) m1
        ; updateMesh (trunkParticles s) m2
        ; updateMesh (snowParticles s) m3
        ; updateMesh (auraParticles s) m4
        ; updateMesh (giftParticles s) m5
        ; updateMesh (candyParticles s) m6 ]
        (particles s) (foliageParticles s) (decorationParticles s)
        (trunkParticles s) (snowParticles s) (auraParticles s)
        (giftParticles s) (candyParticles s)
  | _ => s
  end.

(** The constructor, without the scene. *)
Definition constructor : Rand t :=
  s <- generate ;; ret (initInstances (createMeshes s)).

(** *** update *)

Definition Rltb (a b : R) : bool := if Rlt_dec a b then true else false.

(** [a / b] on finite numbers; [None] stands for the non-finite result
    (an infinity or NaN) of a zero divisor. *)
Definition div (a b : R) : option R :=
  if Req_dec_T b 0 then None else Some (a / b).

(** [timeOffset / (1.0 / twinkleSpeed)]: when [twinkleSpeed] is 0 the
    divisor is Infinity and the quotient of a finite number by it is 0. *)
Definition twinkleTurns (timeOffset twinkleSpeed : R) : R :=
  match div 1.0 twinkleSpeed with
  | Some period => timeOffset / period
  | None => 0
  end.

(** The factor of [scale *= (...)] in the "Scale & Breath" step. *)
Definition oscillation (isDeco : bool) (time phaseOffset twinkleSpeed : R)
  : R :=
  let timeOffset := time + phaseOffset in
  if isDeco then 1 + sin (twinkleTurns timeOffset twinkleSpeed * PI * 2) * 0.4
  else 1 + sin ((timeOffset / 4.0) * PI * 2) * 0.05.

(** The "Hover" test, on the position already moved this frame. *)
Definition hovered (mousePos : option Vector3.t) (dispersion : R)
    (position : Vector3.t) : bool :=
  match mousePos with
  | Some m => Rltb dispersion 0.1 && Rltb (Vector3.distanceTo position m) 1.5
  | None => false
  end.

Section Update.
Variables (time : R) (mousePos : option Vector3.t) (dispersion : R)
          (twinkleSpeed : R) (snowDensity : Q) (snowSpeed : R)
          (treeDensity decorationDensity : Q).

(** The body of the first loop of [updateList] for a defined [p]: the
    particle with its new [currentPosition], and the matrix written. *)
Definition updateParticle (isDeco : bool) (p : ParticleData)
  : Rand (ParticleData * Matrix4) :=
  u <- Math_random ;;
  let explodeDist := dispersion * (25 + u * 15) in
  let tp := targetPosition p in
  let ev := explosionVelocity p in
  let cp := currentPosition p in
  let desiredX := Vector3.x tp + Vector3.x ev * explodeDist in
  let desiredY := Vector3.y tp + Vector3.y ev * explodeDist in
  let desiredZ := Vector3.z tp + Vector3.z ev * explodeDist in
  let cp' :=
    Vector3.new (Vector3.x cp + (desiredX - Vector3.x cp) * 0.1)
                (Vector3.y cp + (desiredY - Vector3.y cp) * 0.1)
                (Vector3.z cp + (desiredZ - Vector3.z cp) * 0.1) in
  let scale0 :=
    currentScale p * oscillation isDeco time (phaseOffset p) twinkleSpeed in
  let scale := if hovered mousePos dispersion cp' then scale0 * 2.0
               else scale0 in
  let rotation :=
    if isDeco then
      match type p with
      | gift | candy =>
          Euler (time * 0.5 + IZR (id p)) (time * 0.5) (IZR (id p))
      | _ => Euler (time + IZR (id p)) (time * 0.5) 0
      end
    else Euler 0 0 0 in
  ret (set_currentPosition p cp', Compose cp' rotation (uniformScale scale)).

(** [Math.floor(list.length * Math.min(1.0, density * densityMultiplier))] *)
Definition visibleCount (len : nat) (density densityMultiplier : Q) : Z :=
  Qfloor (inject_Z (Z.of_nat len) * Qmin 1.0 (density * densityMultiplier)).

(** The second loop of [updateList]: [n] slots from [i] on get the zero
    scaling. *)
Fixpoint hideRemaining (n i : nat) (mesh : InstancedMesh) : InstancedMesh :=
  match n with
  | O => mesh
  | S k => hideRemaining k (S i) (setMatrixAt mesh i (MakeScale 0 0 0))
  end.

(** One step of the first loop at index [i]; [if (!p) continue] when the
    slot is undefined. *)
Definition updateSlot (isDeco : bool) (i : nat)
    (st : list ParticleData * InstancedMesh)
  : Rand (list ParticleData * InstancedMesh) :=
  let (l, mesh) := st in
  match l !! i with
  | None => ret (l, mesh)
  | Some p =>
      r <- updateParticle isDeco p ;;
      let (p', matrix) := r in
      ret (<[i := p']> l, setColorAt (setMatrixAt mesh i matrix) i (color p'))
  end.

(** [updateList(list, mesh, isDeco, densityMultiplier)]: the first loop runs
    while [i < visibleCount], so [Z.to_nat visibleCount] times, and leaves
    [i] there for the second loop, which runs up to [list.length]. *)
Definition updateList (l : list ParticleData) (mesh : InstancedMesh)
    (isDeco : bool) (densityMultiplier : Q)
  : Rand (list ParticleData * InstancedMesh) :=
  let density := if isDeco then decorationDensity else treeDensity in
  let shown := Z.to_nat (visibleCount (length l) density densityMultiplier) in
  st <- for_loop shown 0 (updateSlot isDeco) (l, mesh) ;;
  let (l', mesh') := st in
  ret (l', hideRemaining (length l - shown) shown mesh').

(** One iteration of the loop of [updateSnow] at index [i]. *)
Definition updateSnowSlot (visibleSnow : Z) (i : nat)
    (st : list ParticleData * InstancedMesh)
  : Rand (list ParticleData * InstancedMesh) :=
  let (l, mesh) := st in
  if (visibleSnow <=? Z.of_nat i)%Z then
    ret (l, setMatrixAt mesh i (MakeScale 0 0 0))
  else
    match l !! i with
    | None => ret (l, mesh)
    | Some p =>
        u <- Math_random ;;
        let speed := (0.05 + u * 0.05) * snowSpeed in
        let cp := currentPosition p in
        let y1 := Vector3.y cp - speed in
        let x1 := Vector3.x cp + sin (time + phaseOffset p) * 0.01 * snowSpeed in
        let z1 :=
          Vector3.z cp + cos (time * 0.8 + phaseOffset p) * 0.01 * snowSpeed in
        cp' <-
          (if Rlt_dec y1 (-10) then
             wx <- Math_random ;;
             wz <- Math_random ;;
             ret (Vector3.new ((wx - 0.5) * 80) 30 ((wz - 0.5) * 80))
           else ret (Vector3.new x1 y1 z1)) ;;
        u2 <- Math_random ;;
        let s := baseScale p * (0.8 + u2 * 0.4) in
        ret (<[i := set_currentPosition p cp']> l,
             setMatrixAt mesh i
               (Compose cp' (Euler time time time) (uniformScale s)))
    end.

Definition updateSnow (l : list ParticleData) (mesh : InstancedMesh)
  : Rand (list ParticleData * InstancedMesh) :=
  let visibleSnow := Qfloor (inject_Z (Z.of_nat (length l)) * snowDensity) in
  for_loop (length l) 0 (updateSnowSlot visibleSnow) (l, mesh).

(** The body of the [forEach] of [updateAura]: the bob on [y], then the
    rotation of [(x, z)] by the fixed angle 0.002. *)
Definition updateAuraParticle (p : ParticleData) : ParticleData :=
  let cp := currentPosition p in
  let y1 := Vector3.y cp + sin (time + IZR (id p)) * 0.01 in
  let x := Vector3.x cp * cos 0.002 - Vector3.z cp * sin 0.002 in
  let z := Vector3.x cp * sin 0.002 + Vector3.z cp * cos 0.002 in
  set_currentPosition p (Vector3.new x y1 z).

Definition auraMatrix (p : ParticleData) : Matrix4 :=
  let cp := currentPosition p in
  let s := currentScale p * (0.8 + 0.4 * sin (time * 2 + IZR (id p))) in
  Compose cp (LookAt cp (Vector3.new 0 (Vector3.y cp) 0)) (uniformScale s).

Fixpoint updateAura_from (i : nat) (l : list ParticleData)
    (mesh : InstancedMesh) : list ParticleData * InstancedMesh :=
  match l with
  | [] => ([], mesh)
  | p :: rest =>
      let p' := updateAuraParticle p in
      let (rest', mesh') :=
        updateAura_from (S i) rest (setMatrixAt mesh i (auraMatrix p')) in
      (p' :: rest', mesh')
  end.

Definition updateAura (l : list ParticleData) (mesh : InstancedMesh)
  : list ParticleData * InstancedMesh :=
  updateAura_from 0 l mesh.

(** [update(time, mousePos, dispersion, twinkleSpeed, snowDensity,
    snowSpeed, treeDensity, decorationDensity)].  [None] is the TypeError
    of a missing mesh; after the constructor there are seven.  The
    [particles] array shares its objects with the typed lists and is never
    read after construction; it is carried along as it was. *)
Definition update (s : t) : Rand (option t) :=
  match meshes s with
  | [m0; m1; m2; m3; m4; m5; m6] =>
      r0 <- updateList (foliageParticles s) m0 false 1.0 ;;
      r1 <- updateList (decorationParticles s) m1 true 1.0 ;;
      r2 <- updateList (trunkParticles s) m2 false 1.0 ;;
      r5 <- updateList (giftParticles s) m5 true 1.0 ;;
      r6 <- updateList (candyParticles s) m6 true 1.0 ;;
      r3 <- updateSnow (snowParticles s) m3 ;;
      let r4 := updateAura (auraParticles s) m4 in
      ret (Some (mkSystem
                   [r0.2; r1.2; r2.2; r3.2; r4.2; r5.2; r6.2]
                   (particles s) r0.1 r1.1 r2.1 r3.1 r4.1 r5.1 r6.1))
  | _ => ret None
  end.

End Update.

(** The eight lists of the class. *)
Definition populations (s : t) : list (list ParticleData) :=
  [ particles s; foliageParticles s; decorationParticles s; trunkParticles s
  ; snowParticles s; auraParticles s; giftParticles s; candyParticles s ].

(** The explosion vector has length 1, exactly, hence within 1e-6. *)
Definition unitExplosion (p : ParticleData) : Prop :=
  Vector3.length (explosionVelocity p) = 1
  /\ Rabs (Vector3.length (explosionVelocity p) - 1) <= 0.000001.

(** Which argument [update] passes as [isDeco] for each tree-attached
    list. *)
Definition isDeco_of (ty : ParticleType) : bool :=
  match ty with
  | decoration | gift | candy => true
  | _ => false
  end.

(** *** updateColors *)

(** [foliageBase], [foliageTip] and [decoColors] for a theme name; any
    name other than ['icy'] and ['golden'] takes the classic branch. *)
Definition themeColors (theme : string) : Color * Color * list Color :=
  if decide (theme = "icy") then
    (ColorHex "#001a33", ColorHex "#80d4ff",
     [ColorHex "#ffffff"; ColorHex "#00ffff"; ColorHex "#0044cc"])
  else if decide (theme = "golden") then
    (ColorHex "#221100", ColorHex "#ffaa00",
     [ColorHex "#ffd700"; ColorHex "#ffec8b"; ColorHex "#b8860b"])
  else
    (ColorHex "#0f3b0f", ColorHex "#2ecc71",
     [ColorHex "#FFD700"; ColorHex "#FF0000"; ColorHex "#C0C0C0";
      ColorHex "#00BFFF"]).

(** [list.forEach(p => ...)] with a body that draws. *)
Fixpoint forEach {A B} (f : A -> Rand B) (l : list A) : Rand (list B) :=
  match l with
  | [] => ret []
  | a :: rest => b <- f a ;; bs <- forEach f rest ;; ret (b :: bs)
  end.

(** The body of [this.foliageParticles.forEach] in [updateColors]. *)
Definition recolorFoliage (foliageBase foliageTip : Color) (p : ParticleData)
  : Rand ParticleData :=
  let hRatio := Rmax 0 (Rmin 1 (Vector3.y (targetPosition p) / 13.0)) in
  u <- Math_random ;;
  ret (set_color p
         (ColorOffsetHSL (ColorLerp foliageBase foliageTip hRatio)
            0 0 ((u - 0.5) * 0.1))).

(** [arr[n]] for a number [n] that is an integer: undefined below 0 and
    from [arr.length] on. *)
Definition at_index {A} (arr : list A) (n : Z) : option A :=
  if (0 <=? n)%Z then arr !! Z.to_nat n else None.

(** The body of [this.decorationParticles.forEach] in [updateColors]:
    [c = decoColors[Math.floor(Math.random() * decoColors.length)]], then
    [if (c) p.color = c.clone()]. *)
Definition recolorDecoration (decoColors : list Color) (p : ParticleData)
  : Rand ParticleData :=
  u <- Math_random ;;
  match at_index decoColors (Zfloor (u * INR (length decoColors))) with
  | Some c => ret (set_color p c)
  | None => ret p
  end.

Definition updateColors (theme : string) (s : t) : Rand t :=
  let '(foliageBase, foliageTip, decoColors) := themeColors theme in
  fol <- forEach (recolorFoliage foliageBase foliageTip) (foliageParticles s) ;;
  dec <- forEach (recolorDecoration decoColors) (decorationParticles s) ;;
  ret (mkSystem (meshes s) (particles s) fol dec (trunkParticles s)
         (snowParticles s) (auraParticles s) (giftParticles s)
         (candyParticles s)).

(** What the first loop of [updateList] leaves for a particle it draws,
    as a function of the draw [u] it read: the moved particle and the
    matrix written. *)
Definition drawnWith (time : R) (mousePos : option Vector3.t)
    (dispersion twinkleSpeed : R) (isDeco : bool) (u : R) (p : ParticleData)
  : ParticleData * Matrix4 :=
  (updateParticle time mousePos dispersion twinkleSpeed isDeco p
     (fun _ => u) 0%nat).1.

(** What one iteration of the loop of [updateSnow] establishes at index
    [j]: beyond the visible count the particle is untouched and its slot
    collapsed; below it the particle has only moved, either down by its
    fall speed with the sway, or, had that put it under -10, to the top at
    30 with a fresh horizontal position. *)
Definition snowStep (time snowSpeed : R) (visibleSnow : Z) (j : nat)
    (p p' : ParticleData) (m : Matrix4) : Prop :=
  if (visibleSnow <=? Z.of_nat j)%Z
  then p' = p /\ m = MakeScale 0 0 0
  else exists cp' f,
      p' = set_currentPosition p cp'
      /\ 0.8 <= f < 1.2
      /\ m = Compose cp' (Euler time time time)
               (uniformScale (baseScale p * f))
      /\ -10 <= Vector3.y cp'
      /\ ((Vector3.y cp' = 30
           /\ -40 <= Vector3.x cp' < 40 /\ -40 <= Vector3.z cp' < 40)
          \/ exists u, 0 <= u < 1
               /\ cp' = Vector3.new
                          (Vector3.x (currentPosition p)
                           + sin (time + phaseOffset p) * 0.01 * snowSpeed)
                          (Vector3.y (currentPosition p)
                           - (0.05 + u * 0.05) * snowSpeed)
                          (Vector3.z (currentPosition p)
                           + cos (time * 0.8 + phaseOffset p) * 0.01
                             * snowSpeed)).

#[global] Instance ParticleType_eq_dec : EqDecision ParticleType.
Proof. solve_decision. Defined.

(** The typed list that holds the particles of a type. *)
Definition listOf (ty : ParticleType) (s : t) : list ParticleData :=
  match ty with
  | foliage => foliageParticles s
  | decoration => decorationParticles s
  | trunk => trunkParticles s
  | snow => snowParticles s
  | aura => auraParticles s
  | gift => giftParticles s
  | candy => candyParticles s
  end.

(** The mesh [createMeshes] builds for a type sits at this index of
    [meshes]. *)
Definition meshIndex (ty : ParticleType) : nat :=
  match ty with
  | foliage => 0 | decoration => 1 | trunk => 2 | snow => 3
  | aura => 4 | gift => 5 | candy => 6
  end.

(** Every typed list holds particles of its type only. *)
Definition sorted_by_type (s : t) : Prop :=
  forall ty, Forall (fun p => type p = ty) (listOf ty s).

(** There are seven meshes, and the mesh of each type has one instance
    slot per particle of the typed list. *)
Definition meshes_fit (s : t) : Prop :=
  length (meshes s) = 7%nat
  /\ forall ty, (length ∘ instanceMatrix) <$> (meshes s !! meshIndex ty)
               = Some (length (listOf ty s)).

(** Where generation puts a tree-volume particle: one of the ten layers,
    a target between heights 2 and 15, inside 1.68 times the cone radius
    at its height (the flare of at most 1.4 times the irregularity of at
    most 1.2), and a start inside the cube of half-side 30. *)
Definition inTreeVolume (p : ParticleData) : Prop :=
  let tp := targetPosition p in
  let cp := currentPosition p in
  let cone := 5.5 - ((Vector3.y tp - 2) / 13) * 5 in
  (0 <= layer p <= 9)%Z
  /\ (0 <= id p)%Z
  /\ 2 < Vector3.y tp < 15
  /\ 0 < cone
  /\ Vector3.x tp * Vector3.x tp + Vector3.z tp * Vector3.z tp
     < (1.68 * cone) * (1.68 * cone)
  /\ currentScale p = 0
  /\ 0 <= phaseOffset p < 10
  /\ (-30 <= Vector3.x cp < 30 /\ -30 <= Vector3.y cp < 30
      /\ -30 <= Vector3.z cp < 30)
  /\ match type p with
     | decoration => 0.08 <= baseScale p < 0.16
     | gift => 0.18 <= baseScale p < 0.28
     | candy => 0.12 <= baseScale p < 0.22
     | foliage => 0.03 <= baseScale p < 0.07
     | _ => False
     end.

(** Where generation puts a trunk particle: in the cylinder shell between
    radii 0.56 and 1.4, from height -2 to 4, starting 30 below. *)
Definition inTrunk (p : ParticleData) : Prop :=
  let tp := targetPosition p in
  type p = trunk
  /\ -2 <= Vector3.y tp < 4
  /\ 0.56 * 0.56
     <= Vector3.x tp * Vector3.x tp + Vector3.z tp * Vector3.z tp
     < 1.4 * 1.4
  /\ Vector3.y (currentPosition p) = -30
  /\ currentScale p = 0
  /\ 0.06 <= baseScale p < 0.11.

(** Where generation puts an aura particle: at a distance between 10 and
    25 from the point (0, 8, 0), already at its target. *)
Definition onAuraShell (p : ParticleData) : Prop :=
  let tp := targetPosition p in
  type p = aura
  /\ currentPosition p = tp
  /\ currentScale p = 0
  /\ 10 * 10
     <= Vector3.x tp * Vector3.x tp
        + (Vector3.y tp - 8) * (Vector3.y tp - 8)
        + Vector3.z tp * Vector3.z tp
     < 25 * 25.

(** Where generation puts a snow particle: in the box of half-side 40
    between heights -10 and 50, with the explosion vector straight down. *)
Definition inSnowBox (p : ParticleData) : Prop :=
  let cp := currentPosition p in
  type p = snow
  /\ explosionVelocity p = Vector3.new 0 (-1) 0
  /\ (-40 <= Vector3.x cp < 40 /\ -10 <= Vector3.y cp < 50
      /\ -40 <= Vector3.z cp < 40)
  /\ 0.04 <= baseScale p < 0.1
  /\ 0.04 <= currentScale p < 0.1.

(** The four, by the type of the particle. *)
Definition wellPlaced (p : ParticleData) : Prop :=
  match type p with
  | foliage | decoration | gift | candy => inTreeVolume p
  | trunk => inTrunk p
  | snow => inSnowBox p
  | aura => onAuraShell p
  end.

(** A foliage particle away from its target, for examples. *)
Definition sampleParticle : ParticleData :=
  mkParticle 0 (Vector3.new 0 2 0) (Vector3.new 10 12 (-10))
    (ColorHex "#0f3b0f") 0.05 0.05 0 0 foliage (Vector3.new 0 1 0).

(** *** Several frames *)

(** The per-frame inputs of [update]. *)
Record FrameInput : Type := mkFrameInput
  { f_time : R
  ; f_mousePos : option Vector3.t
  ; f_dispersion : R
  ; f_twinkleSpeed : R
  ; f_snowDensity : Q
  ; f_snowSpeed : R
  ; f_treeDensity : Q
  ; f_decorationDensity : Q }.

Definition updateWith (f : FrameInput) (s : t) : Rand (option t) :=
  update (f_time f) (f_mousePos f) (f_dispersion f) (f_twinkleSpeed f)
    (f_snowDensity f) (f_snowSpeed f) (f_treeDensity f)
    (f_decorationDensity f) s.

(** [update] called once per frame, in order; a frame that throws ends the
    run. *)
Fixpoint updateFrames (fs : list FrameInput) (s : t) : Rand (option t) :=
  match fs with
  | [] => ret (Some s)
  | f :: rest =>
      r <- updateWith f s ;;
      match r with
      | Some s' => updateFrames rest s'
      | None => ret None
      end
  end.

(** [updateList] on the same list and mesh once per frame, with the time
    of each frame. *)
Fixpoint updateListFrames (times : list R) (mousePos : option Vector3.t)
    (dispersion twinkleSpeed : R) (treeDensity decorationDensity : Q)
    (isDeco : bool) (l : list ParticleData) (mesh : InstancedMesh)
  : Rand (list ParticleData * InstancedMesh) :=
  match times with
  | [] => ret (l, mesh)
  | time :: rest =>
      st <- updateList time mousePos dispersion twinkleSpeed treeDensity
              decorationDensity l mesh isDeco 1.0 ;;
      updateListFrames rest mousePos dispersion twinkleSpeed treeDensity
        decorationDensity isDeco st.1 st.2
  end.

(** The indices the description of the density gate calls visible in a
    list of [len] particles: those below [floor(len * density)], with no
    clamp. *)
Definition visibleIndices (len : nat) (density : Q) : list nat :=
  filter (fun j => (Z.of_nat j < Qfloor (inject_Z (Z.of_nat len) * density))%Z)
    (seq 0 len).

End ParticleSystem.

(** ** OrnamentSystem.ts (the cards) *)

Module OrnamentSystem.
Import Random.
Local Open Scope R_scope.
Local Open Scope rand_scope.

(** [interface Ornament] of assets/data/ornamentData. *)
Record Ornament : Type := mkOrnament
  { id : string
  ; src : string
  ; title : string
  ; description : string
  ; position : Vector3.t
  ; scale : R }.

Record Texture : Type := mkTexture
  { image : string
  ; colorSpace : string }.

(** The [MeshStandardMaterial] of a card; one is built per card. *)
Record Material : Type := mkMaterial
  { map : option Texture
  ; needsUpdate : bool }.

(** [mesh.userData]: the spread [...data], then the fields added by
    [createOrnaments]; [isExpanded] is absent (falsy) until a click sets
    it. *)
Record UserData : Type := mkUserData
  { data : Ornament
  ; isOrnament : bool
  ; originalPosition : Vector3.t
  ; originalRotation : Rotation
  ; originalScale : Vector3.t
  ; explosionVelocity : Vector3.t
  ; isExpanded : bool }.

(** The invisible hit volume attached to a card: its box and the copy of
    the card data it carries.  Its [parent] is the card that holds it. *)
Record HitBox : Type := mkHitBox
  { hitGeo : R * R * R
  ; hitVisible : bool
  ; hitData : Ornament
  ; hitIsOrnament : bool }.

Record Frame : Type := mkFrame
  { frameGeo : R * R
  ; frameZ : R }.

Record Mesh : Type := mkMeshCard
  { material : Material
  ; meshPosition : Vector3.t
  ; meshRotation : Rotation
  ; meshScale : Vector3.t
  ; userData : UserData
  ; frame : Frame
  ; hitBox : HitBox }.

Definition set_position (m : Mesh) (v : Vector3.t) : Mesh :=
  mkMeshCard (material m) v (meshRotation m) (meshScale m) (userData m)
    (frame m) (hitBox m).

Definition set_scale (m : Mesh) (v : Vector3.t) : Mesh :=
  mkMeshCard (material m) (meshPosition m) (meshRotation m) v (userData m)
    (frame m) (hitBox m).

Definition set_rotation (m : Mesh) (r : Rotation) : Mesh :=
  mkMeshCard (material m) (meshPosition m) r (meshScale m) (userData m)
    (frame m) (hitBox m).

Definition set_material (m : Mesh) (mat : Material) : Mesh :=
  mkMeshCard mat (meshPosition m) (meshRotation m) (meshScale m) (userData m)
    (frame m) (hitBox m).

Definition set_isExpanded (m : Mesh) (b : bool) : Mesh :=
  let u := userData m in
  mkMeshCard (material m) (meshPosition m) (meshRotation m) (meshScale m)
    (mkUserData (data u) (isOrnament u) (originalPosition u)
       (originalRotation u) (originalScale u) (explosionVelocity u) b)
    (frame m) (hitBox m).

(** The system: the cards in creation order, and the texture loads that
    were started and have not called back yet, each with the index of the
    card its callback captured. *)
Record t : Type := mkSystem
  { ornaments : list Mesh
  ; loading : list (nat * string) }.

(** The body of [ornamentImages.forEach] in [createOrnaments]. *)
Definition createOrnament (d : Ornament) : Rand Mesh :=
  let pos := position d in
  let treeBottomRadius := 5.5 in
  let treeTopRadius := 0.5 in
  let treeMaxHeight := 13.0 in
  let currentRadius :=
    treeBottomRadius
    - (Vector3.y pos / treeMaxHeight) * (treeBottomRadius - treeTopRadius) in
  let targetRadius := Rmax 0.5 currentRadius + 0.5 in
  let xzVec0 := Vector3.normalize (Vector3.new (Vector3.x pos) 0 (Vector3.z pos)) in
  let xzVec := if Req_dec_T (Vector3.length xzVec0) 0
               then Vector3.new 0 0 1 else xzVec0 in
  let pos' := Vector3.new (Vector3.x xzVec * targetRadius) (Vector3.y pos)
                          (Vector3.z xzVec * targetRadius) in
  let rot0 := RotateY (LookAt pos' (Vector3.new 0 (Vector3.y pos) 0)) PI in
  u <- Math_random ;;
  u2 <- Math_random ;;
  let rot := RotateX (RotateZ rot0 ((u - 0.5) * 0.5)) ((u2 - 0.5) * 0.3) in
  let scl := Vector3.new 0.8 0.8 0.8 in
  let ev0 := Vector3.normalize (Vector3.new (Vector3.x pos') 0 (Vector3.z pos')) in
  let ev := Vector3.normalize (Vector3.setY ev0 0.2) in
  ret {| material := mkMaterial None false
       ; meshPosition := pos'
       ; meshRotation := rot
       ; meshScale := scl
       ; userData := mkUserData d true pos' rot scl ev false
       ; frame := mkFrame (1.1, 1.3) (-0.01)
       ; hitBox := mkHitBox (2.0, 2.5, 1.0) false d true |}.

Fixpoint createOrnaments (ds : list Ornament) (s : t) : Rand t :=
  match ds with
  | [] => ret s
  | d :: rest =>
      m <- createOrnament d ;;
      createOrnaments rest
        (mkSystem (ornaments s ++ [m])
                  (loading s ++ [(length (ornaments s), src d)]))
  end.

Definition constructor (ornamentImages : list Ornament) : Rand t :=
  createOrnaments ornamentImages (mkSystem [] []).

(** [updateTexture(id, src)]: [find] returns the first card whose
    [userData.id] is [id]; a card always has a material.  The work is done
    by the loader's callback, so here a load is only started. *)
Definition updateTexture (cardId imageRef : string) (s : t) : t :=
  match list_find (fun o => id (data (userData o)) = cardId) (ornaments s) with
  | Some (i, _) => mkSystem (ornaments s) (loading s ++ [(i, imageRef)])
  | None => s
  end.

(** The callback of a load for card [i], run when the loader delivers
    [texture]: [texture.colorSpace = SRGBColorSpace; mat.map = texture;
    mat.needsUpdate = true]. *)
Definition onLoad (i : nat) (texture : Texture) (cards : list Mesh)
  : list Mesh :=
  match cards !! i with
  | Some m =>
      <[i := set_material m
               (mkMaterial (Some (mkTexture (image texture) "srgb")) true)]>
        cards
  | None => cards
  end.

(** The [k]-th started load completes with [texture]; a load that fails
    never calls back and is simply dropped. *)
Definition loadCompletes (k : nat) (texture : Texture) (s : t) : t :=
  match loading s !! k with
  | Some (i, _) => mkSystem (onLoad i texture (ornaments s)) (delete k (loading s))
  | None => s
  end.

Definition loadFails (k : nat) (s : t) : t :=
  mkSystem (ornaments s) (delete k (loading s)).

(** The body of the [forEach] of [update(time, dispersion)] for the card
    at index [i]. *)
Definition updateCard (time dispersion : R) (i : nat) (mesh : Mesh) : Mesh :=
  if isExpanded (userData mesh) then mesh
  else
    let p := userData mesh in
    let explodeDist := dispersion * 20.0 in
    let targetPos :=
      if Rlt_dec 0.01 dispersion
      then Vector3.addScaledVector (originalPosition p) (explosionVelocity p)
             explodeDist
      else originalPosition p in
    let pos1 := Vector3.lerp (meshPosition mesh) targetPos 0.1 in
    let pos2 :=
      if Rlt_dec dispersion 0.2
      then Vector3.setY pos1 (Vector3.y pos1 + sin (time + INR i) * 0.002)
      else pos1 in
    set_position mesh pos2.

Definition update (time dispersion : R) (s : t) : t :=
  mkSystem (imap (updateCard time dispersion) (ornaments s)) (loading s).

Definition getObjects (s : t) : list Mesh := ornaments s.

(** A run of frames, each with its own time and dispersion. *)
Definition updates (frames : list (R * R)) (s : t) : t :=
  fold_left (fun st f => update f.1 f.2 st) frames s.

(** A card the way [createOrnament] leaves it, given directly by the
    position it ended up at (also its [originalPosition]), untilted. *)
Definition cardAt (d : Ornament) (pos : Vector3.t) (expanded : bool) : Mesh :=
  let scl := Vector3.new 0.8 0.8 0.8 in
  let rot := RotateY (LookAt pos (Vector3.new 0 (Vector3.y pos) 0)) PI in
  {| material := mkMaterial None false
   ; meshPosition := pos
   ; meshRotation := rot
   ; meshScale := scl
   ; userData :=
       mkUserData d true pos rot scl
         (Vector3.normalize
            (Vector3.setY
               (Vector3.normalize
                  (Vector3.new (Vector3.x pos) 0 (Vector3.z pos))) 0.2))
         expanded
   ; frame := mkFrame (1.1, 1.3) (-0.01)
   ; hitBox := mkHitBox (2.0, 2.5, 1.0) false d true |}.

(** The first entry of the default card list, moved to (3, 5, 1). *)
Definition sampleOrnament : Ornament :=
  mkOrnament "ornament_1"
    "https://nie1037-oss.oss-cn-hangzhou.aliyuncs.com/default-product.jpg"
    "Memory 1" "Click to upload your photo" (Vector3.new 3 5 1) 0.3.

End OrnamentSystem.

(** ** ChristmasTree.vue: card selection and close

    A [gsap.to(obj, {x, y, z, duration, ease, onComplete})] call is kept as
    a record of what it animates and where it ends; a tween that runs to
    its end leaves the animated vector at its [to] values (every ease is 1
    at progress 1) and then runs its [onComplete]. *)

Module ChristmasTree.
Import OrnamentSystem.
Local Open Scope R_scope.

Inductive TweenProp : Set := PositionOf | RotationOf | ScaleOf.

Record Tween : Type := mkTween
  { target : nat
  ; prop : TweenProp
  ; to : Vector3.t
  ; duration : R
  ; ease : string
  ; onComplete : bool }.

(** The object handed to the click handler: a card, or the hit box whose
    [userData.parent] is that card. *)
Inductive Object3D : Set :=
| Card (i : nat)
| HitBoxOf (i : nat).

(** [mesh.userData.parent || mesh] *)
Definition resolveTarget (mesh : Object3D) : nat :=
  match mesh with
  | Card i => i
  | HitBoxOf i => i
  end.

Record App : Type := mkApp
  { ornamentSystem : OrnamentSystem.t
  ; tweens : list Tween
  ; viewerVisible : bool
  ; selectedOrnament : option UserData }.

(** [gsap.killTweensOf] on the position, rotation and scale of card [i]. *)
Definition killTweensOf (i : nat) (l : list Tween) : list Tween :=
  filter (fun tw => target tw <> i) l.

Definition handleOrnamentClick (mesh : Object3D) (a : App) : App :=
  let i := resolveTarget mesh in
  match ornaments (ornamentSystem a) !! i with
  | None => a
  | Some card =>
      let originalPos := originalPosition (userData card) in
      let originalScale := originalScale (userData card) in
      let outDir :=
        Vector3.multiplyScalar (Vector3.normalize originalPos) 2.0 in
      let targetPos := Vector3.add originalPos outDir in
      mkApp (ornamentSystem a)
        (killTweensOf i (tweens a) ++
         [ mkTween i PositionOf targetPos 0.5 "back.out(1.2)" false
         ; mkTween i ScaleOf
             (Vector3.new (Vector3.x originalScale * 1.5)
                          (Vector3.y originalScale * 1.5)
                          (Vector3.z originalScale * 1.5))
             0.5 "power2.out" true ])
        (viewerVisible a) (selectedOrnament a)
  end.

(** The end of a tween: the animated vector takes the [to] values; the
    scale tween of a click then shows the viewer, selects the card's
    [userData] and sets [isExpanded] on it. *)
Definition applyEnd (tw : Tween) (m : Mesh) : Mesh :=
  match prop tw with
  | PositionOf => set_position m (to tw)
  | ScaleOf => set_scale m (to tw)
  | RotationOf =>
      set_rotation m (Euler (Vector3.x (to tw)) (Vector3.y (to tw))
                            (Vector3.z (to tw)))
  end.

Definition complete (tw : Tween) (a : App) : App :=
  let sys := ornamentSystem a in
  match ornaments sys !! target tw with
  | None => a
  | Some m =>
      let m1 := applyEnd tw m in
      let m2 := if onComplete tw then set_isExpanded m1 true else m1 in
      mkApp (OrnamentSystem.mkSystem (<[target tw := m2]> (ornaments sys))
                                     (loading sys))
            (tweens a)
            (if onComplete tw then true else viewerVisible a)
            (if onComplete tw then Some (userData m2) else selectedOrnament a)
  end.

(** Every running tween reaches its end, in the order they were started. *)
Definition settle (a : App) : App :=
  let a' := fold_left (fun st tw => complete tw st) (tweens a) a in
  mkApp (ornamentSystem a') [] (viewerVisible a') (selectedOrnament a').

(** The tweens [closeViewer] starts for the card at index [i]. *)
Definition returnTweens (i : nat) (m : Mesh) : list Tween :=
  if isExpanded (userData m) then
    [ mkTween i PositionOf (originalPosition (userData m)) 0.6
        "power2.inOut" false
    ; mkTween i ScaleOf (originalScale (userData m)) 0.6
        "power2.inOut" false ]
  else [].

Definition closeViewer (a : App) : App :=
  let sys := ornamentSystem a in
  mkApp
    (OrnamentSystem.mkSystem
       ((fun m => if isExpanded (userData m)
                  then set_isExpanded m false else m)
          <$> getObjects sys)
       (loading sys))
    (tweens a ++ concat (imap returnTweens (getObjects sys)))
    false None.

(** The application at rest with the given cards: no tween running, the
    viewer closed. *)
Definition idle (cards : list Mesh) : App :=
  mkApp (OrnamentSystem.mkSystem cards []) [] false None.

End ChristmasTree.

(** ** StardustSystem.ts

    The pool of spark points spawned on clicks and along the pointer
    trail.  [positions] is the flat array of the source, three entries per
    slot; [life] holds rationals (only 0, 1 and steps of 0.02 are ever
    written), so the test for a free slot computes.  The rounding of the
    [Float32Array] stores is not modelled. *)

Module StardustSystem.
Import Random.
Local Open Scope R_scope.
Local Open Scope rand_scope.

Record t : Type := mkStardust
  { positions : list R
  ; velocities : list Vector3.t
  ; life : list Q
  ; count : nat
  ; needsUpdate : bool }.

(** [this.positions[i * 3] = x; this.positions[i * 3 + 1] = y;
    this.positions[i * 3 + 2] = z]; a write past the end of a typed array
    is dropped. *)
Definition setPosition (i : nat) (x y z : R) (ps : list R) : list R :=
  <[(i * 3 + 2)%nat := z]> (<[(i * 3 + 1)%nat := y]> (<[(i * 3)%nat := x]> ps)).

(** The three entries of slot [i], when they exist. *)
Definition positionOf (i : nat) (ps : list R) : option Vector3.t :=
  match ps !! (i * 3)%nat, ps !! (i * 3 + 1)%nat, ps !! (i * 3 + 2)%nat with
  | Some x, Some y, Some z => Some (Vector3.new x y z)
  | _, _, _ => None
  end.

(** [this.life[i] ?? 0] *)
Definition lifeAt (i : nat) (l : list Q) : Q := default 0%Q (l !! i).

(** [constructor(scene, count = 500)] *)
Definition constructor (count : nat) : t :=
  mkStardust (replicate (count * 3) 9999) (replicate count Vector3.zero)
    (replicate count 0%Q) count false.

(** The body of the loop of [spawn] for a free slot [i]. *)
Definition revive (position : Vector3.t) (i : nat) (s : t) : Rand t :=
  let ps := setPosition i (Vector3.x position) (Vector3.y position)
              (Vector3.z position) (positions s) in
  u <- Math_random ;;
  let speed := 0.05 + u * 0.1 in
  u2 <- Math_random ;;
  let theta := u2 * PI * 2 in
  u3 <- Math_random ;;
  let phi := acos (2 * u3 - 1) in
  let vs :=
    match velocities s !! i with
    | Some _ =>
        <[i := Vector3.new (sin phi * cos theta * speed)
                           (sin phi * sin theta * speed)
                           (cos phi * speed)]> (velocities s)
    | None => velocities s
    end in
  ret (mkStardust ps vs (<[i := 1.0%Q]> (life s)) (count s) (needsUpdate s)).

(** [for (let i = 0; i < this.count && spawned < amount; i++)], from index
    [i] with [n] indices left below [count]. *)
Fixpoint spawn_loop (n i spawned amount : nat) (position : Vector3.t) (s : t)
  : Rand t :=
  match n with
  | O => ret s
  | S n' =>
      if (spawned <? amount)%nat then
        if Qle_bool (lifeAt i (life s)) 0 then
          s' <- revive position i s ;;
          spawn_loop n' (S i) (S spawned) amount position s'
        else spawn_loop n' (S i) spawned amount position s
      else ret s
  end.

(** [spawn(position, amount = 30)] *)
Definition spawn (position : Vector3.t) (amount : nat) (s : t) : Rand t :=
  s' <- spawn_loop (count s) 0 0 amount position s ;;
  ret (mkStardust (positions s') (velocities s') (life s') (count s') true).

Definition spawnTrail (position : Vector3.t) (s : t) : Rand t :=
  spawn position 2 s.

(** The body of the loop of [update] at index [i]; the flag is [active].
    The slot is skipped unless [life > 0].  (A slot below [count] always
    has its three position entries; the default stands for a read that
    never misses.) *)
Definition updateSlot (i : nat) (st : t * bool) : t * bool :=
  let (s, active) := st in
  let l := lifeAt i (life s) in
  if Qle_bool l 0 then (s, active)
  else
    let l' := (l - 0.02)%Q in
    let ls := <[i := l']> (life s) in
    if Qle_bool l' 0 then
      (mkStardust (setPosition i 9999 9999 9999 (positions s)) (velocities s)
         ls (count s) (needsUpdate s), active)
    else
      match velocities s !! i with
      | Some v =>
          let at_ k := default 0 (positions s !! k) in
          let ps :=
            setPosition i (at_ (i * 3)%nat + Vector3.x v)
              (at_ (i * 3 + 1)%nat + Vector3.y v)
              (at_ (i * 3 + 2)%nat + Vector3.z v) (positions s) in
          (mkStardust ps
             (<[i := Vector3.setY v (Vector3.y v - 0.002)]> (velocities s))
             ls (count s) (needsUpdate s), true)
      | None =>
          (mkStardust (positions s) (velocities s) ls (count s)
             (needsUpdate s), true)
      end.

Fixpoint update_loop (n i : nat) (st : t * bool) : t * bool :=
  match n with
  | O => st
  | S n' => update_loop n' (S i) (updateSlot i st)
  end.

(** [update()] *)
Definition update (s : t) : t :=
  let (s', active) := update_loop (count s) 0 (s, false) in
  if active
  then mkStardust (positions s') (velocities s') (life s') (count s') true
  else s'.

(** The arrays have the sizes the constructor gave them. *)
Definition sized (s : t) : Prop :=
  length (positions s) = (count s * 3)%nat
  /\ length (velocities s) = count s
  /\ length (life s) = count s.

(** A slot with no life left is parked at (9999, 9999, 9999). *)
Definition parked (s : t) : Prop :=
  forall i, (i < count s)%nat -> Qle_bool (lifeAt i (life s)) 0 = true ->
    positionOf i (positions s) = Some (Vector3.new 9999 9999 9999).

(** How many of the [n] slots from [i] on are free ([life <= 0]), and how
    many of the slots below [j]. *)
Fixpoint freeFrom (n i : nat) (l : list Q) : nat :=
  match n with
  | O => O
  | S n' => ((if Qle_bool (lifeAt i l) 0 then 1 else 0) + freeFrom n' (S i) l)%nat
  end.

Definition freeBelow (j : nat) (l : list Q) : nat := freeFrom j 0 l.

(** Everything the pool holds for slot [j]. *)
Definition slot (j : nat) (s : t) : Q * option Vector3.t * option Vector3.t :=
  (lifeAt j (life s), positionOf j (positions s), velocities s !! j).

(** A slot just spawned at [position]: full life, at the spawn point, with
    a velocity of magnitude between 0.05 and 0.15. *)
Definition spawnedAt (position : Vector3.t)
    (sl : Q * option Vector3.t * option Vector3.t) : Prop :=
  sl.1.1 = 1.0%Q
  /\ sl.1.2 = Some position
  /\ exists v, sl.2 = Some v /\ 0.05 <= Vector3.length v < 0.15.

(** What [update] does to slot [j]: a free slot is left alone; a live one
    loses 0.02 of life and is then either parked, if that used it up, or
    moved by its velocity, which gravity then lowers by 0.002. *)
Definition decayed (j : nat) (s s' : t) : Prop :=
  let q := lifeAt j (life s) in
  if Qle_bool q 0 then slot j s' = slot j s
  else
    lifeAt j (life s') = (q - 0.02)%Q
    /\ if Qle_bool (q - 0.02) 0
       then positionOf j (positions s') = Some (Vector3.new 9999 9999 9999)
            /\ velocities s' !! j = velocities s !! j
       else exists p v,
           positionOf j (positions s) = Some p
           /\ velocities s !! j = Some v
           /\ positionOf j (positions s') = Some (Vector3.add p v)
           /\ velocities s' !! j
              = Some (Vector3.setY v (Vector3.y v - 0.002)).

(** What the page does to the pool: a burst on a click, a pair of sparks
    on a pointer move, a step on a frame. *)
Inductive Op : Type :=
| Spawn (position : Vector3.t) (amount : nat)
| SpawnTrail (position : Vector3.t)
| Update.

Definition apply (op : Op) (s : t) : Rand t :=
  match op with
  | Spawn position amount => spawn position amount s
  | SpawnTrail position => spawnTrail position s
  | Update => ret (update s)
  end.

Fixpoint run_ops (ops : list Op) (s : t) : Rand t :=
  match ops with
  | [] => ret s
  | op :: rest => s' <- apply op s ;; run_ops rest s'
  end.

End StardustSystem.

(** ** assets/data/ornamentData.ts: the default cards *)

Module OrnamentData.
Local Open Scope R_scope.

(** [generatePosition(index, total)] *)
Definition generatePosition (index total : nat) : Vector3.t :=
  let hRatio := (INR index + 0.5) / INR total in
  let y := 1.0 + hRatio * 10.0 in
  let maxR := 5.5 - (y / 13.0) * 5.0 in
  let angle := INR index * 2.39996 in
  let x := cos angle * maxR in
  let z := sin angle * maxR in
  Vector3.new x y z.

(** The callback of [Array.from({ length: 15 }, (_, i) => ...)]; a
    template literal prints a number in decimal. *)
Definition ornamentOf (i : nat) : OrnamentSystem.Ornament :=
  let pos := generatePosition i 15 in
  OrnamentSystem.mkOrnament
    ("ornament_" +:+ pretty (i + 1)%nat)
    "https://nie1037-oss.oss-cn-hangzhou.aliyuncs.com/default-product.jpg"
    ("Memory " +:+ pretty (i + 1)%nat)
    "Click to upload your photo" pos 0.3.

Definition ornamentImages : list OrnamentSystem.Ornament :=
  ornamentOf <$> seq 0 15.

End OrnamentData.

(** ** stores/ornamentStore.ts *)

Module OrnamentStore.

(** A string is falsy exactly when it is empty. *)
Definition truthy (s : string) : bool :=
  match s with
  | EmptyString => false
  | String _ _ => true
  end.

(** The store: the default cards and the [Map] of uploaded images by card
    id. *)
Record t : Type := mkStore
  { ornaments : list OrnamentSystem.Ornament
  ; customImages : gmap string string }.

Definition useOrnamentStore : t := mkStore OrnamentData.ornamentImages empty.

Definition updateOrnamentImage (id base64 : string) (s : t) : t :=
  mkStore (ornaments s) (<[id := base64]> (customImages s)).

(** [customImages.value.get(id) || defaultSrc] *)
Definition getOrnamentSrc (id defaultSrc : string) (s : t) : string :=
  match customImages s !! id with
  | Some v => if truthy v then v else defaultSrc
  | None => defaultSrc
  end.

End OrnamentStore.

(** ** ChristmasTree.vue: uploads, pointer and clicks *)

Module Interaction.
Import Random OrnamentSystem ChristmasTree.
Local Open Scope R_scope.
Local Open Scope rand_scope.

(** [handleUploadTrigger(ornamentId)], once [init] has built the card
    system. *)
Definition handleUploadTrigger (ornamentId : string) (store : OrnamentStore.t)
    (sys : OrnamentSystem.t) : OrnamentSystem.t :=
  let src := OrnamentStore.getOrnamentSrc ornamentId EmptyString store in
  if OrnamentStore.truthy src then updateTexture ornamentId src sys else sys.

(** The objects of the scene that matter to the ray: a card, its two
    children (the frame and the hit box), the group that holds the cards,
    the hit mesh around the tree, and the scene. *)
Inductive SceneObject : Set :=
| OCard (i : nat)
| OFrame (i : nat)
| OHitBox (i : nat)
| OGroup
| OHitMesh
| OScene.

#[global] Instance SceneObject_eq_dec : EqDecision SceneObject.
Proof. solve_decision. Defined.

(** [object.parent] *)
Definition parent (o : SceneObject) : option SceneObject :=
  match o with
  | OCard _ => Some OGroup
  | OFrame i => Some (OCard i)
  | OHitBox i => Some (OCard i)
  | OGroup => Some OScene
  | OHitMesh => Some OScene
  | OScene => None
  end.

(** How many ancestors an object has. *)
Definition depth (o : SceneObject) : nat :=
  match o with
  | OCard _ => 2
  | OFrame _ => 3
  | OHitBox _ => 3
  | OGroup => 1
  | OHitMesh => 1
  | OScene => 0
  end.

(** [object.userData.isOrnament], absent (falsy) on the objects whose
    [userData] nobody wrote. *)
Definition isOrnamentOf (cards : list Mesh) (o : SceneObject) : bool :=
  match o with
  | OCard i => from_option (fun m => isOrnament (userData m)) false (cards !! i)
  | OHitBox i =>
      from_option (fun m => hitIsOrnament (hitBox m)) false (cards !! i)
  | _ => false
  end.

(** [object.userData.parent], written on hit boxes only. *)
Definition userDataParent (o : SceneObject) : option SceneObject :=
  match o with
  | OHitBox i => Some (OCard i)
  | _ => None
  end.

(** [object.position]: a card is where the card system put it, its
    children sit at their local offsets, the hit mesh at height 5.5. *)
Definition positionOfObject (cards : list Mesh) (o : SceneObject)
  : Vector3.t :=
  match o with
  | OCard i => from_option meshPosition Vector3.zero (cards !! i)
  | OFrame i =>
      from_option (fun m => Vector3.new 0 0 (frameZ (frame m))) Vector3.zero
        (cards !! i)
  | OHitMesh => Vector3.new 0 5.5 0
  | _ => Vector3.zero
  end.

(** The [while (target)] walk of [animate]: up the parents until an
    object flagged [isOrnament], or the root.  [fuel] bounds the steps;
    [depth target] is never exceeded. *)
Fixpoint findOrnament (fuel : nat) (cards : list Mesh) (target : SceneObject)
  : SceneObject * bool :=
  if isOrnamentOf cards target then (target, true)
  else
    match fuel, parent target with
    | S fuel', Some p => findOrnament fuel' cards p
    | _, _ => (target, false)
    end.

(** What the pointer code of [animate] and [onClick] keeps between
    frames; [autoRotate] is [controls.autoRotate]. *)
Record Pointer : Type := mkPointer
  { hoveredObject : option SceneObject
  ; mouse3D : option Vector3.t
  ; cursor : string
  ; autoRotate : bool }.

(** The part of [animate] between the easing of the dispersion and the
    particle update.  [current] is [dispersionState.current] after the
    easing, [autoRotateSetting] is [autoRotate.value], [intersects] the
    hits of the ray, nearest first, each with its point. *)
Definition hover (a : App) (current : Q) (autoRotateSetting : bool)
    (intersects : list (SceneObject * Vector3.t)) (p : Pointer) : Pointer :=
  let cards := getObjects (ornamentSystem a) in
  let p1 :=
    if Qlt_le_dec 0.1 current
    then mkPointer (hoveredObject p) (mouse3D p) (cursor p) false
    else
      match hoveredObject p, selectedOrnament a with
      | None, None =>
          mkPointer (hoveredObject p) (mouse3D p) (cursor p) autoRotateSetting
      | _, _ => p
      end in
  match intersects with
  | (object, point) :: _ =>
      let '(target, isOrn) := findOrnament (depth object) cards object in
      if isOrn then
        mkPointer (Some (default target (userDataParent target)))
          (mouse3D p1) "pointer" false
      else if decide (object = OHitMesh) then
        mkPointer (Some OHitMesh) (Some point) EmptyString autoRotateSetting
      else
        mkPointer (Some object) (mouse3D p1) (cursor p1) (autoRotate p1)
  | [] => mkPointer None None EmptyString true
  end.

(** What [raycaster.intersectObjects([...getObjects(), hitMesh], true)]
    can return: a card of the system, one of its children, or the hit
    mesh. *)
Definition interactive (cards : list Mesh) (o : SceneObject) : bool :=
  match o with
  | OCard i | OFrame i | OHitBox i => bool_decide (i < length cards)%nat
  | OHitMesh => true
  | OGroup | OScene => false
  end.

(** The object [handleOrnamentClick] receives. *)
Definition asObject3D (o : SceneObject) : option Object3D :=
  match o with
  | OCard i => Some (Card i)
  | OHitBox i => Some (HitBoxOf i)
  | _ => None
  end.

(** [onClick]; [spawn] is called with its default amount, 30. *)
Definition onClick (p : Pointer) (st : App * StardustSystem.t)
  : Rand (App * StardustSystem.t) :=
  let (a, dust) := st in
  let cards := getObjects (ornamentSystem a) in
  if viewerVisible a then ret st
  else
    match hoveredObject p with
    | Some h =>
        if isOrnamentOf cards h then
          dust' <- StardustSystem.spawn (positionOfObject cards h) 30 dust ;;
          ret (from_option (fun o => handleOrnamentClick o a) a (asObject3D h),
               dust')
        else
          match decide (h = OHitMesh), mouse3D p with
          | left _, Some m =>
              dust' <- StardustSystem.spawn m 30 dust ;;
              ret (a, dust')
          | _, _ => ret st
          end
    | None => ret st
    end.

End Interaction.

(** ** AudioSystem.ts *)

Module AudioSystem.

(** What the class asks of its [HTMLAudioElement]. *)
Inductive AudioCall : Type :=
| CallPlay
| CallPause
| SetLoop (b : bool)
| SetVolume (v : Q)
| SetSrc (s : string).

(** The element is kept as the list of requests made to it, oldest first;
    [pendingPlays] counts the promises of [audio.play()] that have not
    settled yet. *)
Record t : Type := mkAudio
  { calls : list AudioCall
  ; isPlaying : bool
  ; pendingPlays : nat }.

(** [constructor()], with the values of [AppConfig.audio]. *)
Definition constructor : t :=
  mkAudio [SetLoop true; SetVolume 0.5%Q] false 0.

(** [play()]: the flag is written by the [then] callback, which runs only
    once the promise has resolved, never during the call. *)
Definition play (s : t) : t :=
  mkAudio (calls s ++ [CallPlay]) (isPlaying s) (S (pendingPlays s)).

(** A pending promise of [audio.play()] resolves, or rejects (the
    [catch] only logs a warning). *)
Definition playResolved (s : t) : t :=
  match pendingPlays s with
  | O => s
  | S n => mkAudio (calls s) true n
  end.

Definition playRejected (s : t) : t :=
  mkAudio (calls s) (isPlaying s) (pred (pendingPlays s)).

Definition pause (s : t) : t :=
  mkAudio (calls s ++ [CallPause]) false (pendingPlays s).

Definition toggle (s : t) : t * bool :=
  let s' := if isPlaying s then pause s else play s in
  (s', isPlaying s').

Definition setVolume (volume : Q) (s : t) : t :=
  mkAudio (calls s ++ [SetVolume (Qmax 0 (Qmin 1 volume))]) (isPlaying s)
    (pendingPlays s).

Definition setSource (src : string) (s : t) : t :=
  let wasPlaying := isPlaying s in
  let s1 := mkAudio (calls s ++ [SetSrc src]) (isPlaying s) (pendingPlays s) in
  if wasPlaying then play s1 else s1.

(** The calls of a client and the settlements of the promises, in any
    order; the results of the [toggle] calls are collected. *)
Inductive Op : Type :=
| Play
| Pause
| Toggle
| Volume (v : Q)
| Source (s : string)
| Resolved
| Rejected.

Definition apply (op : Op) (st : t * list bool) : t * list bool :=
  let (s, results) := st in
  match op with
  | Play => (play s, results)
  | Pause => (pause s, results)
  | Toggle => let (s', r) := toggle s in (s', results ++ [r])
  | Volume v => (setVolume v s, results)
  | Source src => (setSource src s, results)
  | Resolved => (playResolved s, results)
  | Rejected => (playRejected s, results)
  end.

Definition run_ops (ops : list Op) (st : t * list bool) : t * list bool :=
  fold_left (fun st op => apply op st) ops st.

(** A volume request within the range of the element. *)
Definition volumeInRange (c : AudioCall) : Prop :=
  match c with
  | SetVolume v => (0 <= v <= 1)%Q
  | _ => True
  end.

End AudioSystem.

(** ** ChristmasTree.vue: the dispersion pair *)

Module Dispersion.
Local Open Scope Q_scope.

(** [const dispersionState = { current: 0, target: 0 }] *)
Record DispersionState : Set := mkDispersion
  { current : Q
  ; target  : Q }.

Definition dispersionState : DispersionState :=
  {| current := 0; target := 0 |}.

(** [handleControlUpdate]: the control panel writes the target directly. *)
Definition handleControlUpdate (dispersion : Q) (s : DispersionState)
  : DispersionState :=
  {| current := current s; target := dispersion |}.

(** [onWheel]: [delta = event.deltaY * 0.001], [target += delta], then
    [target = Math.max(0, Math.min(1.5, target))]. *)
Definition onWheel (deltaY : Q) (s : DispersionState) : DispersionState :=
  let delta := deltaY * 0.001 in
  let t := target s + delta in
  {| current := current s; target := Qmax 0 (Qmin 1.5 t) |}.

(** The dispersion line of [animate]:
    [current += (target - current) * 0.05]. *)
Definition animate (s : DispersionState) : DispersionState :=
  {| current := current s + (target s - current s) * 0.05
   ; target  := target s |}.

(** [n] animation frames in a row, with no input in between. *)
Fixpoint frames (n : nat) (s : DispersionState) : DispersionState :=
  match n with
  | O => s
  | S k => frames k (animate s)
  end.

(** A sequence of wheel events, delivered in order. *)
Definition wheels (deltas : list Q) (s : DispersionState) : DispersionState :=
  fold_left (fun st d => onWheel d st) deltas s.

(** The signed gap between [current] and [target]. *)
Definition gap (s : DispersionState) : Q := current s - target s.

(** [q] to the [n]: the contraction factor after [n] frames. *)
Fixpoint qpow (q : Q) (n : nat) : Q :=
  match n with
  | O => 1
  | S k => q * qpow q k
  end.

(** What reaches the pair while the page runs: a wheel event or an
    animation frame. *)
Inductive Event : Type :=
| Wheel (deltaY : Q)
| Frame.

Definition handle (e : Event) (s : DispersionState) : DispersionState :=
  match e with
  | Wheel deltaY => onWheel deltaY s
  | Frame => animate s
  end.

Definition run (events : list Event) (s : DispersionState)
  : DispersionState :=
  fold_left (fun st e => handle e st) events s.

End Dispersion.

(* ===================================================================== *)
(** * Properties                                                          *)
(* ===================================================================== *)

(** ** Dispersion easing and the wheel handler *)

Section DispersionFacts.
Import Dispersion.
Local Open Scope Q_scope.

Lemma target_animate s : target (animate s) = target s.
Proof. reflexivity. Qed.

Lemma target_frames n : forall s, target (frames n s) = target s.
Proof.
  induction n as [|n IH]; intros s; simpl; [reflexivity|].
  now rewrite IH.
Qed.

Lemma gap_animate s : gap (animate s) == 0.95 * gap s.
Proof. unfold gap; simpl. ring. Qed.

Lemma gap_frames n : forall s, gap (frames n s) == qpow 0.95 n * gap s.
Proof.
  induction n as [|n IH]; intros s; simpl.
  - ring.
  - rewrite IH, gap_animate. ring.
Qed.

Lemma qpow_nonneg q n : 0 <= q -> 0 <= qpow q n.
Proof.
  intros Hq; induction n as [|n IH]; simpl.
  - discriminate.
  - now apply Qmult_le_0_compat.
Qed.

Lemma qpow_095_step n : qpow 0.95 (S n) <= qpow 0.95 n.
Proof.
  simpl. assert (H : 0 <= qpow 0.95 n) by (apply qpow_nonneg; discriminate).
  Lqa.lra.
Qed.

Lemma qpow_095_antitone n m : (n <= m)%nat -> qpow 0.95 m <= qpow 0.95 n.
Proof.
  induction 1 as [|m _ IH].
  - apply Qle_refl.
  - eapply Qle_trans; [apply qpow_095_step | exact IH].
Qed.

Lemma qpow_095_90 : qpow 0.95 90 * 1.5 <= 0.015.
Proof. apply Qle_bool_imp_le. vm_compute. reflexivity. Qed.

(** C1.  One frame replaces [current] by
    [current + (target - current) * 0.05]; the distance to the target is
    multiplied by exactly 0.95 (so by 0.95^n after n frames); and with the
    target held at 1.5, from any start in [0, 1.5], every frame count from 90
    on leaves [current] within 1% of 1.5. *)
Theorem dispersion_easing_converges
    (s : DispersionState) (c : Q) (n : nat)
    (Hc : 0 <= c <= 1.5) (Hn : (90 <= n)%nat) :
  current (animate s) = current s + (target s - current s) * 0.05
  /\ target (animate s) = target s
  /\ Qabs (current (animate s) - target s)
       == 0.95 * Qabs (current s - target s)
  /\ Qabs (current (frames n s) - target s)
       == qpow 0.95 n * Qabs (current s - target s)
  /\ Qabs (current (frames n {| current := c; target := 1.5 |}) - 1.5)
       <= 0.01 * 1.5.
Proof.
  assert (Habs : forall k t, Qabs (current (frames k t) - target t)
                   == qpow 0.95 k * Qabs (current t - target t)).
  { intros k t.
    assert (E : current (frames k t) - target t == gap (frames k t)).
    { unfold gap. now rewrite target_frames. }
    rewrite E, gap_frames, Qabs_Qmult.
    rewrite (Qabs_pos (qpow 0.95 k)) by (apply qpow_nonneg; discriminate).
    reflexivity. }
  split; [reflexivity|]. split; [reflexivity|]. split; [|split].
  - assert (E : current (animate s) - target s == gap (animate s))
      by reflexivity.
    rewrite E, gap_animate, Qabs_Qmult. reflexivity.
  - apply Habs.
  - pose proof (Habs n {| current := c; target := 1.5 |}) as E.
    simpl in E. rewrite E.
    assert (Hg : Qabs (c - 1.5) <= 1.5).
    { apply Qabs_Qle_condition. destruct Hc; split; Lqa.lra. }
    assert (Hp : qpow 0.95 n <= qpow 0.95 90) by now apply qpow_095_antitone.
    assert (H0 : 0 <= qpow 0.95 n) by (apply qpow_nonneg; discriminate).
    assert (Ha : 0 <= Qabs (c - 1.5)) by apply Qabs_nonneg.
    pose proof qpow_095_90 as H90.
    apply Qle_trans with (qpow 0.95 n * 1.5); [|Lqa.lra].
    rewrite !(Qmult_comm (qpow 0.95 n)).
    apply Qmult_le_compat_r; assumption.
Qed.

(** C1 at the start value 0, after exactly 90 frames. *)
Lemma dispersion_easing_converges_witness :
  Qabs (current (frames 90 {| current := 0; target := 1.5 |}) - 1.5)
    <= 0.01 * 1.5.
Proof.
  apply (dispersion_easing_converges dispersionState 0 90).
  - split; discriminate.
  - lia.
Defined.

Lemma clamp_range t : 0 <= Qmax 0 (Qmin 1.5 t) <= 1.5.
Proof.
  split.
  - apply Q.le_max_l.
  - apply Q.max_lub; [discriminate | apply Q.le_min_l].
Qed.

Lemma wheels_cons d ds s : wheels (d :: ds) s = wheels ds (onWheel d s).
Proof. reflexivity. Qed.

Lemma wheels_bounded ds : forall s,
  0 <= target s <= 1.5 -> 0 <= target (wheels ds s) <= 1.5.
Proof.
  induction ds as [|d ds IH]; intros s Hs; [exact Hs|].
  rewrite wheels_cons. apply IH. apply clamp_range.
Qed.

(** C2.  A wheel event sets the target to the previous target plus
    [deltaY * 0.001], clamped into [0, 1.5]; from target 0 one event with
    [deltaY = 500] gives 0.5 and ten of them give exactly 1.5; after at least
    one wheel event from any state, and after any sequence of wheel events
    from the initial state, the target lies in [0, 1.5]. *)
Theorem wheel_accumulates_and_clamps
    (s : DispersionState) (deltaY : Q) (deltas : list Q) :
  target (onWheel deltaY s)
    = Qmax 0 (Qmin 1.5 (target s + deltaY * 0.001))
  /\ current (onWheel deltaY s) = current s
  /\ 0 <= target (onWheel deltaY s) <= 1.5
  /\ target (onWheel 500 dispersionState) == 0.5
  /\ target (wheels (repeat 500 10) dispersionState) == 1.5
  /\ target (wheels (deltaY :: deltas) s) <= 1.5
  /\ target (wheels deltas dispersionState) <= 1.5.
Proof.
  repeat split; try reflexivity.
  - apply Q.le_max_l.
  - apply clamp_range.
  - rewrite wheels_cons. apply wheels_bounded. apply clamp_range.
  - apply wheels_bounded. split; discriminate.
Qed.

End DispersionFacts.

(** ** Vectors *)

(** A decimal literal over the reals is a quotient of two integers; this
    exposes it to [ring] and [field]. *)
Ltac decimals := unfold Q2R in *; cbn [Qnum Qden] in *.

Section VectorFacts.
Local Open Scope R_scope.

Lemma lengthSq_nonneg v : 0 <= Vector3.lengthSq v.
Proof. unfold Vector3.lengthSq. nra. Qed.

Lemma length_sqr v : Vector3.length v * Vector3.length v = Vector3.lengthSq v.
Proof. unfold Vector3.length. apply sqrt_sqrt, lengthSq_nonneg. Qed.

Lemma length_pos v : 0 < Vector3.lengthSq v -> 0 < Vector3.length v.
Proof. intros H. unfold Vector3.length. now apply sqrt_lt_R0. Qed.

Lemma length_unit v : Vector3.lengthSq v = 1 -> Vector3.length v = 1.
Proof. intros H. unfold Vector3.length. rewrite H. apply sqrt_1. Qed.

Lemma normalize_nonzero v :
  0 < Vector3.lengthSq v ->
  Vector3.normalize v = Vector3.multiplyScalar v (1 / Vector3.length v).
Proof.
  intros H. pose proof (length_pos v H) as Hl.
  unfold Vector3.normalize, Vector3.divideScalar.
  destruct (Req_dec_T (Vector3.length v) 0) as [E|_]; [lra | reflexivity].
Qed.

Lemma lengthSq_normalize v :
  0 < Vector3.lengthSq v -> Vector3.lengthSq (Vector3.normalize v) = 1.
Proof.
  intros H. rewrite (normalize_nonzero v H).
  pose proof (length_pos v H) as Hl. pose proof (length_sqr v) as Hs.
  unfold Vector3.multiplyScalar, Vector3.lengthSq at 1. simpl.
  unfold Vector3.lengthSq in Hs.
  set (len := Vector3.length v) in *.
  transitivity ((Vector3.x v * Vector3.x v + Vector3.y v * Vector3.y v
                 + Vector3.z v * Vector3.z v) * (1 / len * (1 / len))).
  - ring.
  - rewrite <- Hs. field. lra.
Qed.

Lemma length_normalize v :
  0 < Vector3.lengthSq v -> Vector3.length (Vector3.normalize v) = 1.
Proof. intros H. apply length_unit, lengthSq_normalize, H. Qed.

End VectorFacts.

(** ** The per-frame update of the particle engine *)

Section UpdateFacts.
Import Random ParticleSystem.
Local Open Scope R_scope.

Lemma updateAura_from_particles time : forall l i mesh,
  (updateAura_from time i l mesh).1 = List.map (updateAuraParticle time) l.
Proof.
  induction l as [|p l IH]; intros i mesh; simpl; [reflexivity|].
  specialize (IH (S i) (setMatrixAt mesh i (auraMatrix time (updateAuraParticle time p)))).
  destruct (updateAura_from time (S i) l _) as [rest' mesh']. simpl in *.
  now rewrite IH.
Qed.

(** C10.  [updateAura] replaces every aura particle by its image under
    [updateAuraParticle]: the pair (x, z) is turned by the fixed angle
    0.002 about the vertical axis, so x^2 + z^2 is unchanged, and y moves
    only by the bob term [sin(time + id) * 0.01]; nothing else of the
    particle changes. *)
Theorem aura_rotation_preserves_radius
    (time : R) (l : list ParticleData) (mesh : InstancedMesh)
    (p : ParticleData) :
  let p' := updateAuraParticle time p in
  let c := currentPosition p in
  let c' := currentPosition p' in
  (updateAura time l mesh).1 = List.map (updateAuraParticle time) l
  /\ Vector3.x c' = Vector3.x c * cos 0.002 - Vector3.z c * sin 0.002
  /\ Vector3.z c' = Vector3.x c * sin 0.002 + Vector3.z c * cos 0.002
  /\ Vector3.x c' * Vector3.x c' + Vector3.z c' * Vector3.z c'
     = Vector3.x c * Vector3.x c + Vector3.z c * Vector3.z c
  /\ Vector3.y c' = Vector3.y c + sin (time + IZR (id p)) * 0.01
  /\ p' = set_currentPosition p c'.
Proof.
  cbv zeta. split; [apply updateAura_from_particles|].
  repeat split; simpl.
  pose proof (sin2_cos2 0.002) as H. unfold Rsqr in H.
  set (s := sin 0.002) in *. set (k := cos 0.002) in *.
  set (a := Vector3.x (currentPosition p)).
  set (b := Vector3.z (currentPosition p)).
  transitivity ((a * a + b * b) * (s * s + k * k)); [ring|].
  rewrite H. ring.
Qed.

Lemma twinkleTurns_mult timeOffset twinkleSpeed :
  twinkleTurns timeOffset twinkleSpeed = timeOffset * twinkleSpeed.
Proof.
  unfold twinkleTurns, div.
  destruct (Req_dec_T twinkleSpeed 0) as [E|N]; cbv beta iota.
  - rewrite E. decimals. field.
  - decimals. field. exact N.
Qed.

(** The calls of [update], with the [isDeco] argument read off the type of
    the list. *)
Lemma update_calls time mousePos dispersion twinkleSpeed snowDensity
    snowSpeed treeDensity decorationDensity s m0 m1 m2 m3 m4 m5 m6 :
  meshes s = [m0; m1; m2; m3; m4; m5; m6] ->
  let ul := updateList time mousePos dispersion twinkleSpeed treeDensity
              decorationDensity in
  update time mousePos dispersion twinkleSpeed snowDensity snowSpeed
         treeDensity decorationDensity s
  = (r0 <- ul (foliageParticles s) m0 (isDeco_of foliage) 1.0%Q ;;
     r1 <- ul (decorationParticles s) m1 (isDeco_of decoration) 1.0%Q ;;
     r2 <- ul (trunkParticles s) m2 (isDeco_of trunk) 1.0%Q ;;
     r5 <- ul (giftParticles s) m5 (isDeco_of gift) 1.0%Q ;;
     r6 <- ul (candyParticles s) m6 (isDeco_of candy) 1.0%Q ;;
     r3 <- updateSnow time snowDensity snowSpeed (snowParticles s) m3 ;;
     let r4 := updateAura time (auraParticles s) m4 in
     ret (Some (mkSystem [r0.2; r1.2; r2.2; r3.2; r4.2; r5.2; r6.2]
                  (particles s) r0.1 r1.1 r2.1 r3.1 r4.1 r5.1 r6.1)))%rand.
Proof. intros E. unfold update. rewrite E. reflexivity. Qed.


(** The flare factor over a layer: strictly decreasing in the progress
    through the layer, and between 1.0 (excluded, at the top) and 1.4 (at
    the bottom). *)
Lemma flare_decreasing a b : a < b -> flare b < flare a.
Proof. unfold flare. lra. Qed.

Lemma flare_bounds a : 0 <= a < 1 -> 1.0 < flare a <= 1.4.
Proof. unfold flare. lra. Qed.

Lemma Math_pow_zero e : Math_pow 0 e = 0.
Proof.
  unfold Math_pow. destruct (Req_dec_T 0 0) as [_|N]; [reflexivity|].
  now contradiction N.
Qed.

(** C6.  At the bottom of a layer (first draw 0: height 0, residue 0) the
    flare factor that multiplies the taper bound is 1.4, where the comment
    on that line and the specification say 1.0; towards the top of a layer
    it tends to 1.0, where they say 0.6. *)
Theorem flare_at_layer_bottom :
  layerResidue 0 = 0
  /\ flare (layerResidue 0) = 1.4
  /\ baseR 0 = currentMaxRadius 0 * 1.4
  /\ flare 1 = 1.0.
Proof.
  assert (E : layerResidue 0 = 0).
  { unfold layerResidue, layerIndex. rewrite Math_pow_zero, Rmult_0_l.
    rewrite (Zfloor_eq 0 0) by (simpl; lra). simpl. ring. }
  unfold baseR. rewrite !E. unfold flare. repeat split; lra.
Qed.

(** *** Density gating in [updateList] *)

Lemma visibleCount_le_length len d m :
  (visibleCount len d m <= Z.of_nat len)%Z.
Proof.
  unfold visibleCount.
  rewrite <- (Qfloor_Z (Z.of_nat len)) at 2. apply Qfloor_resp_le.
  assert (H1 : (Qmin 1.0 (d * m) <= 1.0)%Q) by apply Q.le_min_l.
  assert (H0 : (0 <= inject_Z (Z.of_nat len))%Q).
  { change 0%Q with (inject_Z 0). rewrite <- Zle_Qle. lia. }
  set (q := Qmin 1.0 (d * m)) in *. set (n := inject_Z (Z.of_nat len)) in *.
  Lqa.nra.
Qed.

Lemma visibleCount_mono len d1 d2 :
  (d1 <= d2)%Q -> (visibleCount len d1 1.0 <= visibleCount len d2 1.0)%Z.
Proof.
  intros H. unfold visibleCount. apply Qfloor_resp_le.
  assert (H0 : (0 <= inject_Z (Z.of_nat len))%Q).
  { change 0%Q with (inject_Z 0). rewrite <- Zle_Qle. lia. }
  assert (Hm : (Qmin 1.0 (d1 * 1.0) <= Qmin 1.0 (d2 * 1.0))%Q).
  { apply Q.min_le_compat_l. Lqa.lra. }
  set (q1 := Qmin 1.0 (d1 * 1.0)) in *. set (q2 := Qmin 1.0 (d2 * 1.0)) in *.
  set (n := inject_Z (Z.of_nat len)) in *.
  Lqa.nra.
Qed.

Lemma visibleCount_clamped len d :
  visibleCount len d 1.0
  = Qfloor (inject_Z (Z.of_nat len) * Qmin 1 d).
Proof.
  unfold visibleCount. apply Qfloor_comp.
  assert (E : (d * 1.0 == d)%Q) by Lqa.lra.
  assert (E1 : (1.0 == 1)%Q) by reflexivity.
  rewrite E, E1. reflexivity.
Qed.

Lemma hideRemaining_length n : forall i mesh,
  length (instanceMatrix (hideRemaining n i mesh))
  = length (instanceMatrix mesh).
Proof.
  induction n as [|n IH]; intros i mesh; simpl; [reflexivity|].
  rewrite IH. simpl. apply length_insert.
Qed.

Lemma hideRemaining_outside n : forall i mesh j,
  (j < i \/ i + n <= j)%nat ->
  instanceMatrix (hideRemaining n i mesh) !! j = instanceMatrix mesh !! j.
Proof.
  induction n as [|n IH]; intros i mesh j Hj; simpl; [reflexivity|].
  rewrite IH by lia. simpl. apply list_lookup_insert_ne. lia.
Qed.

Lemma hideRemaining_inside n : forall i mesh j,
  (i <= j < i + n)%nat -> (j < length (instanceMatrix mesh))%nat ->
  instanceMatrix (hideRemaining n i mesh) !! j = Some (MakeScale 0 0 0).
Proof.
  induction n as [|n IH]; intros i mesh j Hj Hl; simpl; [lia|].
  destruct (decide (j = i)) as [->|Hne].
  - rewrite hideRemaining_outside by lia. simpl.
    now apply list_lookup_insert_eq.
  - apply IH; [lia|]. simpl. now rewrite length_insert.
Qed.

Section FirstLoop.
Variables (time : R) (mousePos : option Vector3.t)
          (dispersion twinkleSpeed : R) (isDeco : bool) (src : nat -> R).

(** The body of the first loop on particle [p], reading draw number [k]. *)
Let upd (p : ParticleData) (k : nat) : ParticleData * Matrix4 :=
  (updateParticle time mousePos dispersion twinkleSpeed isDeco p src k).1.

Let slot := updateSlot time mousePos dispersion twinkleSpeed isDeco.

Lemma updateSlot_defined i l mesh p k :
  l !! i = Some p ->
  slot i (l, mesh) src k
  = ((<[i := (upd p k).1]> l,
      setColorAt (setMatrixAt mesh i (upd p k).2) i (color (upd p k).1)),
     S k).
Proof. intros H. unfold slot, updateSlot. rewrite H. reflexivity. Qed.

Lemma first_loop n : forall i l mesh k,
  (i + n <= length l)%nat ->
  let r := for_loop n i slot (l, mesh) src k in
  length r.1.1 = length l
  /\ length (instanceMatrix r.1.2) = length (instanceMatrix mesh)
  /\ (forall j, (j < i \/ i + n <= j)%nat ->
        r.1.1 !! j = l !! j
        /\ instanceMatrix r.1.2 !! j = instanceMatrix mesh !! j)
  /\ (forall j p, (i <= j < i + n)%nat -> l !! j = Some p ->
        (j < length (instanceMatrix mesh))%nat ->
        r.1.1 !! j = Some (upd p (k + (j - i))).1
        /\ instanceMatrix r.1.2 !! j = Some (upd p (k + (j - i))).2).
Proof.
  induction n as [|n IH]; intros i l mesh k Hn; cbv zeta.
  - simpl. repeat split; intros; lia.
  - destruct (lookup_lt_is_Some_2 l i ltac:(lia)) as [p Hp].
    change (for_loop (S n) i slot (l, mesh) src k)
      with (let (s', k') := slot i (l, mesh) src k in
            for_loop n (S i) slot s' src k').
    rewrite (updateSlot_defined i l mesh p k Hp).
    set (l1 := <[i := (upd p k).1]> l).
    set (mesh1 := setColorAt (setMatrixAt mesh i (upd p k).2) i
                    (color (upd p k).1)).
    assert (Hl1 : length l1 = length l) by apply length_insert.
    assert (Hm1 : length (instanceMatrix mesh1) = length (instanceMatrix mesh))
      by (simpl; apply length_insert).
    specialize (IH (S i) l1 mesh1 (S k) ltac:(lia)). cbv zeta in IH.
    destruct IH as (IHl & IHm & IHout & IHin).
    split; [congruence|]. split; [congruence|]. split.
    + intros j Hj. destruct (IHout j ltac:(lia)) as [E1 E2].
      rewrite E1, E2. unfold l1, mesh1. simpl.
      split; apply list_lookup_insert_ne; lia.
    + intros j q Hj Hq Hlen. destruct (decide (j = i)) as [->|Hne].
      * destruct (IHout i ltac:(lia)) as [E1 E2]. rewrite E1, E2.
        assert (q = p) as -> by congruence.
        replace (k + (i - i))%nat with k by lia.
        unfold l1, mesh1. simpl.
        split; apply list_lookup_insert_eq; lia.
      * assert (Hq1 : l1 !! j = Some q).
        { unfold l1. rewrite list_lookup_insert_ne by lia. exact Hq. }
        destruct (IHin j q ltac:(lia) Hq1 ltac:(lia)) as [E1 E2].
        replace (S k + (j - S i))%nat with (k + (j - i))%nat in * by lia.
        now split.
Qed.

End FirstLoop.

Lemma updateList_result time mousePos dispersion twinkleSpeed treeDensity
    decorationDensity (l : list ParticleData) mesh (isDeco : bool) m src k :
  let shown :=
    Z.to_nat (visibleCount (length l)
                (if isDeco then decorationDensity else treeDensity) m) in
  let st :=
    (for_loop shown 0
       (updateSlot time mousePos dispersion twinkleSpeed isDeco)
       (l, mesh) src k).1 in
  (updateList time mousePos dispersion twinkleSpeed treeDensity
     decorationDensity l mesh isDeco m src k).1
  = (st.1, hideRemaining (length l - shown) shown st.2).
Proof.
  cbv zeta. unfold updateList, bind.
  destruct (for_loop _ 0 _ (l, mesh) src k) as [[l' mesh'] k'].
  reflexivity.
Qed.

Lemma seq_prefix n1 n2 : (n1 <= n2)%nat -> seq 0 n1 `prefix_of` seq 0 n2.
Proof.
  intros H. exists (seq n1 (n2 - n1)%nat).
  replace n2 with (n1 + (n2 - n1))%nat at 1 by lia.
  rewrite seq_app. reflexivity.
Qed.

Lemma filter_below (F : Z) (len : nat) :
  filter (fun j => (Z.of_nat j < F)%Z) (seq 0 len)
  = seq 0 (Nat.min len (Z.to_nat F)).
Proof.
  induction len as [|n IH]; [reflexivity|].
  rewrite seq_S, filter_app, IH. simpl (0 + n)%nat.
  rewrite filter_cons, filter_nil.
  destruct (decide (Z.of_nat n < F)%Z) as [H|H].
  - replace (Nat.min n (Z.to_nat F)) with n by lia.
    replace (Nat.min (S n) (Z.to_nat F)) with (S n) by lia.
    now rewrite seq_S.
  - replace (Nat.min (S n) (Z.to_nat F)) with (Nat.min n (Z.to_nat F)) by lia.
    now rewrite app_nil_r.
Qed.

(** The clamp at 1 in the loop bound only cuts indices that the list does
    not have: the bound is the smaller of the list length and
    [floor(len * d)]. *)
Lemma visibleCount_min len d :
  Z.to_nat (visibleCount len d 1.0)
  = Nat.min len (Z.to_nat (Qfloor (inject_Z (Z.of_nat len) * d))).
Proof.
  rewrite visibleCount_clamped.
  assert (H0 : (0 <= inject_Z (Z.of_nat len))%Q).
  { change 0%Q with (inject_Z 0). rewrite <- Zle_Qle. lia. }
  set (n := inject_Z (Z.of_nat len)) in *.
  destruct (Qlt_le_dec 1 d) as [Hgt|Hle].
  - assert (Em : (Qmin 1 d == 1)%Q) by (apply Q.min_l; Lqa.lra).
    assert (E : (n * Qmin 1 d == n)%Q) by (rewrite Em; ring).
    rewrite (Qfloor_comp _ _ E). unfold n at 1. rewrite Qfloor_Z.
    assert (Hge : (Z.of_nat len <= Qfloor (n * d))%Z).
    { rewrite <- (Qfloor_Z (Z.of_nat len)) at 1. apply Qfloor_resp_le.
      fold n. Lqa.nra. }
    lia.
  - assert (Em : (Qmin 1 d == d)%Q) by (apply Q.min_r; exact Hle).
    assert (E : (n * Qmin 1 d == n * d)%Q) by (rewrite Em; ring).
    rewrite (Qfloor_comp _ _ E).
    assert (Hle' : (Qfloor (n * d) <= Z.of_nat len)%Z).
    { rewrite <- (Qfloor_Z (Z.of_nat len)). apply Qfloor_resp_le.
      fold n. Lqa.nra. }
    lia.
Qed.

Lemma visibleIndices_seq len d :
  visibleIndices len d = seq 0 (Z.to_nat (visibleCount len d 1.0)).
Proof.
  unfold visibleIndices. now rewrite filter_below, visibleCount_min.
Qed.


End UpdateFacts.


(** ** The cards *)

Section CardFacts.
Import OrnamentSystem.
Local Open Scope R_scope.

Lemma updateCard_expanded time dispersion i m :
  isExpanded (userData m) = true -> updateCard time dispersion i m = m.
Proof. intros H. unfold updateCard. now rewrite H. Qed.

Lemma update_expanded time dispersion (s : OrnamentSystem.t) i m :
  ornaments s !! i = Some m -> isExpanded (userData m) = true ->
  ornaments (update time dispersion s) !! i = Some m.
Proof.
  intros Hi He. unfold update. simpl.
  rewrite list_lookup_imap, Hi. simpl.
  now rewrite updateCard_expanded.
Qed.

(** C9.  A card flagged [isExpanded] is left as it is by the per-frame
    card update, whatever the time and the dispersion: its position,
    rotation and scale (and everything else) are the same after one frame
    and after any run of frames in which nothing else clears the flag. *)
Theorem expanded_card_frozen
    (time dispersion : R) (frames : list (R * R))
    (s : OrnamentSystem.t) (i : nat) (m : Mesh)
    (Hi : ornaments s !! i = Some m)
    (He : isExpanded (userData m) = true) :
  updateCard time dispersion i m = m
  /\ ornaments (update time dispersion s) !! i = Some m
  /\ meshPosition <$> ornaments (update time dispersion s) !! i
     = Some (meshPosition m)
  /\ meshRotation <$> ornaments (update time dispersion s) !! i
     = Some (meshRotation m)
  /\ meshScale <$> ornaments (update time dispersion s) !! i
     = Some (meshScale m)
  /\ ornaments (updates frames s) !! i = Some m.
Proof.
  pose proof (update_expanded time dispersion s i m Hi He) as U.
  split; [now apply updateCard_expanded|].
  split; [exact U|]. rewrite U. repeat split.
  revert s Hi U. induction frames as [|f frames IH]; intros s Hi U.
  - exact Hi.
  - simpl. apply IH.
    + now apply update_expanded.
    + apply update_expanded; [now apply update_expanded | exact He].
Qed.

(** C8.  [updateTexture] with an id that no card carries changes nothing.
    With the id of a card, the first such card, nothing changes at once, a
    load is started, and when it delivers its image only that card's
    material changes: every other card, and that card's data (its id
    included), position, rotation, scale, frame and hit box are as
    before.  A load that fails changes no card. *)
Theorem updateTexture_swaps_only_the_image
    (cardId imageRef : string) (texture : Texture) (s : OrnamentSystem.t) :
  match list_find (fun o => id (data (userData o)) = cardId) (ornaments s)
  with
  | None =>
      Forall (fun o => id (data (userData o)) <> cardId) (ornaments s)
      /\ updateTexture cardId imageRef s = s
  | Some (i, m) =>
      let s1 := updateTexture cardId imageRef s in
      let s2 := loadCompletes (length (loading s)) texture s1 in
      let m' := set_material m
                  (mkMaterial (Some (mkTexture (image texture) "srgb")) true)
      in
      ornaments s !! i = Some m
      /\ id (data (userData m)) = cardId
      /\ ornaments s1 = ornaments s
      /\ loading s1 = loading s ++ [(i, imageRef)]
      /\ ornaments (loadFails (length (loading s)) s1) = ornaments s
      /\ ornaments s2 = <[i := m']> (ornaments s)
      /\ (forall j, ornaments s2 !! j
                    = if decide (j = i) then Some m' else ornaments s !! j)
      /\ map (material m') = Some (mkTexture (image texture) "srgb")
      /\ userData m' = userData m
      /\ meshPosition m' = meshPosition m
      /\ meshRotation m' = meshRotation m
      /\ meshScale m' = meshScale m
      /\ frame m' = frame m
      /\ hitBox m' = hitBox m
  end.
Proof.
  destruct (list_find _ (ornaments s)) as [[i m]|] eqn:F.
  - assert (E1 : updateTexture cardId imageRef s
                 = mkSystem (ornaments s) (loading s ++ [(i, imageRef)])).
    { unfold updateTexture. rewrite F. reflexivity. }
    apply list_find_Some in F as (Hi & Hid & _).
    assert (Hlt : (i < length (ornaments s))%nat)
      by (eapply lookup_lt_Some; eassumption).
    cbv zeta. rewrite E1.
    assert (E2 : ornaments
                   (loadCompletes (length (loading s)) texture
                      (mkSystem (ornaments s) (loading s ++ [(i, imageRef)])))
                 = <[i := set_material m
                            (mkMaterial
                               (Some (mkTexture (image texture) "srgb")) true)]>
                     (ornaments s)).
    { unfold loadCompletes. simpl.
      rewrite lookup_app_r by lia. rewrite Nat.sub_diag. simpl.
      unfold onLoad. rewrite Hi. reflexivity. }
    split; [exact Hi|]. split; [exact Hid|].
    split; [reflexivity|]. split; [reflexivity|]. split; [reflexivity|].
    split; [exact E2|]. split; [|repeat split].
    intros j. rewrite E2. destruct (decide (j = i)) as [->|Hne].
    + now apply list_lookup_insert_eq.
    + apply list_lookup_insert_ne. congruence.
  - split.
    + apply list_find_None in F. exact F.
    + unfold updateTexture. now rewrite F.
Qed.

End CardFacts.

(** C9 on one expanded card at (3, 5, 1), over one frame and two more. *)
Lemma expanded_card_frozen_witness :
  let m := OrnamentSystem.cardAt OrnamentSystem.sampleOrnament
             (Vector3.new 3 5 1)%R true in
  let s := OrnamentSystem.mkSystem [m] [] in
  OrnamentSystem.ornaments (OrnamentSystem.update 7%R 1.5%R s) !! 0%nat
  = Some m.
Proof.
  intros m s.
  exact (proj1 (proj2 (expanded_card_frozen 7%R 1.5%R
                         [(8%R, 1.5%R); (9%R, 0%R)] s 0%nat m
                         eq_refl eq_refl))).
Defined.

(** ** Card selection and close *)

Section SelectionFacts.
Import OrnamentSystem ChristmasTree.
Local Open Scope R_scope.

Lemma normalize_y_zero a c :
  Vector3.y (Vector3.normalize (Vector3.new a 0 c)) = 0.
Proof.
  unfold Vector3.normalize, Vector3.divideScalar, Vector3.multiplyScalar.
  simpl. ring.
Qed.

Lemma distance_pulled op :
  0 < Vector3.lengthSq op ->
  Vector3.distanceTo op
    (Vector3.add op (Vector3.multiplyScalar (Vector3.normalize op) 2)) = 2.
Proof.
  intros H. pose proof (lengthSq_normalize op H) as N.
  unfold Vector3.distanceTo, Vector3.length.
  set (n := Vector3.normalize op) in *. clearbody n.
  replace (Vector3.lengthSq _) with (2 * 2).
  - apply sqrt_square. lra.
  - unfold Vector3.lengthSq in *. simpl.
    transitivity
      (4 * (Vector3.x n * Vector3.x n + Vector3.y n * Vector3.y n
            + Vector3.z n * Vector3.z n)); [rewrite N; ring | ring].
Qed.

Lemma complete_at tw (a : App) m :
  ornaments (ornamentSystem a) !! target tw = Some m ->
  complete tw a
  = let m1 := applyEnd tw m in
    let m2 := if onComplete tw then set_isExpanded m1 true else m1 in
    mkApp (OrnamentSystem.mkSystem
             (<[target tw := m2]> (ornaments (ornamentSystem a)))
             (loading (ornamentSystem a)))
          (tweens a)
          (if onComplete tw then true else viewerVisible a)
          (if onComplete tw then Some (userData m2) else selectedOrnament a).
Proof. intros H. unfold complete. rewrite H. reflexivity. Qed.

Lemma returnTweens_none (l : list Mesh) :
  Forall (fun m => isExpanded (userData m) = false) l ->
  forall g : nat -> nat,
    concat (imap (fun j => returnTweens (g j)) l) = [].
Proof.
  induction 1 as [|m l Hm _ IH]; intros g; [reflexivity|].
  rewrite imap_cons. simpl. unfold returnTweens at 1. rewrite Hm. simpl.
  apply (IH (fun j => g (S j))).
Qed.

Lemma returnTweens_one (l : list Mesh) : forall i c k,
  l !! i = Some c ->
  Forall (fun m => isExpanded (userData m) = false) (delete i l) ->
  concat (imap (fun j => returnTweens (k + j)) l) = returnTweens (k + i) c.
Proof.
  induction l as [|m l IH]; intros i c k Hi Hrest; [discriminate|].
  rewrite imap_cons. simpl. destruct i as [|i]; simpl in *.
  - injection Hi as ->.
    change (imap ((fun j => returnTweens (k + j)) ∘ S) l)
      with (imap (fun j => returnTweens (k + S j)) l).
    rewrite (returnTweens_none l Hrest (fun j => (k + S j)%nat)).
    now rewrite app_nil_r.
  - apply Forall_cons in Hrest as [Hm Hrest].
    unfold returnTweens at 1. rewrite Hm. simpl.
    replace (k + S i)%nat with (S k + i)%nat by lia.
    rewrite <- (IH i c (S k) Hi Hrest).
    f_equal. apply imap_ext. intros j x _. simpl. f_equal. lia.
Qed.

Lemma clear_unexpanded (l : list Mesh) :
  Forall (fun m => isExpanded (userData m) = false) l ->
  (fun m => if isExpanded (userData m) then set_isExpanded m false else m)
    <$> l = l.
Proof.
  induction 1 as [|m l Hm _ IH]; [reflexivity|].
  rewrite fmap_cons, IH, Hm. reflexivity.
Qed.

Lemma delete_insert_same {A} (l : list A) i x :
  delete i (<[i := x]> l) = delete i l.
Proof.
  revert i. induction l as [|y l IH]; intros [|i]; simpl; try reflexivity.
  now rewrite IH.
Qed.

(** C5, as worded, fails: for the card at (3, 5, 1) the position tween
    does not end at (3, 5, 1) moved 2 units along the normalized (3, 0, 1);
    its end is above height 5. *)
Lemma card_click_counterexample :
  let card := cardAt sampleOrnament (Vector3.new 3 5 1) false in
  to <$> head (tweens (handleOrnamentClick (Card 0) (idle [card])))
  <> Some (Vector3.add (Vector3.new 3 5 1)
             (Vector3.multiplyScalar
                (Vector3.normalize (Vector3.new 3 0 1)) 2)).
Proof.
  intros card E.
  change (to <$> head (tweens (handleOrnamentClick (Card 0) (idle [card]))))
    with (Some (Vector3.add (Vector3.new 3 5 1)
                  (Vector3.multiplyScalar
                     (Vector3.normalize (Vector3.new 3 5 1)) 2.0))) in E.
  apply (inj Some) in E. apply (f_equal Vector3.y) in E.
  unfold Vector3.add, Vector3.multiplyScalar in E. cbn [Vector3.y] in E.
  rewrite normalize_y_zero in E.
  assert (Hp : 0 < Vector3.lengthSq (Vector3.new 3 5 1))
    by (unfold Vector3.lengthSq; simpl; lra).
  rewrite (normalize_nonzero _ Hp) in E.
  unfold Vector3.multiplyScalar in E. cbn [Vector3.y] in E.
  pose proof (length_pos _ Hp) as Hl.
  assert (Hi : 0 < 1 / Vector3.length (Vector3.new 3 5 1))
    by (apply Rdiv_lt_0_compat; lra).
  lra.
Qed.

(** C5 (amended).  With no tween running and no card expanded, a click on
    a card (or on its hit box) whose [originalPosition] is not the origin
    starts a position tween ending at [originalPosition] moved 2 units
    along the normalized [originalPosition] itself, and a scale tween
    ending at [originalScale * 1.5]; when they end the card is there, at
    that scale, flagged [isExpanded], and the viewer is shown.  The close
    signal then starts tweens back to the stored [originalPosition] and
    [originalScale] and clears the flag; when they end the card is back at
    its original position and scale. *)
Theorem card_click_and_close
    (a : App) (i : nat) (card : Mesh)
    (Hcard : ornaments (ornamentSystem a) !! i = Some card)
    (Hpos : 0 < Vector3.lengthSq (originalPosition (userData card)))
    (Hidle : tweens a = [])
    (Hnone : Forall (fun m => isExpanded (userData m) = false)
               (ornaments (ornamentSystem a))) :
  let op := originalPosition (userData card) in
  let os := originalScale (userData card) in
  let pulled :=
    Vector3.add op (Vector3.multiplyScalar (Vector3.normalize op) 2) in
  let grown :=
    Vector3.new (Vector3.x os * 1.5) (Vector3.y os * 1.5)
                (Vector3.z os * 1.5) in
  let a1 := handleOrnamentClick (Card i) a in
  let a2 := settle a1 in
  let a3 := closeViewer a2 in
  let a4 := settle a3 in
  handleOrnamentClick (HitBoxOf i) a = a1
  /\ tweens a1 = [ mkTween i PositionOf pulled 0.5 "back.out(1.2)" false
                 ; mkTween i ScaleOf grown 0.5 "power2.out" true ]
  /\ Vector3.distanceTo op pulled = 2
  /\ ornaments (ornamentSystem a1) = ornaments (ornamentSystem a)
  /\ ornaments (ornamentSystem a2) !! i
     = Some (set_isExpanded (set_scale (set_position card pulled) grown) true)
  /\ viewerVisible a2 = true
  /\ tweens a3 = [ mkTween i PositionOf op 0.6 "power2.inOut" false
                 ; mkTween i ScaleOf os 0.6 "power2.inOut" false ]
  /\ ornaments (ornamentSystem a3) !! i
     = Some (set_isExpanded (set_scale (set_position card pulled) grown) false)
  /\ viewerVisible a3 = false
  /\ ornaments (ornamentSystem a4) !! i
     = Some (set_isExpanded (set_scale (set_position card op) os) false).
Proof.
  cbv zeta.
  set (op := originalPosition (userData card)).
  set (os := originalScale (userData card)).
  set (pulled :=
         Vector3.add op (Vector3.multiplyScalar (Vector3.normalize op) 2)).
  set (grown := Vector3.new (Vector3.x os * 1.5) (Vector3.y os * 1.5)
                            (Vector3.z os * 1.5)).
  set (cards := ornaments (ornamentSystem a)) in *.
  assert (Hlt : (i < length cards)%nat) by (eapply lookup_lt_Some; eassumption).
  set (twP := mkTween i PositionOf pulled 0.5 "back.out(1.2)" false).
  set (twS := mkTween i ScaleOf grown 0.5 "power2.out" true).
  assert (E1 : handleOrnamentClick (Card i) a
               = mkApp (ornamentSystem a) [twP; twS]
                   (viewerVisible a) (selectedOrnament a)).
  { unfold handleOrnamentClick. simpl. fold cards. rewrite Hcard, Hidle.
    unfold twP, twS, pulled, grown, op, os. simpl.
    do 4 f_equal. unfold Vector3.multiplyScalar. f_equal; lra. }
  split; [reflexivity|]. rewrite E1.
  split; [reflexivity|]. split; [now apply distance_pulled|].
  split; [reflexivity|].
  set (c2 := set_isExpanded (set_scale (set_position card pulled) grown) true).
  set (sys := ornamentSystem a) in *.
  assert (E2 : settle (mkApp sys [twP; twS] (viewerVisible a)
                         (selectedOrnament a))
               = mkApp (OrnamentSystem.mkSystem (<[i := c2]> cards)
                          (loading sys))
                   [] true (Some (userData c2))).
  { unfold settle. cbn [fold_left tweens].
    rewrite (complete_at twP _ card) by exact Hcard.
    cbn [onComplete twP target ornamentSystem ornaments loading tweens
         viewerVisible selectedOrnament].
    rewrite (complete_at twS _ (applyEnd twP card))
      by (cbn; apply list_lookup_insert_eq; exact Hlt).
    cbn [onComplete twS target ornamentSystem ornaments loading tweens
         viewerVisible selectedOrnament].
    rewrite list_insert_insert_eq. reflexivity. }
  rewrite E2. cbn [ornamentSystem ornaments viewerVisible].
  split; [now apply list_lookup_insert_eq|]. split; [reflexivity|].
  assert (Hc2 : isExpanded (userData c2) = true) by reflexivity.
  assert (E3 : closeViewer
                 (mkApp (OrnamentSystem.mkSystem (<[i := c2]> cards)
                           (loading sys))
                    [] true (Some (userData c2)))
               = mkApp (OrnamentSystem.mkSystem
                          (<[i := set_isExpanded c2 false]> cards)
                          (loading sys))
                   [ mkTween i PositionOf op 0.6 "power2.inOut" false
                   ; mkTween i ScaleOf os 0.6 "power2.inOut" false ]
                   false None).
  { unfold closeViewer, getObjects.
    cbn [ornamentSystem ornaments loading tweens app].
    rewrite list_fmap_insert, (clear_unexpanded cards Hnone).
    assert (T : concat (imap returnTweens (<[i := c2]> cards))
                = returnTweens (0 + i) c2).
    { apply (returnTweens_one (<[i := c2]> cards) i c2 0%nat).
      - now apply list_lookup_insert_eq.
      - rewrite delete_insert_same. now apply Forall_delete. }
    rewrite T. reflexivity. }
  rewrite E3. cbn [ornamentSystem ornaments viewerVisible tweens].
  split; [reflexivity|].
  split; [now apply list_lookup_insert_eq|]. split; [reflexivity|].
  set (twBP := mkTween i PositionOf op 0.6 "power2.inOut" false).
  set (twBS := mkTween i ScaleOf os 0.6 "power2.inOut" false).
  unfold settle. cbn [fold_left tweens].
  rewrite (complete_at twBP _ (set_isExpanded c2 false))
    by (cbn; apply list_lookup_insert_eq; exact Hlt).
  cbn [onComplete twBP target ornamentSystem ornaments loading tweens
       viewerVisible selectedOrnament].
  rewrite (complete_at twBS _ (applyEnd twBP (set_isExpanded c2 false)))
    by (cbn; rewrite list_insert_insert_eq;
        apply list_lookup_insert_eq; exact Hlt).
  cbn [onComplete twBS target ornamentSystem ornaments loading tweens
       viewerVisible selectedOrnament].
  rewrite !list_insert_insert_eq. now apply list_lookup_insert_eq.
Qed.

End SelectionFacts.

(** C5 on the card of the scenario, at (3, 5, 1), alone on the tree. *)
Lemma card_click_and_close_witness :
  let card := OrnamentSystem.cardAt OrnamentSystem.sampleOrnament
                (Vector3.new 3 5 1)%R false in
  let a := ChristmasTree.idle [card] in
  let pulled :=
    Vector3.add (Vector3.new 3 5 1)%R
      (Vector3.multiplyScalar
         (Vector3.normalize (Vector3.new 3 5 1)%R) 2%R) in
  Vector3.distanceTo (Vector3.new 3 5 1)%R pulled = 2%R
  /\ OrnamentSystem.ornaments
       (ChristmasTree.ornamentSystem
          (ChristmasTree.settle
             (ChristmasTree.closeViewer
                (ChristmasTree.settle
                   (ChristmasTree.handleOrnamentClick
                      (ChristmasTree.Card 0) a))))) !! 0%nat
     = Some (OrnamentSystem.set_isExpanded
               (OrnamentSystem.set_scale
                  (OrnamentSystem.set_position card (Vector3.new 3 5 1)%R)
                  (Vector3.new 0.8 0.8 0.8)%R)
               false).
Proof.
  intros card a pulled.
  assert (Hpos : (0 < Vector3.lengthSq (Vector3.new 3 5 1))%R)
    by (unfold Vector3.lengthSq; simpl; lra).
  assert (Hnone : Forall (fun m => OrnamentSystem.isExpanded
                                     (OrnamentSystem.userData m) = false)
                    [card])
    by (constructor; [reflexivity | constructor]).
  pose proof (card_click_and_close a 0%nat card eq_refl Hpos eq_refl Hnone)
    as W.
  cbv zeta in W.
  destruct W as (_ & _ & Wd & _ & _ & _ & _ & _ & _ & Wend).
  split; [exact Wd | exact Wend].
Defined.

(** ** Generation: every explosion vector has length 1 *)

Section GenerationFacts.
Import Random ParticleSystem.
Local Open Scope R_scope.

(** A unit vector whose [y] is then moved by at most a quarter is not
    zero, so normalizing it again gives a unit vector. *)
Lemma renormalized_after_y_scatter v d :
  0 < Vector3.lengthSq v -> -0.25 <= d <= 0.25 ->
  let n := Vector3.normalize v in
  Vector3.length
    (Vector3.normalize (Vector3.setY n (Vector3.y n + d))) = 1.
Proof.
  intros Hv Hd n. pose proof (lengthSq_normalize v Hv) as N.
  fold n in N. clearbody n. apply length_normalize.
  unfold Vector3.lengthSq in *. simpl.
  destruct n as [a b c]. simpl in *.
  assert (Hb : -1 <= b <= 1) by nra.
  nra.
Qed.

(** A horizontal unit vector whose [y] is then set to any value is not
    zero either. *)
Lemma renormalized_after_y_set a c d :
  0 < a * a + c * c ->
  Vector3.length
    (Vector3.normalize
       (Vector3.setY (Vector3.normalize (Vector3.new a 0 c)) d)) = 1.
Proof.
  intros H.
  assert (Hv : 0 < Vector3.lengthSq (Vector3.new a 0 c))
    by (unfold Vector3.lengthSq; simpl; lra).
  pose proof (lengthSq_normalize _ Hv) as N.
  pose proof (normalize_y_zero a c) as Y.
  set (n := Vector3.normalize (Vector3.new a 0 c)) in *. clearbody n.
  apply length_normalize.
  unfold Vector3.lengthSq in *. destruct n as [p q r]. simpl in *.
  nra.
Qed.

Lemma Math_pow_nonneg b e : 0 <= Math_pow b e.
Proof.
  unfold Math_pow. destruct (Req_dec_T b 0); [lra|].
  unfold Rpower. left. apply exp_pos.
Qed.

Lemma layerIndex_nonneg u : (0 <= layerIndex u)%Z.
Proof.
  unfold layerIndex. apply Zfloor_lub. simpl.
  pose proof (Math_pow_nonneg u 0.8). unfold layerCount. nra.
Qed.

Lemma layerResidue_range u : 0 <= layerResidue u < 1.
Proof.
  unfold layerResidue, layerIndex.
  pose proof (Zfloor_bound (Math_pow u 0.8 * layerCount)). lra.
Qed.

Lemma height_y_nonneg u : 0 <= height_y u.
Proof.
  unfold height_y, hNorm, tightResidue, treeHeight, layerCount.
  pose proof (layerResidue_range u) as Hr.
  pose proof (IZR_le _ _ (layerIndex_nonneg u)) as Hi. simpl in Hi.
  lra.
Qed.

Lemma unitExplosion_intro p :
  Vector3.length (explosionVelocity p) = 1 -> unitExplosion p.
Proof.
  intros H. split; [exact H|]. rewrite H.
  replace (1 - 1) with 0 by ring. rewrite Rabs_R0. lra.
Qed.

Section Draws.
Variable src : nat -> R.
Hypothesis Hsrc : uniform src.

Lemma tree_particle_unit i k :
  unitExplosion (generateTreeParticle i src k).1.
Proof.
  apply unitExplosion_intro.
  assert (G : forall x z d, -0.25 <= d <= 0.25 ->
            let n := Vector3.normalize
                       (Vector3.new x (height_y (src k) + 2.0) z) in
            Vector3.length
              (Vector3.normalize (Vector3.setY n (Vector3.y n + d))) = 1).
  { intros x z d Hd. apply renormalized_after_y_scatter; [|exact Hd].
    pose proof (height_y_nonneg (src k)) as Hy.
    unfold Vector3.lengthSq. simpl. nra. }
  pose proof (Hsrc (S (S (S k)))) as H4.
  unfold generateTreeParticle, bind, Math_random, ret.
  repeat match goal with
         | |- context [Rlt_dec ?a ?b] => destruct (Rlt_dec a b)
         end;
    cbn [fst explosionVelocity]; apply G; lra.
Qed.

Lemma trunk_particle_unit k : unitExplosion (generateTrunkParticle src k).1.
Proof.
  apply unitExplosion_intro.
  unfold generateTrunkParticle, bind, Math_random, ret.
  cbn [fst explosionVelocity].
  apply renormalized_after_y_set.
  pose proof (Hsrc (S (S k))) as H3.
  pose proof (sqrt_pos (src (S (S k)))) as Hq.
  pose proof (sin2_cos2 (src (S k) * PI * 2)) as T. unfold Rsqr in T.
  set (r := (0.4 + 0.6 * sqrt (src (S (S k)))) * trunkRadius).
  assert (Hr : 0.5 <= r) by (unfold r, trunkRadius; nra).
  set (sn := sin (src (S k) * PI * 2)) in *.
  set (cs := cos (src (S k) * PI * 2)) in *.
  replace (cs * r * (cs * r) + sn * r * (sn * r))
    with (r * r * (sn * sn + cs * cs)) by ring.
  rewrite T. nra.
Qed.

Lemma snow_particle_unit k : unitExplosion (generateSnowParticle src k).1.
Proof.
  apply unitExplosion_intro. cbn. apply length_unit.
  unfold Vector3.lengthSq. simpl. ring.
Qed.

Lemma aura_particle_unit k : unitExplosion (generateAuraParticle src k).1.
Proof.
  apply unitExplosion_intro.
  unfold generateAuraParticle, bind, Math_random, ret.
  cbn [fst explosionVelocity].
  apply length_normalize.
  pose proof (Hsrc (S (S k))) as H3.
  set (theta := src k * PI * 2).
  set (phi := acos (2 * src (S k) - 1)).
  set (r := 10 + src (S (S k)) * 15).
  assert (Hr : 10 <= r) by (unfold r; lra).
  pose proof (sin2_cos2 theta) as T1. pose proof (sin2_cos2 phi) as T2.
  unfold Rsqr in T1, T2.
  pose proof (SIN_bound theta) as B1. pose proof (SIN_bound phi) as B2.
  unfold Vector3.lengthSq. simpl.
  set (s1 := sin phi) in *. set (c1 := cos phi) in *.
  set (s2 := sin theta) in *. set (c2 := cos theta) in *.
  replace (r * s1 * c2 * (r * s1 * c2)
           + (r * s1 * s2 + 8) * (r * s1 * s2 + 8) + r * c1 * (r * c1))
    with (r * r * (s1 * s1 * (s2 * s2 + c2 * c2) + c1 * c1)
          + 16 * r * (s1 * s2) + 64) by ring.
  rewrite T1, Rmult_1_r, T2.
  assert (Hp : -1 <= s1 * s2) by nra.
  nra.
Qed.

End Draws.

Lemma push_populations (P : ParticleData -> Prop) p s :
  P p -> Forall (Forall P) (populations s) ->
  Forall (Forall P) (populations (push p s)).
Proof.
  intros Hp H. unfold populations in H.
  repeat match goal with
         | H : Forall _ (_ :: _) |- _ => apply Forall_cons in H as [? H]
         end.
  assert (Hone : Forall P [p]) by (constructor; [exact Hp | constructor]).
  unfold push, populations. destruct (type p); simpl;
    repeat (apply Forall_cons; split);
    try assumption; try (apply Forall_app; split; assumption);
    apply Forall_nil; exact I.
Qed.

Lemma push_length p s :
  length (particles (push p s)) = S (length (particles s)).
Proof.
  unfold push. destruct (type p); simpl; rewrite length_app; simpl; lia.
Qed.

(** A generation loop: every iteration pushes one freshly built
    particle. *)
Lemma push_loop (P : ParticleData -> Prop) (gen : nat -> Rand ParticleData)
    (src : nat -> R) :
  (forall i k, P (gen i src k).1) ->
  forall n i s k,
    Forall (Forall P) (populations s) ->
    let s' := (for_loop n i (fun i s => p <- gen i ;; ret (push p s))%rand
                 s src k).1 in
    Forall (Forall P) (populations s')
    /\ length (particles s') = (length (particles s) + n)%nat.
Proof.
  intros Hgen. induction n as [|n IH]; intros i s k Hs; cbv zeta.
  - simpl. split; [exact Hs | lia].
  - change (for_loop (S n) i ?body s src k)
      with (let (s1, k1) := (let (p, k0) := gen i src k in
                             (push p s, k0)) in
            for_loop n (S i) body s1 src k1).
    pose proof (Hgen i k) as Hp.
    destruct (gen i src k) as [p k0]. simpl in Hp.
    destruct (IH (S i) (push p s) k0 (push_populations P p s Hp Hs))
      as [I1 I2].
    split; [exact I1|]. rewrite I2, push_length. lia.
Qed.

(** C4.  Whatever the draws, every particle the constructor generates,
    in [particles] and in each typed list (tree volume, trunk, snow, aura),
    has an explosion vector of length 1, so within 1e-6 of 1; and there are
    12000 + 3000 + 3000 + 500 of them. *)
Theorem explosion_velocity_unit (src : nat -> R) (Hsrc : uniform src) :
  let s := run ParticleSystem.constructor src in
  let unit p :=
    Vector3.length (explosionVelocity p) = 1
    /\ Rabs (Vector3.length (explosionVelocity p) - 1) <= 0.000001 in
  Forall unit (particles s)
  /\ Forall unit (foliageParticles s)
  /\ Forall unit (decorationParticles s)
  /\ Forall unit (giftParticles s)
  /\ Forall unit (candyParticles s)
  /\ Forall unit (trunkParticles s)
  /\ Forall unit (snowParticles s)
  /\ Forall unit (auraParticles s)
  /\ length (particles s)
     = (particleCount + trunkCount + snowCount + auraCount)%nat.
Proof.
  cbv zeta.
  assert (H0 : Forall (Forall unitExplosion) (populations empty)).
  { unfold populations, empty. simpl. repeat constructor. }
  unfold run, ParticleSystem.constructor, generate, bind.
  unfold generateTreeData, generateTrunkData, generateSnowData,
    generateAuraData.
  generalize particleCount, trunkCount, snowCount, auraCount.
  intros n1 n2 n3 n4.
  pose proof (push_loop unitExplosion generateTreeParticle src
                (tree_particle_unit src Hsrc) n1 0 empty 0 H0)
    as [T1 T2].
  destruct (for_loop n1 0 _ empty src 0%nat) as [s1 k1].
  pose proof (push_loop unitExplosion (fun _ => generateTrunkParticle) src
                (fun _ => trunk_particle_unit src Hsrc) n2 0 s1 k1 T1)
    as [U1 U2].
  destruct (for_loop n2 0 _ s1 src k1) as [s2 k2].
  pose proof (push_loop unitExplosion (fun _ => generateSnowParticle) src
                (fun _ => snow_particle_unit src) n3 0 s2 k2 U1)
    as [V1 V2].
  destruct (for_loop n3 0 _ s2 src k2) as [s3 k3].
  pose proof (push_loop unitExplosion (fun _ => generateAuraParticle) src
                (fun _ => aura_particle_unit src Hsrc) n4 0 s3 k3 V1)
    as [W1 W2].
  destruct (for_loop n4 0 _ s3 src k3) as [s4 k4].
  cbn [fst snd] in *. unfold ret. cbn [fst].
  change (particles (initInstances (createMeshes s4))) with (particles s4).
  change (foliageParticles (initInstances (createMeshes s4)))
    with (foliageParticles s4).
  change (decorationParticles (initInstances (createMeshes s4)))
    with (decorationParticles s4).
  change (giftParticles (initInstances (createMeshes s4)))
    with (giftParticles s4).
  change (candyParticles (initInstances (createMeshes s4)))
    with (candyParticles s4).
  change (trunkParticles (initInstances (createMeshes s4)))
    with (trunkParticles s4).
  change (snowParticles (initInstances (createMeshes s4)))
    with (snowParticles s4).
  change (auraParticles (initInstances (createMeshes s4)))
    with (auraParticles s4).
  unfold populations in W1.
  repeat match goal with
         | H : Forall _ (_ :: _) |- _ => apply Forall_cons in H as [? H]
         end.
  repeat split; try assumption.
  rewrite W2, V2, U2, T2. simpl. lia.
Qed.

End GenerationFacts.

(** C4 with every draw equal to one half. *)
Lemma explosion_velocity_unit_witness :
  Forall (fun p =>
            Vector3.length (ParticleSystem.explosionVelocity p) = 1%R)
    (ParticleSystem.snowParticles
       (Random.run ParticleSystem.constructor (fun _ => 0.5%R))).
Proof.
  assert (H : Random.uniform (fun _ => 0.5%R)) by (intros k; lra).
  pose proof (explosion_velocity_unit (fun _ => 0.5%R) H) as W.
  cbv zeta in W. destruct W as (_ & _ & _ & _ & _ & _ & W & _).
  eapply Forall_impl; [exact W|]. intros p [Hp _]. exact Hp.
Defined.

(** ** More on the particle engine *)

Section SlotLoops.
Import Random ParticleSystem.
Local Open Scope R_scope.

(** A loop whose body at index [i] rewrites particle [i] and instance slot
    [i] and nothing else: after it, every index of the range satisfies what
    the body establishes, and everything outside is as before. *)
Lemma slot_loop
    (body : nat -> list ParticleData * InstancedMesh
            -> Rand (list ParticleData * InstancedMesh))
    (src : nat -> R)
    (P : nat -> ParticleData -> ParticleData -> Matrix4 -> Prop)
    (Hbody : forall i l mesh k p,
        l !! i = Some p -> (i < length (instanceMatrix mesh))%nat ->
        let r := (body i (l, mesh) src k).1 in
        exists p' m,
          r.1 = <[i := p']> l
          /\ instanceMatrix r.2 = <[i := m]> (instanceMatrix mesh)
          /\ length (instanceColor r.2) = length (instanceColor mesh)
          /\ P i p p' m) :
  forall n i l mesh k,
    (i + n <= length l)%nat ->
    length (instanceMatrix mesh) = length l ->
    let r := (for_loop n i body (l, mesh) src k).1 in
    length r.1 = length l
    /\ length (instanceMatrix r.2) = length l
    /\ length (instanceColor r.2) = length (instanceColor mesh)
    /\ (forall j, (j < i \/ i + n <= j)%nat ->
          r.1 !! j = l !! j
          /\ instanceMatrix r.2 !! j = instanceMatrix mesh !! j)
    /\ (forall j p, (i <= j < i + n)%nat -> l !! j = Some p ->
          exists p' m,
            r.1 !! j = Some p' /\ instanceMatrix r.2 !! j = Some m
            /\ P j p p' m).
Proof.
  induction n as [|n IH]; intros i l mesh k Hn Hm; cbv zeta.
  - simpl. repeat split; try assumption; try reflexivity. intros; lia.
  - destruct (lookup_lt_is_Some_2 l i ltac:(lia)) as [p Hp].
    change (for_loop (S n) i body (l, mesh) src k)
      with (let (s', k') := body i (l, mesh) src k in
            for_loop n (S i) body s' src k').
    destruct (Hbody i l mesh k p Hp ltac:(lia)) as (p' & m & E1 & E2 & E3 & HP).
    destruct (body i (l, mesh) src k) as [[l1 mesh1] k1]. simpl in E1, E2, E3.
    assert (Hl1 : length l1 = length l) by (rewrite E1; apply length_insert).
    assert (Hm1 : length (instanceMatrix mesh1) = length l1)
      by (rewrite E2, length_insert; congruence).
    specialize (IH (S i) l1 mesh1 k1 ltac:(lia) Hm1). cbv zeta in IH.
    destruct IH as (I1 & I2 & I3 & Iout & Iin).
    split; [congruence|]. split; [congruence|]. split; [congruence|]. split.
    + intros j Hj. destruct (Iout j ltac:(lia)) as [A B].
      rewrite A, B, E1, E2. split; apply list_lookup_insert_ne; lia.
    + intros j q Hj Hq. destruct (decide (j = i)) as [->|Hne].
      * destruct (Iout i ltac:(lia)) as [A B].
        assert (q = p) as -> by congruence.
        exists p', m. rewrite A, B, E1, E2.
        split; [apply list_lookup_insert_eq; lia|].
        split; [apply list_lookup_insert_eq; lia | exact HP].
      * apply (Iin j q ltac:(lia)).
        rewrite E1, list_lookup_insert_ne by lia. exact Hq.
Qed.

End SlotLoops.

Section UpdateListFacts.
Import Random ParticleSystem.
Local Open Scope R_scope.

Variables (time : R) (mousePos : option Vector3.t)
          (dispersion twinkleSpeed : R) (treeDensity decorationDensity : Q).

Let drawnWith := drawnWith time mousePos dispersion twinkleSpeed.

Lemma updateParticle_drawnWith isDeco p src k :
  (updateParticle time mousePos dispersion twinkleSpeed isDeco p src k).1
  = drawnWith isDeco (src k) p.
Proof. reflexivity. Qed.

Lemma updateSlot_body isDeco src (Hsrc : uniform src) i l mesh k p :
  l !! i = Some p -> (i < length (instanceMatrix mesh))%nat ->
  let r := (updateSlot time mousePos dispersion twinkleSpeed isDeco i
              (l, mesh) src k).1 in
  exists p' m,
    r.1 = <[i := p']> l
    /\ instanceMatrix r.2 = <[i := m]> (instanceMatrix mesh)
    /\ length (instanceColor r.2) = length (instanceColor mesh)
    /\ (fun _ q q' m' => exists u, 0 <= u < 1 /\ (q', m') = drawnWith isDeco u q)
         i p p' m.
Proof.
  intros Hp Hi. cbv zeta.
  rewrite (updateSlot_defined time mousePos dispersion twinkleSpeed isDeco
             src i l mesh p k Hp).
  rewrite updateParticle_drawnWith.
  destruct (drawnWith isDeco (src k) p) as [p' m] eqn:E.
  exists p', m. simpl. split; [reflexivity|]. split; [reflexivity|].
  split; [apply length_insert|].
  exists (src k). split; [apply Hsrc | symmetry; exact E].
Qed.

(** [updateList], slot by slot. *)
Lemma updateList_slots (isDeco : bool) src (Hsrc : uniform src)
    (l : list ParticleData) (mesh : InstancedMesh) (k : nat) :
  length (instanceMatrix mesh) = length l ->
  let shown :=
    Z.to_nat (visibleCount (length l)
                (if isDeco then decorationDensity else treeDensity) 1.0) in
  let r := (updateList time mousePos dispersion twinkleSpeed treeDensity
              decorationDensity l mesh isDeco 1.0 src k).1 in
  length r.1 = length l
  /\ length (instanceMatrix r.2) = length l
  /\ length (instanceColor r.2) = length (instanceColor mesh)
  /\ forall j p, l !! j = Some p ->
       if decide (j < shown)%nat
       then exists u, 0 <= u < 1
              /\ r.1 !! j = Some (drawnWith isDeco u p).1
              /\ instanceMatrix r.2 !! j = Some (drawnWith isDeco u p).2
       else r.1 !! j = Some p
            /\ instanceMatrix r.2 !! j = Some (MakeScale 0 0 0).
Proof.
  intros Hm. cbv zeta.
  set (shown := Z.to_nat (visibleCount (length l) _ 1.0)).
  assert (Hs : (shown <= length l)%nat).
  { unfold shown.
    pose proof (visibleCount_le_length (length l)
                  (if isDeco then decorationDensity else treeDensity) 1.0).
    lia. }
  rewrite updateList_result. fold shown.
  pose proof (slot_loop _ src _ (updateSlot_body isDeco src Hsrc)
                shown 0 l mesh k ltac:(lia) Hm) as F.
  cbv zeta in F. destruct F as (F1 & F2 & F3 & Fout & Fin).
  set (st := (for_loop shown 0 _ (l, mesh) src k).1) in *.
  cbn [fst snd].
  split; [exact F1|]. split; [rewrite hideRemaining_length; exact F2|].
  split.
  { clear -F3. revert F3. generalize st.2. generalize shown at 2.
    generalize (length l - shown)%nat.
    induction n as [|n IH]; intros i m0 H; simpl; [exact H|].
    rewrite IH; [reflexivity | exact H]. }
  intros j p Hj.
  assert (Hjl : (j < length l)%nat) by (eapply lookup_lt_Some; eassumption).
  destruct (decide (j < shown)%nat) as [Hlt|Hge].
  - destruct (Fin j p ltac:(lia) Hj) as (p' & m & A & B & u & Hu & E).
    exists u. split; [exact Hu|]. rewrite <- E. cbn [fst snd].
    split; [exact A|]. rewrite hideRemaining_outside by lia. exact B.
  - destruct (Fout j ltac:(lia)) as [A B]. split; [congruence|].
    apply hideRemaining_inside; [lia|]. rewrite F2. lia.
Qed.

End UpdateListFacts.

Section ParticleMotion.
Import Random ParticleSystem.
Local Open Scope R_scope.

Lemma visibleCount_full len d :
  (1 <= d)%Q -> visibleCount len d 1.0 = Z.of_nat len.
Proof.
  intros H. unfold visibleCount.
  rewrite <- (Qfloor_Z (Z.of_nat len)) at 2. apply Qfloor_comp.
  assert (E : (Qmin 1.0 (d * 1.0) == 1.0)%Q).
  { apply Q.min_l. Lqa.lra. }
  rewrite E. Lqa.lra.
Qed.

Lemma drawnWith_particle (time : R) mousePos (dispersion twinkleSpeed : R)
    (isDeco : bool) (u : R) (p : ParticleData) :
  (drawnWith time mousePos dispersion twinkleSpeed isDeco u p).1
  = set_currentPosition p
      (Vector3.lerp (currentPosition p)
         (Vector3.addScaledVector (targetPosition p) (explosionVelocity p)
            (dispersion * (25 + u * 15)))
         0.1).
Proof. reflexivity. Qed.

Lemma oscillation_bounds (isDeco : bool) time phi twinkleSpeed :
  (if isDeco then 0.6 else 0.95)
  <= oscillation isDeco time phi twinkleSpeed
  <= (if isDeco then 1.4 else 1.05).
Proof.
  unfold oscillation. destruct isDeco.
  - pose proof (SIN_bound (twinkleTurns (time + phi) twinkleSpeed * PI * 2)).
    lra.
  - pose proof (SIN_bound ((time + phi) / 4.0 * PI * 2)). lra.
Qed.

Lemma drawnWith_matrix (time : R) mousePos (dispersion twinkleSpeed : R)
    (isDeco : bool) (u : R) (p : ParticleData) :
  exists rotation scale,
    (drawnWith time mousePos dispersion twinkleSpeed isDeco u p).2
    = Compose
        (currentPosition
           (drawnWith time mousePos dispersion twinkleSpeed isDeco u p).1)
        rotation (uniformScale scale)
    /\ (isDeco = false -> rotation = Euler 0 0 0)
    /\ (0 <= currentScale p ->
        (if isDeco then 0.6 else 0.95) * currentScale p <= scale
        /\ scale <= (if isDeco then 2.8 else 2.1) * currentScale p).
Proof.
  unfold drawnWith, updateParticle, bind, Math_random, ret. cbn [fst snd].
  eexists _, _. split; [reflexivity|]. split.
  - intros ->. reflexivity.
  - intros Hs.
    pose proof (oscillation_bounds isDeco time (phaseOffset p) twinkleSpeed)
      as Ho.
    set (o := oscillation isDeco time (phaseOffset p) twinkleSpeed) in *.
    destruct (hovered _ _ _); destruct isDeco; nra.
Qed.

Lemma updateList_frame_spec
    (time : R) (mousePos : option Vector3.t) (dispersion twinkleSpeed : R)
    (treeDensity decorationDensity : Q) (isDeco : bool)
    (src : nat -> R) (l : list ParticleData) (mesh : InstancedMesh)
    (k j : nat) (p : ParticleData)
    (Hsrc : uniform src)
    (Hm : length (instanceMatrix mesh) = length l)
    (Hj : l !! j = Some p) :
  let shown :=
    Z.to_nat (visibleCount (length l)
                (if isDeco then decorationDensity else treeDensity) 1.0) in
  let r := (updateList time mousePos dispersion twinkleSpeed treeDensity
              decorationDensity l mesh isDeco 1.0 src k).1 in
  length r.1 = length l
  /\ length (instanceMatrix r.2) = length l
  /\ length (instanceColor r.2) = length (instanceColor mesh)
  /\ exists p',
       r.1 !! j = Some p'
       /\ p' = set_currentPosition p (currentPosition p')
       /\ if decide (j < shown)%nat
          then exists u, 0 <= u < 1
                 /\ currentPosition p'
                    = Vector3.lerp (currentPosition p)
                        (Vector3.addScaledVector (targetPosition p)
                           (explosionVelocity p)
                           (dispersion * (25 + u * 15)))
                        0.1
          else currentPosition p' = currentPosition p.
Proof.
  cbv zeta.
  destruct (updateList_slots time mousePos dispersion twinkleSpeed
              treeDensity decorationDensity isDeco src Hsrc l mesh k Hm)
    as (L1 & L2 & L3 & Hslot).
  split; [exact L1|]. split; [exact L2|]. split; [exact L3|].
  specialize (Hslot j p Hj).
  destruct (decide _) as [Hlt|Hge].
  - destruct Hslot as (u & Hu & A & _).
    rewrite drawnWith_particle in A.
    eexists. split; [exact A|]. split; [reflexivity|].
    exists u. split; [exact Hu | reflexivity].
  - destruct Hslot as [A _]. exists p.
    split; [exact A|]. split; [now destruct p | reflexivity].
Qed.

(** X1.  One call of [updateList] keeps the list and the mesh at their
    sizes and changes nothing of a particle but [currentPosition]; a shown
    particle moves one tenth of the way towards
    [targetPosition + explosionVelocity * dist] with
    [dist = dispersion * (25 + 15 u)] for a draw [u] in [0, 1), a hidden one
    stays where it is. *)
Theorem updateList_frame_effect
    (time : R) (mousePos : option Vector3.t) (dispersion twinkleSpeed : R)
    (treeDensity decorationDensity : Q) (isDeco : bool)
    (src : nat -> R) (l : list ParticleData) (mesh : InstancedMesh)
    (k j : nat) (p : ParticleData)
    (Hsrc : uniform src)
    (Hm : length (instanceMatrix mesh) = length l)
    (Hj : l !! j = Some p) :
  let shown :=
    Z.to_nat (visibleCount (length l)
                (if isDeco then decorationDensity else treeDensity) 1.0) in
  let r := (updateList time mousePos dispersion twinkleSpeed treeDensity
              decorationDensity l mesh isDeco 1.0 src k).1 in
  length r.1 = length l
  /\ length (instanceMatrix r.2) = length l
  /\ length (instanceColor r.2) = length (instanceColor mesh)
  /\ exists p',
       r.1 !! j = Some p'
       /\ p' = set_currentPosition p (currentPosition p')
       /\ if decide (j < shown)%nat
          then exists u, 0 <= u < 1
                 /\ currentPosition p'
                    = Vector3.lerp (currentPosition p)
                        (Vector3.addScaledVector (targetPosition p)
                           (explosionVelocity p)
                           (dispersion * (25 + u * 15)))
                        0.1
          else currentPosition p' = currentPosition p.
Proof. intros. eapply updateList_frame_spec; eassumption. Qed.

(** X2.  The scale [updateList] writes for a shown particle whose
    [currentScale] is not negative is not negative either: it lies between
    0.6 and 2.8 times [currentScale] for a list updated as decorative and
    between 0.95 and 2.1 times otherwise (the upper bounds with the hover
    doubling); the position written is the particle's new position, and a
    list not updated as decorative gets no rotation. *)
Theorem drawn_scale_bounded
    (time : R) (mousePos : option Vector3.t) (dispersion twinkleSpeed : R)
    (treeDensity decorationDensity : Q) (isDeco : bool)
    (src : nat -> R) (l : list ParticleData) (mesh : InstancedMesh)
    (k j : nat) (p : ParticleData)
    (Hsrc : uniform src)
    (Hm : length (instanceMatrix mesh) = length l)
    (Hj : l !! j = Some p)
    (Hshown : (j < Z.to_nat (visibleCount (length l)
                    (if isDeco then decorationDensity else treeDensity) 1.0))%nat)
    (Hs : 0 <= currentScale p) :
  let r := (updateList time mousePos dispersion twinkleSpeed treeDensity
              decorationDensity l mesh isDeco 1.0 src k).1 in
  exists p' rotation scale,
    r.1 !! j = Some p'
    /\ instanceMatrix r.2 !! j
       = Some (Compose (currentPosition p') rotation (uniformScale scale))
    /\ (if isDeco then 0.6 else 0.95) * currentScale p <= scale
    /\ scale <= (if isDeco then 2.8 else 2.1) * currentScale p
    /\ 0 <= scale
    /\ (if isDeco then True else rotation = Euler 0 0 0).
Proof.
  cbv zeta.
  destruct (updateList_slots time mousePos dispersion twinkleSpeed
              treeDensity decorationDensity isDeco src Hsrc l mesh k Hm)
    as (_ & _ & _ & Hslot).
  specialize (Hslot j p Hj).
  destruct (decide _) as [_|Hge]; [|contradiction].
  destruct Hslot as (u & Hu & A & B).
  destruct (drawnWith_matrix time mousePos dispersion twinkleSpeed isDeco u p)
    as (rot & sc & E & Hrot & Hb).
  destruct (Hb Hs) as [Hlo Hhi].
  exists (drawnWith time mousePos dispersion twinkleSpeed isDeco u p).1, rot, sc.
  split; [exact A|]. split; [now rewrite B, E|].
  split; [exact Hlo|]. split; [exact Hhi|]. split.
  - destruct isDeco; nra.
  - destruct isDeco; [exact I | now apply Hrot].
Qed.

End ParticleMotion.

(** X1 on two sample particles at tree density 0.5, dispersion 1. *)
Lemma updateList_frame_effect_witness :
  let l := [ParticleSystem.sampleParticle; ParticleSystem.sampleParticle] in
  let r := (ParticleSystem.updateList 0%R None 1%R 1%R 0.5%Q 1%Q l
              (ParticleSystem.newInstancedMesh 2) false 1.0%Q
              (fun _ => 0.5%R) 0%nat).1 in
  length r.1 = 2%nat.
Proof.
  intros l r.
  assert (H : Random.uniform (fun _ => 0.5%R)) by (intros k; lra).
  exact (proj1 (updateList_frame_effect 0%R None 1%R 1%R 0.5%Q 1%Q false
                  (fun _ => 0.5%R) l (ParticleSystem.newInstancedMesh 2)
                  0%nat 1%nat ParticleSystem.sampleParticle H eq_refl
                  eq_refl)).
Defined.

(** X2 on the first of two sample particles at tree density 0.5. *)
Lemma drawn_scale_bounded_witness :
  let l := [ParticleSystem.sampleParticle; ParticleSystem.sampleParticle] in
  let r := (ParticleSystem.updateList 0%R None 1%R 1%R 0.5%Q 1%Q l
              (ParticleSystem.newInstancedMesh 2) false 1.0%Q
              (fun _ => 0.5%R) 0%nat).1 in
  exists p' rotation scale,
    r.1 !! 0%nat = Some p'
    /\ ParticleSystem.instanceMatrix r.2 !! 0%nat
       = Some (Compose (ParticleSystem.currentPosition p') rotation
                 (ParticleSystem.uniformScale scale))
    /\ (0 <= scale)%R.
Proof.
  intros l r.
  assert (H : Random.uniform (fun _ => 0.5%R)) by (intros k; lra).
  assert (Hshown : (0 < Z.to_nat (ParticleSystem.visibleCount (length l)
                                    0.5%Q 1.0%Q))%nat)
    by (vm_compute; lia).
  assert (Hs : (0 <= ParticleSystem.currentScale ParticleSystem.sampleParticle)%R)
    by (simpl; lra).
  destruct (drawn_scale_bounded 0%R None 1%R 1%R 0.5%Q 1%Q false
              (fun _ => 0.5%R) l (ParticleSystem.newInstancedMesh 2)
              0%nat 0%nat ParticleSystem.sampleParticle H eq_refl eq_refl
              Hshown Hs)
    as (p' & rot & sc & A & B & _ & _ & C & _).
  exists p', rot, sc. split; [exact A|]. split; [exact B | exact C].
Defined.

Section Reassembly.
Import Random ParticleSystem.
Local Open Scope R_scope.

Variables (mousePos : option Vector3.t) (twinkleSpeed : R)
          (treeDensity decorationDensity : Q) (isDeco : bool)
          (src : nat -> R).
Hypothesis Hsrc : uniform src.
Hypothesis Hfull :
  (1 <= (if isDeco then decorationDensity else treeDensity))%Q.

(** The offset of a particle from its target has been multiplied by [c]
    on every axis, and its target and explosion vector are the same. *)
Let contracted (c : R) (p p' : ParticleData) : Prop :=
  targetPosition p' = targetPosition p
  /\ explosionVelocity p' = explosionVelocity p
  /\ Vector3.sub (currentPosition p') (targetPosition p)
     = Vector3.multiplyScalar
         (Vector3.sub (currentPosition p) (targetPosition p)) c.

Lemma reassembly_frame time (l : list ParticleData) (mesh : InstancedMesh)
    (k j : nat) (p : ParticleData) :
  length (instanceMatrix mesh) = length l -> l !! j = Some p ->
  let r := (updateList time mousePos 0 twinkleSpeed treeDensity
              decorationDensity l mesh isDeco 1.0 src k).1 in
  length (instanceMatrix r.2) = length r.1
  /\ exists p', r.1 !! j = Some p' /\ contracted 0.9 p p'.
Proof.
  intros Hm Hj. cbv zeta.
  destruct (updateList_frame_spec time mousePos 0 twinkleSpeed treeDensity
              decorationDensity isDeco src l mesh k j p Hsrc Hm Hj)
    as (L1 & L2 & _ & p' & A & B & C).
  split; [congruence|].
  rewrite (visibleCount_full _ _ Hfull), Nat2Z.id in C.
  destruct (decide _) as [_|Hge];
    [|exfalso; apply Hge; eapply lookup_lt_Some; eassumption].
  destruct C as (u & _ & C).
  exists p'. split; [exact A|]. rewrite B. unfold contracted. simpl.
  split; [reflexivity|]. split; [reflexivity|].
  rewrite C. unfold Vector3.sub, Vector3.multiplyScalar. simpl.
  f_equal; lra.
Qed.

Lemma reassembly_frames times : forall (l : list ParticleData)
    (mesh : InstancedMesh) (k j : nat) (p : ParticleData),
  length (instanceMatrix mesh) = length l -> l !! j = Some p ->
  exists p',
    (updateListFrames times mousePos 0 twinkleSpeed treeDensity
       decorationDensity isDeco l mesh src k).1.1 !! j = Some p'
    /\ contracted (0.9 ^ length times) p p'.
Proof.
  induction times as [|time times IH]; intros l mesh k j p Hm Hj.
  - exists p. split; [exact Hj|]. unfold contracted. simpl.
    split; [reflexivity|]. split; [reflexivity|].
    unfold Vector3.sub, Vector3.multiplyScalar. simpl. f_equal; ring.
  - destruct (reassembly_frame time l mesh k j p Hm Hj)
      as (Hm1 & p1 & A1 & T1 & V1 & G1).
    change (updateListFrames (time :: times) mousePos 0 twinkleSpeed
              treeDensity decorationDensity isDeco l mesh src k)
      with (let (st, k') := updateList time mousePos 0 twinkleSpeed
                              treeDensity decorationDensity l mesh isDeco
                              1.0 src k in
            updateListFrames times mousePos 0 twinkleSpeed treeDensity
              decorationDensity isDeco st.1 st.2 src k').
    destruct (updateList time mousePos 0 twinkleSpeed treeDensity
                decorationDensity l mesh isDeco 1.0 src k) as [st k'].
    cbn [fst] in *.
    destruct (IH st.1 st.2 k' j p1 Hm1 A1) as (p' & A & T & V & G).
    exists p'. split; [exact A|]. unfold contracted.
    split; [congruence|]. split; [congruence|].
    rewrite T1 in G. rewrite G, G1.
    unfold Vector3.multiplyScalar. simpl. f_equal; ring.
Qed.

End Reassembly.

Section ReassemblyTheorem.
Import Random ParticleSystem.
Local Open Scope R_scope.

Lemma length_multiplyScalar v c :
  0 <= c -> Vector3.length (Vector3.multiplyScalar v c) = c * Vector3.length v.
Proof.
  intros Hc. unfold Vector3.length.
  replace (Vector3.lengthSq (Vector3.multiplyScalar v c))
    with (c * c * Vector3.lengthSq v)
    by (unfold Vector3.lengthSq, Vector3.multiplyScalar; simpl; ring).
  rewrite sqrt_mult; [|nra | apply lengthSq_nonneg].
  now rewrite sqrt_square.
Qed.

(** X3.  With the dispersion at 0 and a density of at least 1, [n]
    successive calls of [updateList] on a list leave every particle with
    the same target and with its offset from the target multiplied by
    0.9^n, whatever the draws, times and pointer: the distance to the
    target is 0.9^n times what it was. *)
Theorem reassembles_at_zero_dispersion
    (times : list R) (mousePos : option Vector3.t) (twinkleSpeed : R)
    (treeDensity decorationDensity : Q) (isDeco : bool)
    (src : nat -> R) (l : list ParticleData) (mesh : InstancedMesh)
    (k j : nat) (p : ParticleData)
    (Hsrc : uniform src)
    (Hfull : (1 <= (if isDeco then decorationDensity else treeDensity))%Q)
    (Hm : length (instanceMatrix mesh) = length l)
    (Hj : l !! j = Some p) :
  exists p',
    (updateListFrames times mousePos 0 twinkleSpeed treeDensity
       decorationDensity isDeco l mesh src k).1.1 !! j = Some p'
    /\ targetPosition p' = targetPosition p
    /\ Vector3.sub (currentPosition p') (targetPosition p')
       = Vector3.multiplyScalar
           (Vector3.sub (currentPosition p) (targetPosition p))
           (0.9 ^ length times)
    /\ Vector3.distanceTo (currentPosition p') (targetPosition p')
       = 0.9 ^ length times
         * Vector3.distanceTo (currentPosition p) (targetPosition p).
Proof.
  destruct (reassembly_frames mousePos twinkleSpeed treeDensity
              decorationDensity isDeco src Hsrc Hfull times l mesh k j p
              Hm Hj) as (p' & A & T & _ & G).
  exists p'. split; [exact A|]. split; [exact T|]. rewrite T.
  split; [exact G|].
  unfold Vector3.distanceTo. rewrite G.
  apply length_multiplyScalar. apply pow_le. lra.
Qed.

End ReassemblyTheorem.

(** X3 on two sample particles over three frames at tree density 1. *)
Lemma reassembles_at_zero_dispersion_witness :
  let l := [ParticleSystem.sampleParticle; ParticleSystem.sampleParticle] in
  exists p',
    (ParticleSystem.updateListFrames [0%R; 1%R; 2%R] None 0%R 1%R 1%Q 1%Q
       false l (ParticleSystem.newInstancedMesh 2)
       (fun _ => 0.5%R) 0%nat).1.1 !! 1%nat = Some p'
    /\ Vector3.distanceTo (ParticleSystem.currentPosition p')
         (ParticleSystem.targetPosition p')
       = (0.9 ^ 3
          * Vector3.distanceTo
              (ParticleSystem.currentPosition ParticleSystem.sampleParticle)
              (ParticleSystem.targetPosition ParticleSystem.sampleParticle))%R.
Proof.
  intros l.
  assert (H : Random.uniform (fun _ => 0.5%R)) by (intros k; lra).
  assert (Hfull : (1 <= 1)%Q) by discriminate.
  destruct (reassembles_at_zero_dispersion [0%R; 1%R; 2%R] None 1%R 1%Q 1%Q
              false (fun _ => 0.5%R) l (ParticleSystem.newInstancedMesh 2)
              0%nat 1%nat ParticleSystem.sampleParticle H Hfull eq_refl
              eq_refl) as (p' & A & _ & _ & D).
  exists p'. split; [exact A | exact D].
Defined.

Section SnowFacts.
Import Random ParticleSystem.
Local Open Scope R_scope.

Variables (time snowSpeed : R) (visibleSnow : Z).

Lemma updateSnowSlot_body src (Hsrc : uniform src) i
    (l : list ParticleData) (mesh : InstancedMesh) k p :
  l !! i = Some p -> (i < length (instanceMatrix mesh))%nat ->
  let r := (updateSnowSlot time snowSpeed visibleSnow i (l, mesh) src k).1 in
  exists p' m,
    r.1 = <[i := p']> l
    /\ instanceMatrix r.2 = <[i := m]> (instanceMatrix mesh)
    /\ length (instanceColor r.2) = length (instanceColor mesh)
    /\ snowStep time snowSpeed visibleSnow i p p' m.
Proof.
  intros Hp Hi. cbv zeta. unfold updateSnowSlot, snowStep.
  destruct (visibleSnow <=? Z.of_nat i)%Z.
  - exists p, (MakeScale 0 0 0). simpl.
    split; [symmetry; now apply list_insert_id|]. now repeat split.
  - rewrite Hp. unfold bind, Math_random, ret.
    pose proof (Hsrc k) as H1. pose proof (Hsrc (S k)) as H2.
    pose proof (Hsrc (S (S k))) as H3. pose proof (Hsrc (S (S (S k)))) as H4.
    destruct (Rlt_dec _ (-10)) as [Hw|Hn]; cbn [fst snd].
    + eexists _, _. split; [reflexivity|]. split; [reflexivity|].
      split; [reflexivity|].
      eexists _, (0.8 + src (S (S (S k))) * 0.4).
      split; [reflexivity|]. split; [lra|]. split; [reflexivity|].
      simpl. split; [lra|]. left. lra.
    + eexists _, _. split; [reflexivity|]. split; [reflexivity|].
      split; [reflexivity|].
      eexists _, (0.8 + src (S k) * 0.4).
      split; [reflexivity|]. split; [lra|]. split; [reflexivity|].
      simpl. split; [lra|]. right. exists (src k). now split.
Qed.

End SnowFacts.

Section SnowTheorem.
Import Random ParticleSystem.
Local Open Scope R_scope.

(** X4.  One call of [updateSnow] keeps the list and the mesh at their
    sizes and changes nothing of a snow particle but [currentPosition].
    From index [floor(count * snowDensity)] on (no clamp at 1 here) the
    particle is untouched and its slot collapsed to zero scale; below it
    the particle ends the frame at a height of at least -10: it either fell
    by [(0.05 + 0.05 u) * snowSpeed] with the sway, or was put back at
    height 30 with x and z in [-40, 40); its slot gets a scale between 0.8
    and 1.2 times [baseScale]. *)
Theorem snow_frame
    (time : R) (snowDensity : Q) (snowSpeed : R) (src : nat -> R)
    (l : list ParticleData) (mesh : InstancedMesh) (k j : nat)
    (p : ParticleData)
    (Hsrc : uniform src)
    (Hm : length (instanceMatrix mesh) = length l)
    (Hj : l !! j = Some p) :
  let visibleSnow :=
    Qfloor (inject_Z (Z.of_nat (length l)) * snowDensity) in
  let r := (updateSnow time snowDensity snowSpeed l mesh src k).1 in
  length r.1 = length l
  /\ length (instanceMatrix r.2) = length l
  /\ exists p' m,
       r.1 !! j = Some p'
       /\ instanceMatrix r.2 !! j = Some m
       /\ p' = set_currentPosition p (currentPosition p')
       /\ snowStep time snowSpeed visibleSnow j p p' m
       /\ (if (visibleSnow <=? Z.of_nat j)%Z
           then p' = p /\ m = MakeScale 0 0 0
           else -10 <= Vector3.y (currentPosition p')).
Proof.
  cbv zeta. unfold updateSnow.
  set (visibleSnow := Qfloor (inject_Z (Z.of_nat (length l)) * snowDensity)).
  pose proof (slot_loop _ src (snowStep time snowSpeed visibleSnow)
                (updateSnowSlot_body time snowSpeed visibleSnow src Hsrc)
                (length l) 0 l mesh k ltac:(lia) Hm) as F.
  cbv zeta in F. destruct F as (F1 & F2 & _ & _ & Fin).
  split; [exact F1|]. split; [exact F2|].
  assert (Hjl : (j < length l)%nat) by (eapply lookup_lt_Some; eassumption).
  destruct (Fin j p ltac:(lia) Hj) as (p' & m & A & B & S).
  exists p', m. split; [exact A|]. split; [exact B|].
  unfold snowStep in S |- *.
  destruct (visibleSnow <=? Z.of_nat j)%Z.
  - destruct S as [-> ->]. split; [now destruct p|]. now repeat split.
  - destruct S as (cp' & f & -> & Hf & -> & Hy & Hcase).
    split; [reflexivity|]. split; [|exact Hy].
    exists cp', f. now repeat split.
Qed.

End SnowTheorem.

(** X4 on two sample particles at snow density 0.5. *)
Lemma snow_frame_witness :
  let l := [ParticleSystem.sampleParticle; ParticleSystem.sampleParticle] in
  let r := (ParticleSystem.updateSnow 0%R 0.5%Q 1%R l
              (ParticleSystem.newInstancedMesh 2) (fun _ => 0.5%R) 0%nat).1 in
  exists p',
    r.1 !! 0%nat = Some p'
    /\ (-10 <= Vector3.y (ParticleSystem.currentPosition p'))%R.
Proof.
  intros l r.
  assert (H : Random.uniform (fun _ => 0.5%R)) by (intros k; lra).
  destruct (snow_frame 0%R 0.5%Q 1%R (fun _ => 0.5%R) l
              (ParticleSystem.newInstancedMesh 2) 0%nat 0%nat
              ParticleSystem.sampleParticle H eq_refl eq_refl)
    as (_ & _ & p' & m & A & _ & _ & _ & C).
  exists p'. split; [exact A|]. exact C.
Defined.

(** ** Generation: populations and meshes *)

Section PopulationFacts.
Import Random ParticleSystem.
Local Open Scope R_scope.

Lemma listOf_push ty p s :
  listOf ty (push p s)
  = if decide (ty = type p) then listOf ty s ++ [p] else listOf ty s.
Proof.
  unfold push. destruct (decide (ty = type p)) as [->|Hne].
  - destruct (type p); reflexivity.
  - destruct ty, (type p); try reflexivity; contradiction.
Qed.

(** The number of particles over the seven typed lists. *)
Let total (s : t) : nat :=
  (length (foliageParticles s) + length (decorationParticles s)
   + length (giftParticles s) + length (candyParticles s)
   + length (trunkParticles s) + length (snowParticles s)
   + length (auraParticles s))%nat.

Lemma total_push p s : total (push p s) = S (total s).
Proof.
  unfold total, push. destruct (type p); simpl; rewrite length_app; simpl; lia.
Qed.

Lemma sorted_push p s : sorted_by_type s -> sorted_by_type (push p s).
Proof.
  intros H ty. rewrite listOf_push. destruct (decide _) as [->|_].
  - apply Forall_app. split; [apply H|]. now repeat constructor.
  - apply H.
Qed.

Lemma meshes_push p s : meshes (push p s) = meshes s.
Proof. unfold push. destruct (type p); reflexivity. Qed.

(** A generation loop whose particles have their type in [Q] leaves the
    lists of the other types alone. *)
Lemma push_loop_typed (Q : ParticleType -> bool)
    (gen : nat -> Rand ParticleData) (src : nat -> R) :
  (forall i k, Q (type (gen i src k).1) = true) ->
  forall n i s k,
    sorted_by_type s ->
    let s' := (for_loop n i (fun i s => p <- gen i ;; ret (push p s))%rand
                 s src k).1 in
    sorted_by_type s'
    /\ (forall ty, Q ty = false -> listOf ty s' = listOf ty s)
    /\ total s' = (total s + n)%nat
    /\ meshes s' = meshes s.
Proof.
  intros Hgen. induction n as [|n IH]; intros i s k Hs; cbv zeta.
  - simpl. repeat split; try assumption; try reflexivity. lia.
  - change (for_loop (S n) i ?body s src k)
      with (let (s1, k1) := (let (p, k0) := gen i src k in
                             (push p s, k0)) in
            for_loop n (S i) body s1 src k1).
    pose proof (Hgen i k) as Hq.
    destruct (gen i src k) as [p k0]. simpl in Hq.
    destruct (IH (S i) (push p s) k0 (sorted_push p s Hs))
      as (I1 & I2 & I3 & I4).
    split; [exact I1|]. split; [|split].
    + intros ty Hty. rewrite (I2 ty Hty), listOf_push.
      destruct (decide _) as [->|_]; [congruence | reflexivity].
    + rewrite I3, total_push. lia.
    + now rewrite I4, meshes_push.
Qed.

Lemma tree_particle_type i src k :
  (fun ty => match ty with
             | foliage | decoration | gift | candy => true
             | _ => false
             end) (type (generateTreeParticle i src k).1) = true.
Proof.
  unfold generateTreeParticle, bind, Math_random, ret.
  repeat match goal with
         | |- context [Rlt_dec ?a ?b] => destruct (Rlt_dec a b)
         end; reflexivity.
Qed.

Lemma updateMesh_from_length l : forall i mesh,
  length (instanceMatrix (updateMesh_from i l mesh))
  = length (instanceMatrix mesh).
Proof.
  induction l as [|p l IH]; intros i mesh; simpl; [reflexivity|].
  rewrite IH. simpl. apply length_insert.
Qed.

Lemma replicate_length_matrix n :
  length (instanceMatrix (newInstancedMesh n)) = n.
Proof. simpl. apply length_replicate. Qed.

Lemma constructed_meshes_fit s :
  meshes_fit (initInstances (createMeshes s))
  /\ forall ty, listOf ty (initInstances (createMeshes s)) = listOf ty s.
Proof.
  split; [split; [reflexivity|] |]; intros ty; destruct ty; simpl;
    try reflexivity;
    unfold updateMesh; rewrite updateMesh_from_length; simpl;
    now rewrite length_replicate.
Qed.

Lemma populations_spec (src : nat -> R) :
  let s := run ParticleSystem.constructor src in
  sorted_by_type s
  /\ length (trunkParticles s) = trunkCount
  /\ length (snowParticles s) = snowCount
  /\ length (auraParticles s) = auraCount
  /\ (length (foliageParticles s) + length (decorationParticles s)
      + length (giftParticles s) + length (candyParticles s))%nat
     = particleCount
  /\ meshes_fit s.
Proof.
  cbv zeta.
  assert (H0 : sorted_by_type empty) by (intros []; constructor).
  unfold run, ParticleSystem.constructor, generate, bind.
  unfold generateTreeData, generateTrunkData, generateSnowData,
    generateAuraData.
  generalize particleCount, trunkCount, snowCount, auraCount.
  intros n1 n2 n3 n4.
  pose proof (push_loop_typed _ generateTreeParticle src
                (fun i k => tree_particle_type i src k) n1 0 empty 0 H0)
    as (T1 & T2 & T3 & _).
  destruct (for_loop n1 0 _ empty src 0%nat) as [s1 k1].
  pose proof (push_loop_typed
                (fun ty => match ty with trunk => true | _ => false end)
                (fun _ => generateTrunkParticle) src
                (fun _ _ => eq_refl) n2 0 s1 k1 T1)
    as (U1 & U2 & U3 & _).
  destruct (for_loop n2 0 _ s1 src k1) as [s2 k2].
  pose proof (push_loop_typed
                (fun ty => match ty with snow => true | _ => false end)
                (fun _ => generateSnowParticle) src
                (fun _ _ => eq_refl) n3 0 s2 k2 U1)
    as (V1 & V2 & V3 & _).
  destruct (for_loop n3 0 _ s2 src k2) as [s3 k3].
  pose proof (push_loop_typed
                (fun ty => match ty with aura => true | _ => false end)
                (fun _ => generateAuraParticle) src
                (fun _ _ => eq_refl) n4 0 s3 k3 V1)
    as (W1 & W2 & W3 & _).
  destruct (for_loop n4 0 _ s3 src k3) as [s4 k4].
  cbn [fst snd] in *. unfold ret. cbn [fst].
  destruct (constructed_meshes_fit s4) as [Hfit Hsame].
  pose proof (Hsame trunk) as Etr. pose proof (Hsame snow) as Esn.
  pose proof (Hsame aura) as Eau. pose proof (Hsame foliage) as Efo.
  pose proof (Hsame decoration) as Ede. pose proof (Hsame gift) as Egi.
  pose proof (Hsame candy) as Eca.
  pose proof (T2 trunk eq_refl) as A1. pose proof (T2 snow eq_refl) as A2.
  pose proof (T2 aura eq_refl) as A3.
  pose proof (U2 foliage eq_refl) as B1.
  pose proof (U2 decoration eq_refl) as B2.
  pose proof (U2 gift eq_refl) as B3. pose proof (U2 candy eq_refl) as B4.
  pose proof (U2 snow eq_refl) as B5. pose proof (U2 aura eq_refl) as B6.
  pose proof (V2 foliage eq_refl) as C1.
  pose proof (V2 decoration eq_refl) as C2.
  pose proof (V2 gift eq_refl) as C3. pose proof (V2 candy eq_refl) as C4.
  pose proof (V2 trunk eq_refl) as C5. pose proof (V2 aura eq_refl) as C6.
  pose proof (W2 foliage eq_refl) as D1.
  pose proof (W2 decoration eq_refl) as D2.
  pose proof (W2 gift eq_refl) as D3. pose proof (W2 candy eq_refl) as D4.
  pose proof (W2 trunk eq_refl) as D5. pose proof (W2 snow eq_refl) as D6.
  unfold total in T3, U3, V3, W3.
  split.
  { intros ty. rewrite Hsame. apply W1. }
  cbn [listOf] in *.
  rewrite Etr, Esn, Eau, Efo, Ede, Egi, Eca.
  repeat match goal with
         | H : _ = _ :> list ParticleData |- _ =>
             apply (f_equal length) in H
         end.
  simpl in *.
  split; [lia|]. split; [lia|]. split; [lia|]. split; [lia|].
  exact Hfit.
Qed.

(** X5.  After the constructor every typed list holds particles of its own
    type only; the trunk, snow and aura lists have 3000, 3000 and 500
    particles, the four tree-volume lists 12000 between them; and there are
    seven meshes, the mesh of each type with exactly one instance slot per
    particle of its list. *)
Theorem populations_by_type (src : nat -> R) :
  let s := run ParticleSystem.constructor src in
  sorted_by_type s
  /\ length (trunkParticles s) = trunkCount
  /\ length (snowParticles s) = snowCount
  /\ length (auraParticles s) = auraCount
  /\ (length (foliageParticles s) + length (decorationParticles s)
      + length (giftParticles s) + length (candyParticles s))%nat
     = particleCount
  /\ meshes_fit s.
Proof. intros. eapply populations_spec; eassumption. Qed.

End PopulationFacts.

Section FrameShape.
Import Random ParticleSystem.
Local Open Scope R_scope.

Lemma updateAura_from_lengths time l : forall i mesh,
  length (updateAura_from time i l mesh).1 = length l
  /\ length (instanceMatrix (updateAura_from time i l mesh).2)
     = length (instanceMatrix mesh).
Proof.
  induction l as [|p l IH]; intros i mesh; simpl; [now split|].
  specialize (IH (S i) (setMatrixAt mesh i
                          (auraMatrix time (updateAuraParticle time p)))).
  destruct (updateAura_from time (S i) l _) as [rest' mesh']. simpl in *.
  destruct IH as [A B]. split; [now rewrite A|].
  rewrite B. apply length_insert.
Qed.

Lemma updateSnow_lengths time snowDensity snowSpeed src (Hsrc : uniform src)
    (l : list ParticleData) (mesh : InstancedMesh) k :
  length (instanceMatrix mesh) = length l ->
  let r := (updateSnow time snowDensity snowSpeed l mesh src k).1 in
  length r.1 = length l /\ length (instanceMatrix r.2) = length l.
Proof.
  intros Hm. cbv zeta. unfold updateSnow.
  pose proof (slot_loop _ src _
                (updateSnowSlot_body time snowSpeed
                   (Qfloor (inject_Z (Z.of_nat (length l)) * snowDensity))
                   src Hsrc)
                (length l) 0 l mesh k ltac:(lia) Hm) as F.
  cbv zeta in F. destruct F as (F1 & F2 & _). now split.
Qed.

Lemma meshes_fit_inv s :
  meshes_fit s ->
  exists m0 m1 m2 m3 m4 m5 m6,
    meshes s = [m0; m1; m2; m3; m4; m5; m6]
    /\ length (instanceMatrix m0) = length (foliageParticles s)
    /\ length (instanceMatrix m1) = length (decorationParticles s)
    /\ length (instanceMatrix m2) = length (trunkParticles s)
    /\ length (instanceMatrix m3) = length (snowParticles s)
    /\ length (instanceMatrix m4) = length (auraParticles s)
    /\ length (instanceMatrix m5) = length (giftParticles s)
    /\ length (instanceMatrix m6) = length (candyParticles s).
Proof.
  intros [H7 Hfit].
  destruct (meshes s) as [|m0 [|m1 [|m2 [|m3 [|m4 [|m5 [|m6 [|]]]]]]]] eqn:E;
    try discriminate.
  exists m0, m1, m2, m3, m4, m5, m6. split; [reflexivity|].
  pose proof (Hfit foliage) as F0. pose proof (Hfit decoration) as F1.
  pose proof (Hfit trunk) as F2. pose proof (Hfit snow) as F3.
  pose proof (Hfit aura) as F4. pose proof (Hfit gift) as F5.
  pose proof (Hfit candy) as F6.
  simpl in *. repeat split; congruence.
Qed.

Lemma update_shape (f : FrameInput) src (Hsrc : uniform src) s k :
  meshes_fit s ->
  exists s',
    (updateWith f s src k).1 = Some s'
    /\ meshes_fit s'
    /\ forall ty, length (listOf ty s') = length (listOf ty s).
Proof.
  intros Hfit.
  destruct (meshes_fit_inv s Hfit)
    as (m0 & m1 & m2 & m3 & m4 & m5 & m6 & E & H0 & H1 & H2 & H3 & H4 & H5 & H6).
  unfold updateWith, update. rewrite E. unfold bind.
  repeat match goal with
  | |- context [updateList ?t ?mp ?d ?tw ?td ?dd ?l ?m ?b 1.0%Q src ?kk] =>
      let H := fresh "L" in
      pose proof (updateList_slots t mp d tw td dd b src Hsrc l m kk
                    ltac:(assumption)) as H;
      cbv zeta in H; destruct H as (? & ? & _ & _);
      destruct (updateList t mp d tw td dd l m b 1.0%Q src kk) as [[? ?] ?];
      cbn [fst snd] in *
  end.
  match goal with
  | |- context [updateSnow ?t ?sd ?ss ?l ?m src ?kk] =>
      pose proof (updateSnow_lengths t sd ss src Hsrc l m kk
                    ltac:(assumption)) as LS;
      cbv zeta in LS; destruct LS as [? ?];
      destruct (updateSnow t sd ss l m src kk) as [[? ?] ?];
      cbn [fst snd] in *
  end.
  pose proof (updateAura_from_lengths (f_time f) (auraParticles s) 0 m4)
    as [A1 A2].
  fold (updateAura (f_time f) (auraParticles s) m4) in A1, A2.
  destruct (updateAura (f_time f) (auraParticles s) m4) as [? ?].
  cbn [fst snd ret] in *.
  eexists. split; [reflexivity|]. split.
  - split; [reflexivity|]. intros []; simpl; f_equal; congruence.
  - intros []; simpl; congruence.
Qed.

Lemma updateFrames_shape fs : forall src (Hsrc : uniform src) s k,
  meshes_fit s ->
  exists s',
    (updateFrames fs s src k).1 = Some s'
    /\ meshes_fit s'
    /\ forall ty, length (listOf ty s') = length (listOf ty s).
Proof.
  induction fs as [|f fs IH]; intros src Hsrc s k Hfit.
  - exists s. split; [reflexivity|]. split; [exact Hfit | reflexivity].
  - destruct (update_shape f src Hsrc s k Hfit) as (s1 & E1 & F1 & L1).
    change (updateFrames (f :: fs) s src k)
      with (let (r, k') := updateWith f s src k in
            match r with
            | Some s' => updateFrames fs s'
            | None => ret None
            end src k').
    destruct (updateWith f s src k) as [r k']. simpl in E1. subst r.
    destruct (IH src Hsrc s1 k' F1) as (s' & E & F & L).
    exists s'. split; [exact E|]. split; [exact F|].
    intros ty. now rewrite L, L1.
Qed.

(** X6.  Once constructed, the system can be updated for any number of
    frames with any inputs and any draws: [update] never meets a missing
    mesh, every typed list keeps its length, and every mesh keeps one
    instance slot per particle of its list. *)
Theorem frames_never_throw
    (fs : list FrameInput) (src : nat -> R) (Hsrc : uniform src) :
  exists s0 k0 s',
    ParticleSystem.constructor src 0%nat = (s0, k0)
    /\ (updateFrames fs s0 src k0).1 = Some s'
    /\ run (s <- ParticleSystem.constructor ;; updateFrames fs s)%rand src
       = Some s'
    /\ meshes_fit s'
    /\ forall ty, length (listOf ty s') = length (listOf ty s0).
Proof.
  pose proof (populations_spec src) as P. cbv zeta in P.
  destruct P as (_ & _ & _ & _ & _ & Hfit).
  unfold run in *. unfold bind.
  destruct (ParticleSystem.constructor src 0%nat) as [s0 k0] eqn:E.
  simpl in Hfit.
  destruct (updateFrames_shape fs src Hsrc s0 k0 Hfit) as (s' & E' & F & L).
  exists s0, k0, s'. split; [reflexivity|]. split; [exact E'|].
  split; [exact E'|]. split; [exact F | exact L].
Qed.

End FrameShape.

(** X6 over two frames, with every draw equal to one half. *)
Lemma frames_never_throw_witness :
  exists s',
    Random.run
      (s <- ParticleSystem.constructor ;;
       ParticleSystem.updateFrames
         [ ParticleSystem.mkFrameInput 0%R None 0%R 1%R 0.5%Q 1%R 1%Q 1%Q
         ; ParticleSystem.mkFrameInput 1%R None 1.5%R 0%R 2%Q 1%R 2%Q 0.5%Q ]
         s)%rand
      (fun _ => 0.5%R) = Some s'.
Proof.
  assert (H : Random.uniform (fun _ => 0.5%R)) by (intros k; lra).
  destruct (frames_never_throw
              [ ParticleSystem.mkFrameInput 0%R None 0%R 1%R 0.5%Q 1%R 1%Q 1%Q
              ; ParticleSystem.mkFrameInput 1%R None 1.5%R 0%R 2%Q 1%R 2%Q
                  0.5%Q ]
              (fun _ => 0.5%R) H) as (s0 & k0 & s' & _ & _ & E & _).
  exists s'. exact E.
Defined.

(** ** Theme switch *)

Section ThemeFacts.
Import Random ParticleSystem.
Local Open Scope R_scope.

Lemma forEach_Forall2 {A B} (f : A -> Rand B) (src : nat -> R)
    (P : A -> B -> Prop) :
  (forall a k, P a (f a src k).1) ->
  forall l k, Forall2 P l (forEach f l src k).1.
Proof.
  intros Hf. induction l as [|a l IH]; intros k; simpl.
  - constructor.
  - unfold bind. pose proof (Hf a k) as Ha.
    destruct (f a src k) as [b k1]. specialize (IH k1).
    destruct (forEach f l src k1) as [bs k2]. simpl in *.
    now constructor.
Qed.

Lemma palette_pick (decoColors : list Color) u :
  decoColors <> [] -> 0 <= u < 1 ->
  exists c,
    at_index decoColors (Zfloor (u * INR (length decoColors))) = Some c
    /\ c ∈ decoColors.
Proof.
  intros Hne Hu.
  assert (Hlen : 0 < INR (length decoColors)).
  { apply lt_0_INR. destruct decoColors; [contradiction | simpl; lia]. }
  set (x := u * INR (length decoColors)).
  assert (Hx : 0 <= x < INR (length decoColors)) by (unfold x; nra).
  pose proof (Zfloor_bound x) as Hb.
  assert (H0 : (0 <= Zfloor x)%Z) by (apply Zfloor_lub; simpl; lra).
  assert (H1 : (Zfloor x < Z.of_nat (length decoColors))%Z).
  { apply lt_IZR. rewrite <- INR_IZR_INZ. lra. }
  unfold at_index. rewrite (proj2 (Z.leb_le 0 (Zfloor x)) H0).
  destruct (lookup_lt_is_Some_2 decoColors (Z.to_nat (Zfloor x))
              ltac:(lia)) as [c Hc].
  exists c. split; [exact Hc|]. eapply list_elem_of_lookup_2. exact Hc.
Qed.

Lemma themeColors_palette theme : (themeColors theme).2 <> [].
Proof.
  unfold themeColors.
  destruct (decide (theme = "icy")); [discriminate|].
  destruct (decide (theme = "golden")); discriminate.
Qed.

(** X7.  [updateColors] recolours the foliage and the decoration lists
    and nothing else (trunk, gift, candy, snow, aura and the meshes are as
    before; a recoloured particle differs in [color] only).  Every foliage
    particle gets the theme's gradient at a ratio in [0, 1] with a
    lightness offset in [-0.05, 0.05); every decoration particle gets a
    colour of the theme's palette.  Any theme name other than 'icy' and
    'golden' behaves as 'classic'. *)
Theorem updateColors_effect
    (theme : string) (s : ParticleSystem.t) (src : nat -> R) (k : nat)
    (Hsrc : uniform src) :
  let s' := (updateColors theme s src k).1 in
  let foliageBase := (themeColors theme).1.1 in
  let foliageTip := (themeColors theme).1.2 in
  let decoColors := (themeColors theme).2 in
  Forall2 (fun p p' =>
             exists h dl, 0 <= h <= 1 /\ -0.05 <= dl < 0.05
               /\ p' = set_color p
                         (ColorOffsetHSL (ColorLerp foliageBase foliageTip h)
                            0 0 dl))
    (foliageParticles s) (foliageParticles s')
  /\ Forall2 (fun p p' => exists c, c ∈ decoColors /\ p' = set_color p c)
       (decorationParticles s) (decorationParticles s')
  /\ trunkParticles s' = trunkParticles s
  /\ giftParticles s' = giftParticles s
  /\ candyParticles s' = candyParticles s
  /\ snowParticles s' = snowParticles s
  /\ auraParticles s' = auraParticles s
  /\ meshes s' = meshes s
  /\ (if decide (theme = "icy") then True
      else if decide (theme = "golden") then True
      else updateColors theme s = updateColors "classic" s).
Proof.
  cbv zeta.
  set (L := if decide (theme = "icy") then True else _).
  assert (Hlast : L).
  { subst L. unfold updateColors, themeColors.
    destruct (decide (theme = "icy")); [exact I|].
    destruct (decide (theme = "golden")); [exact I | reflexivity]. }
  clearbody L.
  pose proof (themeColors_palette theme) as Hne.
  unfold updateColors.
  destruct (themeColors theme) as [[base tip] deco]. cbn [fst snd] in *.
  unfold bind.
  pose proof (forEach_Forall2 (recolorFoliage base tip) src
                (fun p p' =>
                   exists h dl, 0 <= h <= 1 /\ -0.05 <= dl < 0.05
                     /\ p' = set_color p
                               (ColorOffsetHSL (ColorLerp base tip h) 0 0 dl)))
    as F.
  pose proof (forEach_Forall2 (recolorDecoration deco) src
                (fun p p' => exists c, c ∈ deco /\ p' = set_color p c)) as D.
  specialize (F ltac:(
    intros p k0; unfold recolorFoliage, bind, Math_random, ret; simpl;
    pose proof (Hsrc k0);
    eexists _, _; split; [|split; [|reflexivity]];
    [ split; [apply Rmax_l | apply Rmax_lub; [lra | apply Rmin_l]]
    | lra ]) (foliageParticles s) k).
  destruct (forEach (recolorFoliage base tip) (foliageParticles s) src k)
    as [fol k1].
  specialize (D ltac:(
    intros p k0; unfold recolorDecoration, bind, Math_random;
    destruct (palette_pick deco (src k0) Hne (Hsrc k0)) as (c & Ec & Hc);
    rewrite Ec; exists c; split; [exact Hc | reflexivity])
    (decorationParticles s) k1).
  destruct (forEach (recolorDecoration deco) (decorationParticles s) src k1)
    as [dec k2].
  cbn [fst snd ret] in *.
  split; [exact F|]. split; [exact D|].
  repeat (split; [reflexivity|]). exact Hlast.
Qed.

End ThemeFacts.

(** X7 at the icy theme on a system with one foliage and one decoration
    particle, every draw one half: the foliage particle takes the icy
    gradient, the decoration particle one of the three icy colours, and
    both keep everything but their colour. *)
Lemma updateColors_effect_witness :
  let leaf := ParticleSystem.sampleParticle in
  let ball := ParticleSystem.mkParticle 1%Z (Vector3.new 1 6 0)%R
                (Vector3.new 1 6 0)%R (ColorHex "#FF0000") 0.1%R 0.1%R 0%Z
                0%R ParticleSystem.decoration (Vector3.new 1 0 0)%R in
  let s := ParticleSystem.push ball
             (ParticleSystem.push leaf ParticleSystem.empty) in
  let s' := (ParticleSystem.updateColors "icy" s (fun _ => 0.5%R) 0%nat).1 in
  (exists h dl,
     (0 <= h <= 1)%R /\ (-0.05 <= dl < 0.05)%R
     /\ ParticleSystem.foliageParticles s'
        = [ParticleSystem.set_color leaf
             (ColorOffsetHSL
                (ColorLerp (ColorHex "#001a33") (ColorHex "#80d4ff") h)
                0 0 dl)])
  /\ (exists c,
        c ∈ [ColorHex "#ffffff"; ColorHex "#00ffff"; ColorHex "#0044cc"]
        /\ ParticleSystem.decorationParticles s'
           = [ParticleSystem.set_color ball c]).
Proof.
  intros leaf ball s s'.
  assert (H : Random.uniform (fun _ => 0.5%R)) by (intros k; lra).
  pose proof (updateColors_effect "icy" s (fun _ => 0.5%R) 0%nat H) as W.
  cbv zeta in W. fold s' in W. destruct W as (F & D & _).
  change (ParticleSystem.foliageParticles s) with [leaf] in F.
  change (ParticleSystem.decorationParticles s) with [ball] in D.
  change (ParticleSystem.themeColors "icy")
    with (ColorHex "#001a33", ColorHex "#80d4ff",
          [ColorHex "#ffffff"; ColorHex "#00ffff"; ColorHex "#0044cc"])
    in F, D.
  cbn [fst snd] in F, D.
  apply Forall2_cons_inv_l in F as (leaf' & rest & (h & dl & Hh & Hdl & ->)
                                    & Hrest & EF).
  apply Forall2_nil_inv_l in Hrest as ->.
  apply Forall2_cons_inv_l in D as (ball' & rest' & (c & Hc & ->)
                                    & Hrest' & ED).
  apply Forall2_nil_inv_l in Hrest' as ->.
  split.
  - exists h, dl. split; [exact Hh|]. split; [exact Hdl | exact EF].
  - exists c. split; [exact Hc | exact ED].
Defined.

(** ** Generation: where the particles are put *)

Section PlacementFacts.
Import Random ParticleSystem.
Local Open Scope R_scope.

Lemma Math_pow_lt_1 u : 0 <= u < 1 -> Math_pow u 0.8 < 1.
Proof.
  intros Hu. unfold Math_pow. destruct (Req_dec_T u 0) as [|Hne]; [lra|].
  unfold Rpower. rewrite <- exp_0. apply exp_increasing.
  assert (Hl : ln u < 0) by (rewrite <- ln_1; apply ln_increasing; lra).
  nra.
Qed.

Lemma layerIndex_le_9 u : 0 <= u < 1 -> (layerIndex u <= 9)%Z.
Proof.
  intros Hu. unfold layerIndex.
  pose proof (Math_pow_lt_1 u Hu) as Hp.
  pose proof (Zfloor_bound (Math_pow u 0.8 * layerCount)) as Hb.
  assert (H : (Zfloor (Math_pow u 0.8 * layerCount) < 10)%Z).
  { apply lt_IZR. unfold layerCount in *. lra. }
  lia.
Qed.

Lemma sqrt_unit u : 0 <= u < 1 -> 0 <= sqrt u < 1.
Proof.
  intros Hu. split; [apply sqrt_pos|].
  rewrite <- sqrt_1. apply sqrt_lt_1_alt. lra.
Qed.

Lemma height_y_range u : 0 <= u < 1 -> 0.19 < height_y u < 12.81.
Proof.
  intros Hu. unfold height_y, hNorm, tightResidue, treeHeight, layerCount.
  pose proof (layerResidue_range u) as Hr.
  pose proof (IZR_le _ _ (layerIndex_nonneg u)) as H0.
  pose proof (IZR_le _ _ (layerIndex_le_9 u Hu)) as H9.
  simpl in H0, H9. lra.
Qed.

Lemma tree_target_bounds u u2 a (i : nat) :
  0 <= u < 1 -> 0 <= u2 < 1 ->
  let y := height_y u in
  let r := baseR u
           * ((0.3 + 0.7 * sqrt u2)
              * (0.8 + 0.4 * (sin (y * 2.0) * cos (INR i * 0.1) * 0.5 + 0.5)))
  in
  let cone := 5.5 - ((y + 2.0 - 2) / 13) * 5 in
  0 < cone
  /\ cos a * r * (cos a * r) + sin a * r * (sin a * r)
     < (1.68 * cone) * (1.68 * cone).
Proof.
  intros Hu Hu2. cbv zeta.
  pose proof (height_y_range u Hu) as Hy.
  pose proof (sqrt_unit u2 Hu2) as Hq.
  pose proof (flare_bounds (layerResidue u) (layerResidue_range u)) as Hf.
  pose proof (SIN_bound (height_y u * 2.0)) as Hs.
  pose proof (COS_bound (INR i * 0.1)) as Hc.
  pose proof (sin2_cos2 a) as T. unfold Rsqr in T.
  set (sc := sin (height_y u * 2.0) * cos (INR i * 0.1)).
  assert (Hsc : -1 <= sc <= 1) by (unfold sc; nra).
  set (rr := (0.3 + 0.7 * sqrt u2) * (0.8 + 0.4 * (sc * 0.5 + 0.5))).
  assert (Hrr : 0.24 <= rr < 1.2) by (unfold rr; nra).
  unfold baseR, currentMaxRadius, bottomRadius, topRadius, treeHeight.
  set (y := height_y u) in *.
  set (fl := flare (layerResidue u)) in *.
  set (cone := 5.5 - (y + 2.0 - 2) / 13 * 5).
  assert (Hcone : 0.5 < cone) by (unfold cone; lra).
  replace (5.5 - y / 13.0 * (5.5 - 0.5)) with cone by (unfold cone; lra).
  assert (Hk : 0 < fl * rr < 1.68) by nra.
  set (q := fl * rr) in *.
  split; [lra|].
  replace (cos a * (cone * fl * rr) * (cos a * (cone * fl * rr))
           + sin a * (cone * fl * rr) * (sin a * (cone * fl * rr)))
    with ((cone * q) * (cone * q) * (sin a * sin a + cos a * cos a))
    by (unfold q; ring).
  rewrite T, Rmult_1_r.
  assert (Hcq : 0 < cone * q < 1.68 * cone) by nra.
  set (cq := cone * q) in *. set (b := 1.68 * cone) in *. nra.
Qed.

Lemma tree_particle_placed i src k :
  uniform src -> wellPlaced (generateTreeParticle i src k).1.
Proof.
  intros Hsrc.
  pose proof (Hsrc k) as H1. pose proof (Hsrc (S k)) as H2.
  pose proof (tree_target_bounds (src k) (src (S k))
                (src (S (S k)) * PI * 2) i H1 H2) as [Hcone Hrad].
  pose proof (height_y_range (src k) H1) as Hy.
  pose proof (layerIndex_nonneg (src k)) as L0.
  pose proof (layerIndex_le_9 (src k) H1) as L9.
  unfold generateTreeParticle, bind, Math_random, ret.
  repeat match goal with
         | |- context [Rlt_dec ?a ?b] => destruct (Rlt_dec a b)
         end;
    unfold wellPlaced; cbn [fst type]; unfold inTreeVolume;
    cbn [targetPosition currentPosition layer id currentScale phaseOffset
         baseScale type Vector3.x Vector3.y Vector3.z];
    repeat match goal with
           | |- context [src ?n] =>
               lazymatch goal with
               | _ : 0 <= src n < 1 |- _ => fail
               | _ => pose proof (Hsrc n)
               end
           end;
    (split; [lia|]); (split; [lia|]); (split; [lra|]);
    (split; [exact Hcone|]); (split; [exact Hrad|]);
    (split; [reflexivity|]); repeat split; lra.
Qed.

Lemma trunk_particle_placed src k :
  uniform src -> wellPlaced (generateTrunkParticle src k).1.
Proof.
  intros Hsrc.
  unfold generateTrunkParticle, bind, Math_random, ret.
  unfold wellPlaced; cbn [fst type]; unfold inTrunk;
    cbn [targetPosition currentPosition currentScale baseScale type
         Vector3.x Vector3.y Vector3.z].
  pose proof (Hsrc k) as H1. pose proof (Hsrc (S (S k))) as H3.
  pose proof (Hsrc (S (S (S (S (S (S (S k)))))))) as H8.
  pose proof (sqrt_unit _ H3) as Hq.
  pose proof (sin2_cos2 (src (S k) * PI * 2)) as T. unfold Rsqr in T.
  set (r := (0.4 + 0.6 * sqrt (src (S (S k)))) * trunkRadius).
  assert (Hr : 0.56 <= r < 1.4) by (unfold r, trunkRadius; lra).
  set (sn := sin (src (S k) * PI * 2)) in *.
  set (cs := cos (src (S k) * PI * 2)) in *.
  replace (cs * r * (cs * r) + sn * r * (sn * r))
    with (r * r * (sn * sn + cs * cs)) by ring.
  rewrite T, Rmult_1_r. unfold trunkHeight.
  split; [reflexivity|]. split; [lra|]. split; [nra|].
  split; [reflexivity|]. split; [reflexivity | lra].
Qed.

Lemma snow_particle_placed src k :
  uniform src -> wellPlaced (generateSnowParticle src k).1.
Proof.
  intros Hsrc.
  unfold generateSnowParticle, bind, Math_random, ret.
  unfold wellPlaced; cbn [fst type]; unfold inSnowBox;
    cbn [targetPosition currentPosition currentScale baseScale type
         explosionVelocity Vector3.x Vector3.y Vector3.z].
  pose proof (Hsrc k). pose proof (Hsrc (S k)). pose proof (Hsrc (S (S k))).
  pose proof (Hsrc (S (S (S k)))). pose proof (Hsrc (S (S (S (S k))))).
  repeat split; lra.
Qed.

Lemma aura_particle_placed src k :
  uniform src -> wellPlaced (generateAuraParticle src k).1.
Proof.
  intros Hsrc.
  unfold generateAuraParticle, bind, Math_random, ret.
  unfold wellPlaced; cbn [fst type]; unfold onAuraShell;
    cbn [targetPosition currentPosition currentScale type
         Vector3.x Vector3.y Vector3.z].
  pose proof (Hsrc (S (S k))) as H3.
  set (theta := src k * PI * 2).
  set (phi := acos (2 * src (S k) - 1)).
  set (r := 10 + src (S (S k)) * 15).
  assert (Hr : 10 <= r < 25) by (unfold r; lra).
  pose proof (sin2_cos2 theta) as T1. pose proof (sin2_cos2 phi) as T2.
  unfold Rsqr in T1, T2.
  set (s1 := sin phi) in *. set (c1 := cos phi) in *.
  set (s2 := sin theta) in *. set (c2 := cos theta) in *.
  replace (r * s1 * c2 * (r * s1 * c2)
           + (r * s1 * s2 + 8 - 8) * (r * s1 * s2 + 8 - 8)
           + r * c1 * (r * c1))
    with (r * r * (s1 * s1 * (s2 * s2 + c2 * c2) + c1 * c1)) by ring.
  rewrite T1, Rmult_1_r, T2, Rmult_1_r.
  split; [reflexivity|]. split; [reflexivity|]. split; [reflexivity|]. nra.
Qed.

(** X8.  Whatever the draws, after the constructor every particle of the
    four tree-volume lists is in one of the layers 0 to 9, has its target
    between heights 2 and 15 and inside 1.68 times the cone radius at that
    height, starts inside the cube of half-side 30 at scale 0, and has the
    base scale range of its type; every trunk particle lies in the shell
    between radii 0.56 and 1.4 from height -2 to 4; every aura particle is
    at its target, between 10 and 25 from the point (0, 8, 0); every snow
    particle is in its box with the explosion vector (0, -1, 0). *)
Theorem generated_placement (src : nat -> R) (Hsrc : uniform src) :
  let s := run ParticleSystem.constructor src in
  Forall inTreeVolume (foliageParticles s)
  /\ Forall inTreeVolume (decorationParticles s)
  /\ Forall inTreeVolume (giftParticles s)
  /\ Forall inTreeVolume (candyParticles s)
  /\ Forall inTrunk (trunkParticles s)
  /\ Forall inSnowBox (snowParticles s)
  /\ Forall onAuraShell (auraParticles s).
Proof.
  cbv zeta.
  pose proof (populations_spec src) as P. cbv zeta in P.
  destruct P as (Hsorted & _).
  assert (H0 : Forall (Forall wellPlaced) (populations empty)).
  { unfold populations, empty. simpl. repeat constructor. }
  revert Hsorted.
  unfold run, ParticleSystem.constructor, generate, bind.
  unfold generateTreeData, generateTrunkData, generateSnowData,
    generateAuraData.
  generalize particleCount, trunkCount, snowCount, auraCount.
  intros n1 n2 n3 n4.
  pose proof (push_loop wellPlaced generateTreeParticle src
                (fun i k => tree_particle_placed i src k Hsrc)
                n1 0 empty 0 H0) as [T1 _].
  destruct (for_loop n1 0 _ empty src 0%nat) as [s1 k1].
  pose proof (push_loop wellPlaced (fun _ => generateTrunkParticle) src
                (fun _ k => trunk_particle_placed src k Hsrc) n2 0 s1 k1 T1)
    as [U1 _].
  destruct (for_loop n2 0 _ s1 src k1) as [s2 k2].
  pose proof (push_loop wellPlaced (fun _ => generateSnowParticle) src
                (fun _ k => snow_particle_placed src k Hsrc) n3 0 s2 k2 U1)
    as [V1 _].
  destruct (for_loop n3 0 _ s2 src k2) as [s3 k3].
  pose proof (push_loop wellPlaced (fun _ => generateAuraParticle) src
                (fun _ k => aura_particle_placed src k Hsrc) n4 0 s3 k3 V1)
    as [W1 _].
  destruct (for_loop n4 0 _ s3 src k3) as [s4 k4].
  cbn [fst snd] in *. unfold ret. cbn [fst].
  intros Hsorted.
  destruct (constructed_meshes_fit s4) as [_ Hsame].
  set (s5 := initInstances (createMeshes s4)) in *.
  assert (Hty : forall ty, Forall (fun p => type p = ty /\ wellPlaced p)
                             (listOf ty s5)).
  { intros ty. apply Forall_and. split; [apply Hsorted|].
    rewrite Hsame. unfold populations in W1.
    repeat match goal with
           | H : Forall _ (_ :: _) |- _ => apply Forall_cons in H as [? H]
           end.
    destruct ty; assumption. }
  pose proof (Hty foliage) as F1. pose proof (Hty decoration) as F2.
  pose proof (Hty gift) as F3. pose proof (Hty candy) as F4.
  pose proof (Hty trunk) as F5. pose proof (Hty snow) as F6.
  pose proof (Hty aura) as F7. cbn [listOf] in *.
  repeat split;
    (eapply Forall_impl; [eassumption|]);
    intros p [E W]; unfold wellPlaced in W; rewrite E in W; exact W.
Qed.

End PlacementFacts.

(** X8 with every draw equal to one half. *)
Lemma generated_placement_witness :
  Forall ParticleSystem.inSnowBox
    (ParticleSystem.snowParticles
       (Random.run ParticleSystem.constructor (fun _ => 0.5%R))).
Proof.
  assert (H : Random.uniform (fun _ => 0.5%R)) by (intros k; lra).
  pose proof (generated_placement (fun _ => 0.5%R) H) as W.
  cbv zeta in W. destruct W as (_ & _ & _ & _ & _ & W & _). exact W.
Defined.

(** ** More on the cards *)

Section CardPlacement.
Import Random OrnamentSystem.
Local Open Scope R_scope.

Lemma normalize_zero_xz :
  Vector3.normalize (Vector3.new 0 0 0) = Vector3.new 0 0 0.
Proof.
  unfold Vector3.normalize, Vector3.divideScalar, Vector3.multiplyScalar.
  simpl. f_equal; ring.
Qed.

Lemma length_zero : Vector3.length (Vector3.new 0 0 0) = 0.
Proof.
  unfold Vector3.length, Vector3.lengthSq. simpl.
  replace (0 * 0 + 0 * 0 + 0 * 0) with 0 by ring. apply sqrt_0.
Qed.

(** The horizontal unit direction [createOrnament] places a card along. *)
Lemma card_direction x z :
  let v0 := Vector3.normalize (Vector3.new x 0 z) in
  let v := if Req_dec_T (Vector3.length v0) 0 then Vector3.new 0 0 1
           else v0 in
  Vector3.x v * Vector3.x v + Vector3.z v * Vector3.z v = 1
  /\ (if Req_dec_T (x * x + z * z) 0 then v = Vector3.new 0 0 1
      else exists c, 0 < c /\ Vector3.x v = c * x /\ Vector3.z v = c * z).
Proof.
  cbv zeta. destruct (Req_dec_T (x * x + z * z) 0) as [E|N].
  - assert (x = 0 /\ z = 0) as [-> ->] by (split; nra).
    rewrite normalize_zero_xz, length_zero.
    destruct (Req_dec_T 0 0) as [_|C]; [|now contradiction C].
    simpl. split; [ring | reflexivity].
  - assert (Hp : 0 < Vector3.lengthSq (Vector3.new x 0 z)).
    { unfold Vector3.lengthSq. simpl. nra. }
    pose proof (length_normalize _ Hp) as L1.
    pose proof (lengthSq_normalize _ Hp) as L2.
    pose proof (normalize_y_zero x z) as Y.
    destruct (Req_dec_T _ 0) as [C|_]; [lra|].
    split.
    + unfold Vector3.lengthSq in L2. rewrite Y in L2. lra.
    + rewrite (normalize_nonzero _ Hp).
      exists (1 / Vector3.length (Vector3.new x 0 z)).
      pose proof (length_pos _ Hp) as Hl.
      split; [apply Rdiv_lt_0_compat; lra|].
      unfold Vector3.multiplyScalar. simpl. split; ring.
Qed.

(** X9.  [createOrnament] keeps the configured height and angle of a card
    and puts it at the horizontal distance
    [max(0.5, 5.5 - (y / 13) * 5) + 0.5], at least 1, from the tree axis
    (along +z when the configured position is on the axis).  The card
    carries its data, on the mesh and on the hit box, is not expanded, has
    scale 0.8, keeps its position and scale as the original snapshot, and
    its explosion vector has length 1 and points upwards. *)
Theorem card_on_the_surface (d : Ornament) (src : nat -> R) (k : nat) :
  let m := (createOrnament d src k).1 in
  let pos := position d in
  let radius := Rmax 0.5 (5.5 - (Vector3.y pos / 13) * 5) + 0.5 in
  let p := meshPosition m in
  Vector3.y p = Vector3.y pos
  /\ Vector3.x p * Vector3.x p + Vector3.z p * Vector3.z p = radius * radius
  /\ 1 <= radius
  /\ (if Req_dec_T (Vector3.x pos * Vector3.x pos
                    + Vector3.z pos * Vector3.z pos) 0
      then p = Vector3.new 0 (Vector3.y pos) radius
      else exists c, 0 < c /\ Vector3.x p = c * Vector3.x pos
                     /\ Vector3.z p = c * Vector3.z pos)
  /\ data (userData m) = d
  /\ hitData (hitBox m) = d
  /\ isOrnament (userData m) = true
  /\ isExpanded (userData m) = false
  /\ originalPosition (userData m) = p
  /\ originalScale (userData m) = meshScale m
  /\ meshScale m = Vector3.new 0.8 0.8 0.8
  /\ map (material m) = None
  /\ Vector3.length (explosionVelocity (userData m)) = 1
  /\ 0 < Vector3.y (explosionVelocity (userData m)).
Proof.
  cbv zeta. unfold createOrnament, bind, Math_random, ret.
  cbn [fst meshPosition userData data hitBox hitData isOrnament isExpanded
       originalPosition originalScale meshScale material map
       explosionVelocity].
  destruct (card_direction (Vector3.x (position d)) (Vector3.z (position d)))
    as [Hunit Hdir]. cbv zeta in Hunit, Hdir.
  set (v := if Req_dec_T _ 0 then Vector3.new 0 0 1 else _) in *.
  clearbody v.
  set (radius := Rmax 0.5 (5.5 - Vector3.y (position d) / 13.0 * (5.5 - 0.5))
                 + 0.5).
  assert (Er : Rmax 0.5 (5.5 - Vector3.y (position d) / 13 * 5) + 0.5
               = radius).
  { unfold radius. do 2 f_equal. lra. }
  rewrite Er.
  assert (Hr : 1 <= radius).
  { unfold radius. pose proof (Rmax_l 0.5
      (5.5 - Vector3.y (position d) / 13.0 * (5.5 - 0.5))). lra. }
  cbn [Vector3.x Vector3.y Vector3.z].
  assert (Hsq : Vector3.x v * radius * (Vector3.x v * radius)
                + Vector3.z v * radius * (Vector3.z v * radius)
                = radius * radius).
  { transitivity (radius * radius
                  * (Vector3.x v * Vector3.x v + Vector3.z v * Vector3.z v));
      [ring | rewrite Hunit; ring]. }
  split; [reflexivity|]. split; [exact Hsq|]. split; [exact Hr|]. split.
  { destruct (Req_dec_T _ 0).
    - rewrite Hdir. simpl. f_equal; ring.
    - destruct Hdir as (c & Hc & Ex & Ez).
      exists (c * radius). split; [nra|]. rewrite Ex, Ez. split; ring. }
  repeat (split; [reflexivity|]).
  assert (Hpos : 0 < Vector3.x v * radius * (Vector3.x v * radius)
                     + Vector3.z v * radius * (Vector3.z v * radius))
    by (rewrite Hsq; nra).
  split; [now apply renormalized_after_y_set|].
  set (h := Vector3.normalize
              (Vector3.new (Vector3.x v * radius) 0 (Vector3.z v * radius))).
  assert (Hh : 0 < Vector3.lengthSq (Vector3.setY h 0.2)).
  { unfold Vector3.lengthSq. simpl. nra. }
  rewrite (normalize_nonzero _ Hh). pose proof (length_pos _ Hh) as Hl.
  unfold Vector3.multiplyScalar. cbn [Vector3.y Vector3.setY].
  assert (0 < 1 / Vector3.length (Vector3.setY h 0.2))
    by (apply Rdiv_lt_0_compat; lra).
  nra.
Qed.

End CardPlacement.

Section CardSystemFacts.
Import Random OrnamentSystem.
Local Open Scope R_scope.

Lemma createOrnaments_spec rnd : forall (ds : list Ornament) s k,
  let s' := (createOrnaments ds s rnd k).1 in
  exists cards,
    ornaments s' = ornaments s ++ cards
    /\ Forall2 (fun d m => exists k', m = (createOrnament d rnd k').1) ds cards
    /\ loading s'
       = loading s
         ++ imap (fun j d => ((length (ornaments s) + j)%nat, OrnamentSystem.src d)) ds.
Proof.
  induction ds as [|d ds IH]; intros s k; cbv zeta.
  - exists []. simpl. rewrite !app_nil_r. repeat split. constructor.
  - change (createOrnaments (d :: ds) s rnd k)
      with (let (m, k1) := createOrnament d rnd k in
            createOrnaments ds
              (mkSystem (ornaments s ++ [m])
                 (loading s ++ [(length (ornaments s), OrnamentSystem.src d)]))
              rnd k1).
    destruct (createOrnament d rnd k) as [m k1] eqn:E.
    specialize (IH (mkSystem (ornaments s ++ [m])
                      (loading s ++ [(length (ornaments s),
                                      OrnamentSystem.src d)])) k1).
    cbv zeta in IH. destruct IH as (cards & A & B & C).
    exists (m :: cards). simpl in A, C. split; [|split].
    + rewrite A, <- app_assoc. reflexivity.
    + constructor; [|exact B]. exists k. now rewrite E.
    + rewrite C, <- app_assoc. simpl. f_equal. f_equal.
      * f_equal. lia.
      * apply imap_ext. intros j x _. simpl. f_equal.
        rewrite length_app. simpl. lia.
Qed.

(** X10.  The constructor builds one card per configured ornament, in the
    configured order, each by [createOrnament], and starts exactly one
    texture load per card, for the card's own [rnd]; when the load of card
    [j] delivers its image, that card, and no other, shows it. *)
Theorem one_card_per_ornament
    (ornamentImages : list Ornament) (rnd : nat -> R) (texture : Texture)
    (j : nat) :
  let s := run (OrnamentSystem.constructor ornamentImages) rnd in
  length (ornaments s) = length ornamentImages
  /\ Forall2 (fun d m => exists k, m = (createOrnament d rnd k).1)
       ornamentImages (ornaments s)
  /\ loading s = imap (fun i d => (i, OrnamentSystem.src d)) ornamentImages
  /\ (forall i, ornaments (loadCompletes j texture s) !! i
       = if decide (i = j)
         then (fun m => set_material m
                          (mkMaterial
                             (Some (mkTexture (image texture) "srgb")) true))
                <$> ornaments s !! i
         else ornaments s !! i).
Proof.
  cbv zeta. unfold run, OrnamentSystem.constructor.
  pose proof (createOrnaments_spec rnd ornamentImages (mkSystem [] []) 0)
    as (cards & A & B & C).
  set (s := (createOrnaments ornamentImages (mkSystem [] []) rnd 0%nat).1)
    in *.
  simpl in A, C.
  assert (Hlen : length (ornaments s) = length ornamentImages).
  { rewrite A. symmetry. eapply Forall2_length. exact B. }
  split; [exact Hlen|]. split; [now rewrite A|]. split; [exact C|].
  intros i. unfold loadCompletes. rewrite C, list_lookup_imap.
  destruct (ornamentImages !! j) as [d|] eqn:Ej; simpl.
  - destruct (lookup_lt_is_Some_2 (ornaments s) j) as [m Em].
    { rewrite Hlen. eapply lookup_lt_Some. exact Ej. }
    unfold onLoad. rewrite Em.
    destruct (decide (i = j)) as [->|Hne].
    + rewrite Em. simpl. apply list_lookup_insert_eq.
      eapply lookup_lt_Some. exact Em.
    + apply list_lookup_insert_ne. congruence.
  - destruct (decide (i = j)) as [->|_]; [|reflexivity].
    assert (ornaments s !! j = None) as ->; [|reflexivity].
    apply lookup_ge_None. rewrite Hlen. now apply lookup_ge_None.
Qed.

End CardSystemFacts.

Section CardRest.
Import OrnamentSystem.
Local Open Scope R_scope.

Lemma updateCard_at_rest time dispersion i m :
  isExpanded (userData m) = false -> dispersion <= 0.01 ->
  let op := originalPosition (userData m) in
  let m' := updateCard time dispersion i m in
  m' = set_position m (meshPosition m')
  /\ Vector3.x (meshPosition m') - Vector3.x op
     = 0.9 * (Vector3.x (meshPosition m) - Vector3.x op)
  /\ Vector3.z (meshPosition m') - Vector3.z op
     = 0.9 * (Vector3.z (meshPosition m) - Vector3.z op)
  /\ Vector3.y (meshPosition m') - Vector3.y op
     = 0.9 * (Vector3.y (meshPosition m) - Vector3.y op)
       + sin (time + INR i) * 0.002.
Proof.
  intros He Hd. cbv zeta. unfold updateCard. rewrite He.
  destruct (Rlt_dec 0.01 dispersion) as [C|_]; [lra|].
  destruct (Rlt_dec dispersion 0.2) as [_|C]; [|lra].
  simpl. repeat split; lra.
Qed.

Lemma updates_at_rest frames : forall (s : OrnamentSystem.t) i m,
  ornaments s !! i = Some m ->
  isExpanded (userData m) = false ->
  Forall (fun f => f.2 <= 0.01) frames ->
  let op := originalPosition (userData m) in
  -0.02 <= Vector3.y (meshPosition m) - Vector3.y op <= 0.02 ->
  exists m',
    ornaments (updates frames s) !! i = Some m'
    /\ m' = set_position m (meshPosition m')
    /\ Vector3.x (meshPosition m') - Vector3.x op
       = 0.9 ^ length frames * (Vector3.x (meshPosition m) - Vector3.x op)
    /\ Vector3.z (meshPosition m') - Vector3.z op
       = 0.9 ^ length frames * (Vector3.z (meshPosition m) - Vector3.z op)
    /\ -0.02 <= Vector3.y (meshPosition m') - Vector3.y op <= 0.02.
Proof.
  induction frames as [|f frames IH]; intros s i m Hi He Hd op Hy.
  - exists m. split; [exact Hi|]. split; [now destruct m|].
    simpl. repeat split; lra.
  - apply Forall_cons in Hd as [Hf Hd].
    destruct (updateCard_at_rest f.1 f.2 i m He Hf) as (E & Ex & Ez & Ey).
    set (m1 := updateCard f.1 f.2 i m) in *.
    assert (Hi1 : ornaments (update f.1 f.2 s) !! i = Some m1).
    { unfold update. simpl. rewrite list_lookup_imap, Hi. reflexivity. }
    assert (He1 : isExpanded (userData m1) = false) by (rewrite E; exact He).
    assert (Eop : originalPosition (userData m1) = op) by (now rewrite E).
    pose proof (SIN_bound (f.1 + INR i)) as Hs.
    fold op in Ex, Ez, Ey.
    destruct (IH (update f.1 f.2 s) i m1 Hi1 He1 Hd) as (m' & A & B & Cx & Cz & Cy).
    { rewrite Eop. lra. }
    rewrite Eop in Cx, Cz, Cy.
    exists m'. split; [exact A|]. split.
    { rewrite B, E. reflexivity. }
    simpl. rewrite Cx, Cz, Ex, Ez. repeat split; try lra; ring.
Qed.

(** X11.  While the dispersion stays at or below 0.01, a card that is not
    expanded and starts within 0.02 of its original height stays within
    0.02 of it for ever (the bob never accumulates), its horizontal offset
    from the original position is multiplied by 0.9 every frame, and the
    per-frame update changes nothing of the card but its position. *)
Theorem card_rests_near_original
    (frames : list (R * R)) (s : OrnamentSystem.t) (i : nat) (m : Mesh)
    (Hi : ornaments s !! i = Some m)
    (He : isExpanded (userData m) = false)
    (Hd : Forall (fun f => f.2 <= 0.01) frames)
    (Hy : -0.02 <= Vector3.y (meshPosition m)
                   - Vector3.y (originalPosition (userData m)) <= 0.02) :
  let op := originalPosition (userData m) in
  exists m',
    ornaments (updates frames s) !! i = Some m'
    /\ m' = set_position m (meshPosition m')
    /\ Vector3.x (meshPosition m') - Vector3.x op
       = 0.9 ^ length frames * (Vector3.x (meshPosition m) - Vector3.x op)
    /\ Vector3.z (meshPosition m') - Vector3.z op
       = 0.9 ^ length frames * (Vector3.z (meshPosition m) - Vector3.z op)
    /\ -0.02 <= Vector3.y (meshPosition m') - Vector3.y op <= 0.02.
Proof. exact (updates_at_rest frames s i m Hi He Hd Hy). Qed.

Lemma delete_past {A} (l l' : list A) k :
  delete (length l + k)%nat (l ++ l') = l ++ delete k l'.
Proof. induction l as [|a l IH]; simpl; [reflexivity | now rewrite IH]. Qed.

(** X12.  Two texture loads started for the same card finish in either
    order, and the card ends up showing the image of the load that
    finished last, not of the one that was requested last: when the second
    request completes first, the first request's image stays. *)
Theorem last_finished_load_wins
    (cardId first second : string) (t1 t2 : Texture)
    (s : OrnamentSystem.t) (i : nat) (m : Mesh)
    (Hfind : list_find (fun o => id (data (userData o)) = cardId)
               (ornaments s) = Some (i, m)) :
  let n := length (loading s) in
  let s2 := updateTexture cardId second (updateTexture cardId first s) in
  let shown t := Some (mkTexture (image t) "srgb") in
  loading s2 = loading s ++ [(i, first); (i, second)]
  /\ (map ∘ material)
       <$> ornaments (loadCompletes n t1 (loadCompletes (S n) t2 s2)) !! i
     = Some (shown t1)
  /\ (map ∘ material)
       <$> ornaments (loadCompletes n t2 (loadCompletes n t1 s2)) !! i
     = Some (shown t2).
Proof.
  cbv zeta.
  assert (E : updateTexture cardId second (updateTexture cardId first s)
              = mkSystem (ornaments s)
                  (loading s ++ [(i, first); (i, second)])).
  { unfold updateTexture at 2. rewrite Hfind.
    unfold updateTexture. simpl. rewrite Hfind.
    now rewrite <- app_assoc. }
  rewrite E. clear E.
  apply list_find_Some in Hfind as (Hi & _ & _).
  assert (Hlt : (i < length (ornaments s))%nat)
    by (eapply lookup_lt_Some; eassumption).
  split; [reflexivity|].
  assert (Hon : forall t cards c, cards !! i = Some c ->
            (map ∘ material) <$> onLoad i t cards !! i
            = Some (Some (mkTexture (image t) "srgb"))).
  { intros t cards c Hc. unfold onLoad. rewrite Hc.
    rewrite list_lookup_insert_eq by (eapply lookup_lt_Some; eassumption).
    reflexivity. }
  assert (Hex : forall t cards c, cards !! i = Some c ->
            exists c', onLoad i t cards !! i = Some c').
  { intros t cards c Hc. unfold onLoad. rewrite Hc.
    rewrite list_lookup_insert_eq by (eapply lookup_lt_Some; eassumption).
    eauto. }
  set (n := length (loading s)).
  assert (L1 : (loading s ++ [(i, first); (i, second)]) !! S n
               = Some (i, second)).
  { rewrite lookup_app_r by (unfold n; lia).
    replace (S n - length (loading s))%nat with 1%nat by (unfold n; lia).
    reflexivity. }
  assert (L0 : forall rest, (loading s ++ (i, first) :: rest) !! n
                            = Some (i, first)).
  { intros rest. rewrite lookup_app_r by (unfold n; lia).
    unfold n. rewrite Nat.sub_diag. reflexivity. }
  assert (D1 : delete (S n) (loading s ++ [(i, first); (i, second)])
               = loading s ++ [(i, first)]).
  { replace (S n) with (length (loading s) + 1)%nat by (unfold n; lia).
    now rewrite delete_past. }
  assert (D0 : delete n (loading s ++ [(i, first); (i, second)])
               = loading s ++ [(i, second)]).
  { replace n with (length (loading s) + 0)%nat by (unfold n; lia).
    now rewrite delete_past. }
  assert (L0' : (loading s ++ [(i, second)]) !! n = Some (i, second)).
  { rewrite lookup_app_r by (unfold n; lia).
    unfold n. rewrite Nat.sub_diag. reflexivity. }
  split.
  - unfold loadCompletes at 2. cbn [loading ornaments]. rewrite L1, D1.
    unfold loadCompletes. cbn [loading ornaments]. rewrite L0.
    cbn [ornaments].
    destruct (Hex t2 (ornaments s) m Hi) as [c' Hc'].
    eapply Hon. exact Hc'.
  - unfold loadCompletes at 2. cbn [loading ornaments]. rewrite L0, D0.
    unfold loadCompletes. cbn [loading ornaments]. rewrite L0'.
    cbn [ornaments].
    destruct (Hex t1 (ornaments s) m Hi) as [c' Hc'].
    eapply Hon. exact Hc'.
Qed.

End CardRest.

(** X11 on the sample card at rest, over two frames. *)
Lemma card_rests_near_original_witness :
  let m := OrnamentSystem.cardAt OrnamentSystem.sampleOrnament
             (Vector3.new 3 5 1)%R false in
  exists m',
    OrnamentSystem.ornaments
      (OrnamentSystem.updates [(0%R, 0%R); (1%R, 0.005%R)]
         (OrnamentSystem.mkSystem [m] [])) !! 0%nat = Some m'
    /\ (-0.02 <= Vector3.y (OrnamentSystem.meshPosition m') - 5 <= 0.02)%R.
Proof.
  intros m.
  assert (Hd : Forall (fun f : R * R => (f.2 <= 0.01)%R)
                 [(0%R, 0%R); (1%R, 0.005%R)]).
  { repeat constructor; simpl; lra. }
  assert (Hy : (-0.02 <= Vector3.y (OrnamentSystem.meshPosition m)
                         - Vector3.y (OrnamentSystem.originalPosition
                                        (OrnamentSystem.userData m))
                <= 0.02)%R) by (simpl; lra).
  destruct (card_rests_near_original [(0%R, 0%R); (1%R, 0.005%R)]
              (OrnamentSystem.mkSystem [m] []) 0%nat m eq_refl eq_refl Hd Hy)
    as (m' & A & _ & _ & _ & B).
  exists m'. split; [exact A | exact B].
Defined.

(** X12 on the sample card, with two uploads in flight. *)
Lemma last_finished_load_wins_witness :
  let m := OrnamentSystem.cardAt OrnamentSystem.sampleOrnament
             (Vector3.new 3 5 1)%R false in
  let s2 := OrnamentSystem.updateTexture "ornament_1" "b.png"
              (OrnamentSystem.updateTexture "ornament_1" "a.png"
                 (OrnamentSystem.mkSystem [m] [])) in
  (OrnamentSystem.map ∘ OrnamentSystem.material)
    <$> OrnamentSystem.ornaments
          (OrnamentSystem.loadCompletes 0
             (OrnamentSystem.mkTexture "a.png" "linear")
             (OrnamentSystem.loadCompletes 1
                (OrnamentSystem.mkTexture "b.png" "linear") s2)) !! 0%nat
  = Some (Some (OrnamentSystem.mkTexture "a.png" "srgb")).
Proof.
  intros m s2.
  exact (proj1 (proj2 (last_finished_load_wins "ornament_1" "a.png" "b.png"
                         (OrnamentSystem.mkTexture "a.png" "linear")
                         (OrnamentSystem.mkTexture "b.png" "linear")
                         (OrnamentSystem.mkSystem [m] []) 0%nat m eq_refl))).
Defined.

(** ** The spark pool *)

Section StardustFacts.
Import Random StardustSystem.
Local Open Scope R_scope.

Lemma length_setPosition i x y z ps :
  length (setPosition i x y z ps) = length ps.
Proof. unfold setPosition. now rewrite !length_insert. Qed.

Lemma positionOf_setPosition_eq i x y z ps :
  (i * 3 + 2 < length ps)%nat ->
  positionOf i (setPosition i x y z ps) = Some (Vector3.new x y z).
Proof.
  intros H. unfold positionOf, setPosition.
  rewrite (list_lookup_insert_ne _ (i * 3 + 2)) by lia.
  rewrite (list_lookup_insert_ne _ (i * 3 + 1)) by lia.
  rewrite list_lookup_insert_eq by lia.
  rewrite (list_lookup_insert_ne _ (i * 3 + 2)) by lia.
  rewrite list_lookup_insert_eq by (rewrite length_insert; lia).
  rewrite list_lookup_insert_eq by (rewrite !length_insert; lia).
  reflexivity.
Qed.

Lemma positionOf_setPosition_ne i j x y z ps :
  j <> i -> positionOf j (setPosition i x y z ps) = positionOf j ps.
Proof.
  intros H. unfold positionOf, setPosition.
  now rewrite !list_lookup_insert_ne by lia.
Qed.

Lemma lifeAt_insert_eq i q (l : list Q) :
  (i < length l)%nat -> lifeAt i (<[i := q]> l) = q.
Proof. intros H. unfold lifeAt. now rewrite list_lookup_insert_eq. Qed.

Lemma lifeAt_insert_ne i j q (l : list Q) :
  j <> i -> lifeAt j (<[i := q]> l) = lifeAt j l.
Proof. intros H. unfold lifeAt. now rewrite list_lookup_insert_ne. Qed.

Lemma freeFrom_ext n : forall i (l l' : list Q),
  (forall j, (i <= j)%nat -> lifeAt j l' = lifeAt j l) ->
  freeFrom n i l' = freeFrom n i l.
Proof.
  induction n as [|n IH]; intros i l l' H; simpl; [reflexivity|].
  rewrite (H i) by lia. f_equal. apply IH. intros j Hj. apply H. lia.
Qed.

Lemma spark_speed phi theta speed :
  0 <= speed ->
  Vector3.length
    (Vector3.new (sin phi * cos theta * speed) (sin phi * sin theta * speed)
       (cos phi * speed)) = speed.
Proof.
  intros H. unfold Vector3.length, Vector3.lengthSq. simpl.
  pose proof (sin2_cos2 theta) as T1. pose proof (sin2_cos2 phi) as T2.
  unfold Rsqr in T1, T2.
  set (s1 := sin phi) in *. set (c1 := cos phi) in *.
  set (s2 := sin theta) in *. set (c2 := cos theta) in *.
  replace (s1 * c2 * speed * (s1 * c2 * speed)
           + s1 * s2 * speed * (s1 * s2 * speed) + c1 * speed * (c1 * speed))
    with (speed * speed * (s1 * s1 * (s2 * s2 + c2 * c2) + c1 * c1)) by ring.
  rewrite T1, Rmult_1_r, T2, Rmult_1_r. now apply sqrt_square.
Qed.

(** One free slot revived. *)
Lemma revive_spec position i s src k :
  uniform src -> sized s -> (i < count s)%nat ->
  let s' := (revive position i s src k).1 in
  sized s' /\ count s' = count s /\ needsUpdate s' = needsUpdate s
  /\ spawnedAt position (slot i s')
  /\ forall j, j <> i -> slot j s' = slot j s.
Proof.
  intros Hsrc (Hp & Hv & Hl) Hi. cbv zeta.
  unfold revive, bind, Math_random, ret. cbn [fst].
  destruct (lookup_lt_is_Some_2 (velocities s) i ltac:(lia)) as [v0 Ev].
  rewrite Ev. unfold sized, slot, spawnedAt.
  cbn [positions velocities life count needsUpdate fst snd].
  rewrite length_setPosition, !length_insert.
  split; [now repeat split|]. split; [reflexivity|]. split; [reflexivity|].
  split.
  - split; [apply lifeAt_insert_eq; lia|]. split.
    + rewrite positionOf_setPosition_eq by lia. now destruct position.
    + eexists. split; [apply list_lookup_insert_eq; lia|].
      pose proof (Hsrc k) as Hu.
      rewrite spark_speed by lra. lra.
  - intros j Hj. rewrite lifeAt_insert_ne by exact Hj.
    rewrite positionOf_setPosition_ne by exact Hj.
    now rewrite list_lookup_insert_ne by congruence.
Qed.

Lemma spawn_loop_spec position amount src (Hsrc : uniform src) n :
  forall i spawned s k,
    sized s -> (i + n = count s)%nat ->
    let s' := (spawn_loop n i spawned amount position s src k).1 in
    sized s' /\ count s' = count s /\ needsUpdate s' = needsUpdate s
    /\ (forall j, (j < i)%nat -> slot j s' = slot j s)
    /\ (forall j, (i <= j < count s)%nat ->
          if Qle_bool (lifeAt j (life s)) 0
             && (spawned + freeFrom (j - i) i (life s) <? amount)%nat
          then spawnedAt position (slot j s')
          else slot j s' = slot j s).
Proof.
  induction n as [|n IH]; intros i spawned s k Hs Hn; cbv zeta.
  - simpl. repeat split; try apply Hs. intros j Hj. lia.
  - cbn [spawn_loop].
    destruct (spawned <? amount)%nat eqn:Eb.
    2:{ simpl. split; [exact Hs|]. repeat split.
        intros j Hj. apply Nat.ltb_ge in Eb.
        assert ((spawned + freeFrom (j - i) i (life s) <? amount)%nat = false)
          as -> by (apply Nat.ltb_ge; lia).
        now rewrite andb_false_r. }
    apply Nat.ltb_lt in Eb.
    destruct (Qle_bool (lifeAt i (life s)) 0) eqn:Ef.
    + unfold bind.
      pose proof (revive_spec position i s src k Hsrc Hs ltac:(lia)) as R.
      cbv zeta in R. destruct (revive position i s src k) as [s1 k1].
      cbn [fst] in R. destruct R as (Hs1 & Hc1 & Hn1 & Hsp & Hoth).
      specialize (IH (S i) (S spawned) s1 k1 Hs1 ltac:(lia)).
      cbv zeta in IH. destruct IH as (I1 & I2 & I3 & Ilow & Ihigh).
      split; [exact I1|]. split; [congruence|]. split; [congruence|].
      split.
      * intros j Hj. rewrite Ilow by lia. apply Hoth. lia.
      * intros j Hj. destruct (decide (j = i)) as [->|Hne].
        -- rewrite Ef, Nat.sub_diag. simpl freeFrom.
           assert ((spawned + 0 <? amount)%nat = true) as ->
             by (apply Nat.ltb_lt; lia).
           simpl. rewrite Ilow by lia. exact Hsp.
        -- specialize (Ihigh j ltac:(lia)).
           assert (El : forall j', (S i <= j')%nat ->
                     lifeAt j' (life s1) = lifeAt j' (life s)).
           { intros j' Hj'. pose proof (Hoth j' ltac:(lia)) as E.
             unfold slot in E. congruence. }
           rewrite (El j) in Ihigh by lia.
           rewrite (freeFrom_ext _ _ _ _ El) in Ihigh.
           replace (j - i)%nat with (S (j - S i)) by lia.
           cbn [freeFrom]. rewrite Ef.
           replace (spawned + (1 + freeFrom (j - S i) (S i) (life s)))%nat
             with (S spawned + freeFrom (j - S i) (S i) (life s))%nat by lia.
           destruct (_ && _); [exact Ihigh|].
           rewrite Ihigh. apply Hoth. exact Hne.
    + specialize (IH (S i) spawned s k Hs ltac:(lia)).
      cbv zeta in IH. destruct IH as (I1 & I2 & I3 & Ilow & Ihigh).
      split; [exact I1|]. split; [exact I2|]. split; [exact I3|]. split.
      * intros j Hj. apply Ilow. lia.
      * intros j Hj. destruct (decide (j = i)) as [->|Hne].
        -- rewrite Ef. simpl. apply Ilow. lia.
        -- specialize (Ihigh j ltac:(lia)).
           replace (j - i)%nat with (S (j - S i)) by lia.
           cbn [freeFrom]. rewrite Ef. exact Ihigh.
Qed.

Lemma spawn_slots_spec
    (position : Vector3.t) (amount : nat) (s : StardustSystem.t)
    (src : nat -> R) (k j : nat)
    (Hsrc : uniform src) (Hs : sized s) (Hj : (j < count s)%nat) :
  let s' := (spawn position amount s src k).1 in
  sized s' /\ count s' = count s /\ needsUpdate s' = true
  /\ if Qle_bool (lifeAt j (life s)) 0
        && (freeBelow j (life s) <? amount)%nat
     then spawnedAt position (slot j s')
     else slot j s' = slot j s.
Proof.
  cbv zeta. unfold spawn, bind.
  pose proof (spawn_loop_spec position amount src Hsrc (count s) 0 0 s k Hs
                eq_refl) as L.
  cbv zeta in L.
  destruct (spawn_loop (count s) 0 0 amount position s src k) as [s1 k1].
  cbn [fst ret] in *. destruct L as (L1 & L2 & _ & _ & L5).
  split; [exact L1|]. split; [exact L2|]. split; [reflexivity|].
  specialize (L5 j ltac:(lia)). rewrite Nat.sub_0_r in L5.
  exact L5.
Qed.

(** X13.  [spawn] revives free slots only, in index order, and at most
    [amount] of them: a slot is revived exactly when it is free
    ([life <= 0]) and fewer than [amount] free slots come before it.  A
    revived slot has life 1, sits at the spawn point and moves at a speed
    in [0.05, 0.15); every other slot, live ones in particular, keeps its
    life, position and velocity, and the arrays keep their sizes. *)
Theorem spawn_revives_free_slots
    (position : Vector3.t) (amount : nat) (s : StardustSystem.t)
    (src : nat -> R) (k j : nat)
    (Hsrc : uniform src) (Hs : sized s) (Hj : (j < count s)%nat) :
  let s' := (spawn position amount s src k).1 in
  sized s' /\ count s' = count s /\ needsUpdate s' = true
  /\ if Qle_bool (lifeAt j (life s)) 0
        && (freeBelow j (life s) <? amount)%nat
     then spawnedAt position (slot j s')
     else slot j s' = slot j s.
Proof. intros. eapply spawn_slots_spec; eassumption. Qed.

Lemma positionOf_defined j ps :
  (j * 3 + 2 < length ps)%nat ->
  exists x y z,
    ps !! (j * 3)%nat = Some x /\ ps !! (j * 3 + 1)%nat = Some y
    /\ ps !! (j * 3 + 2)%nat = Some z
    /\ positionOf j ps = Some (Vector3.new x y z).
Proof.
  intros H.
  destruct (lookup_lt_is_Some_2 ps (j * 3) ltac:(lia)) as [x Ex].
  destruct (lookup_lt_is_Some_2 ps (j * 3 + 1) ltac:(lia)) as [y Ey].
  destruct (lookup_lt_is_Some_2 ps (j * 3 + 2) ltac:(lia)) as [z Ez].
  exists x, y, z. unfold positionOf. now rewrite Ex, Ey, Ez.
Qed.

Lemma updateSlot_spec i s active :
  sized s -> (i < count s)%nat ->
  let s' := (StardustSystem.updateSlot i (s, active)).1 in
  sized s' /\ count s' = count s /\ needsUpdate s' = needsUpdate s
  /\ decayed i s s'
  /\ forall j, j <> i -> slot j s' = slot j s.
Proof.
  intros (Hp & Hv & Hl) Hi. cbv zeta.
  unfold StardustSystem.updateSlot, decayed.
  destruct (Qle_bool (lifeAt i (life s)) 0) eqn:Ef.
  { cbn [fst]. now repeat split. }
  destruct (Qle_bool (lifeAt i (life s) - 0.02) 0) eqn:Ed.
  - cbn [fst]. unfold sized, slot.
    cbn [positions velocities life count needsUpdate].
    rewrite length_setPosition, !length_insert.
    split; [now repeat split|]. split; [reflexivity|]. split; [reflexivity|].
    split.
    + split; [apply lifeAt_insert_eq; lia|].
      split; [apply positionOf_setPosition_eq; lia | reflexivity].
    + intros j Hj. rewrite lifeAt_insert_ne by exact Hj.
      now rewrite positionOf_setPosition_ne by exact Hj.
  - destruct (lookup_lt_is_Some_2 (velocities s) i ltac:(lia)) as [v Ev].
    rewrite Ev. cbn [fst]. unfold sized, slot.
    cbn [positions velocities life count needsUpdate].
    rewrite length_setPosition, !length_insert.
    split; [now repeat split|]. split; [reflexivity|]. split; [reflexivity|].
    split.
    + split; [apply lifeAt_insert_eq; lia|].
      destruct (positionOf_defined i (positions s) ltac:(lia))
        as (x & y & z & Ex & Ey & Ez & Ep).
      exists (Vector3.new x y z), v.
      split; [exact Ep|]. split; [reflexivity|]. split.
      * rewrite positionOf_setPosition_eq by lia.
        rewrite Ex, Ey, Ez. reflexivity.
      * apply list_lookup_insert_eq. lia.
    + intros j Hj. rewrite lifeAt_insert_ne by exact Hj.
      rewrite positionOf_setPosition_ne by exact Hj.
      now rewrite list_lookup_insert_ne by congruence.
Qed.

Lemma decayed_ext j s s1 s' :
  slot j s1 = slot j s -> decayed j s1 s' -> decayed j s s'.
Proof.
  unfold decayed, slot. intros E D.
  injection E as E1 E2 E3. rewrite E1, E2, E3 in D. exact D.
Qed.

Lemma decayed_stable j s s1 s' :
  slot j s' = slot j s1 -> decayed j s s1 -> decayed j s s'.
Proof.
  unfold decayed, slot. intros E D.
  injection E as E1 E2 E3. rewrite E1, E2, E3. exact D.
Qed.

Lemma update_loop_spec n : forall i s active,
  sized s -> (i + n = count s)%nat ->
  let s' := (update_loop n i (s, active)).1 in
  sized s' /\ count s' = count s /\ needsUpdate s' = needsUpdate s
  /\ (forall j, (j < i)%nat -> slot j s' = slot j s)
  /\ (forall j, (i <= j < count s)%nat -> decayed j s s').
Proof.
  induction n as [|n IH]; intros i s active Hs Hn; cbv zeta.
  - simpl. repeat split; try apply Hs. intros j Hj. lia.
  - cbn [update_loop].
    pose proof (updateSlot_spec i s active Hs ltac:(lia)) as U.
    cbv zeta in U.
    destruct (StardustSystem.updateSlot i (s, active)) as [s1 a1].
    cbn [fst] in U. destruct U as (Hs1 & Hc1 & Hn1 & Hd & Hoth).
    specialize (IH (S i) s1 a1 Hs1 ltac:(lia)). cbv zeta in IH.
    destruct IH as (I1 & I2 & I3 & Ilow & Ihigh).
    split; [exact I1|]. split; [congruence|]. split; [congruence|]. split.
    + intros j Hj. rewrite Ilow by lia. apply Hoth. lia.
    + intros j Hj. destruct (decide (j = i)) as [->|Hne].
      * eapply decayed_stable; [apply Ilow; lia | exact Hd].
      * eapply decayed_ext; [apply Hoth; exact Hne|]. apply Ihigh. lia.
Qed.

Lemma update_slots_spec
    (s : StardustSystem.t) (j : nat)
    (Hs : sized s) (Hj : (j < count s)%nat) :
  let s' := StardustSystem.update s in
  sized s' /\ count s' = count s /\ decayed j s s'.
Proof.
  cbv zeta. unfold StardustSystem.update.
  pose proof (update_loop_spec (count s) 0 s false Hs eq_refl) as L.
  cbv zeta in L. destruct (update_loop (count s) 0 (s, false)) as [s1 a1].
  cbn [fst] in L. destruct L as (L1 & L2 & _ & _ & L5).
  specialize (L5 j ltac:(lia)).
  destruct a1; (split; [exact L1|]; split; [exact L2|]); exact L5.
Qed.

(** X14.  [update] leaves a free slot alone; a live slot loses 0.02 of
    life, and is then parked at (9999, 9999, 9999) if that used it up, or
    else moved by its velocity, whose [y] then drops by 0.002.  The arrays
    keep their sizes. *)
Theorem update_decays_sparks
    (s : StardustSystem.t) (j : nat)
    (Hs : sized s) (Hj : (j < count s)%nat) :
  let s' := StardustSystem.update s in
  sized s' /\ count s' = count s /\ decayed j s s'.
Proof. intros. eapply update_slots_spec; eassumption. Qed.

Lemma constructor_parked n :
  sized (StardustSystem.constructor n)
  /\ count (StardustSystem.constructor n) = n
  /\ parked (StardustSystem.constructor n).
Proof.
  unfold sized, parked, StardustSystem.constructor. simpl.
  rewrite !length_replicate. split; [now repeat split|].
  split; [reflexivity|]. intros i Hi _. unfold positionOf.
  now rewrite !lookup_replicate_2 by lia.
Qed.

Lemma spawn_parked position amount s src k :
  uniform src -> sized s -> parked s ->
  let s' := (spawn position amount s src k).1 in
  sized s' /\ count s' = count s /\ parked s'.
Proof.
  intros Hsrc Hs Hp. cbv zeta.
  assert (Hshape : sized (spawn position amount s src k).1
                   /\ count (spawn position amount s src k).1 = count s).
  { unfold spawn, bind.
    pose proof (spawn_loop_spec position amount src Hsrc (count s) 0 0 s k
                  Hs eq_refl) as L.
    cbv zeta in L.
    destruct (spawn_loop (count s) 0 0 amount position s src k) as [s1 k1].
    cbn [fst ret] in *. destruct L as (L1 & L2 & _). now split. }
  destruct Hshape as [Hsz Hc].
  split; [exact Hsz|]. split; [exact Hc|].
  intros j Hj Hfree. rewrite Hc in Hj.
  pose proof (spawn_slots_spec position amount s src k j Hsrc Hs Hj)
    as W. cbv zeta in W. destruct W as (_ & _ & _ & W).
  destruct (_ && _).
  - destruct W as (W1 & _). unfold slot in W1. simpl in W1.
    rewrite W1 in Hfree. discriminate.
  - unfold slot in W. injection W as W1 W2 _.
    rewrite W2. apply Hp; [exact Hj | now rewrite <- W1].
Qed.

Lemma update_parked s :
  sized s -> parked s ->
  sized (StardustSystem.update s)
  /\ count (StardustSystem.update s) = count s
  /\ parked (StardustSystem.update s).
Proof.
  intros Hs Hp.
  assert (Hc : count (StardustSystem.update s) = count s).
  { unfold StardustSystem.update.
    pose proof (update_loop_spec (count s) 0 s false Hs eq_refl) as L.
    cbv zeta in L. destruct (update_loop (count s) 0 (s, false)) as [s1 a1].
    cbn [fst] in L. destruct L as (_ & L2 & _). now destruct a1. }
  assert (Hsz : sized (StardustSystem.update s)).
  { unfold StardustSystem.update.
    pose proof (update_loop_spec (count s) 0 s false Hs eq_refl) as L.
    cbv zeta in L. destruct (update_loop (count s) 0 (s, false)) as [s1 a1].
    cbn [fst] in L. destruct L as (L1 & _). now destruct a1. }
  split; [exact Hsz|]. split; [exact Hc|].
  intros j Hj Hfree. rewrite Hc in Hj.
  pose proof (update_slots_spec s j Hs Hj) as W. cbv zeta in W.
  destruct W as (_ & _ & W). unfold decayed in W.
  destruct (Qle_bool (lifeAt j (life s)) 0) eqn:Ef.
  - unfold slot in W. injection W as _ W2 _. rewrite W2. now apply Hp.
  - destruct W as (W1 & W). rewrite W1 in Hfree. rewrite Hfree in W.
    apply W.
Qed.

(** X15.  Whatever bursts, trails and frames the pool goes through after
    its construction, its arrays keep their sizes and every slot with no
    life left is parked at (9999, 9999, 9999), out of sight. *)
Theorem dead_sparks_stay_parked
    (n : nat) (ops : list Op) (src : nat -> R) (k : nat)
    (Hsrc : uniform src) :
  let s := (run_ops ops (StardustSystem.constructor n) src k).1 in
  sized s /\ count s = n /\ parked s.
Proof.
  cbv zeta.
  destruct (constructor_parked n) as (H1 & H2 & H3).
  revert H1 H2 H3. generalize (StardustSystem.constructor n). revert k.
  induction ops as [|op ops IH]; intros k s Hs Hc Hp.
  - split; [exact Hs|]. split; [exact Hc | exact Hp].
  - change (run_ops (op :: ops) s src k)
      with (let (s1, k1) := apply op s src k in run_ops ops s1 src k1).
    assert (A : sized (apply op s src k).1
                /\ count (apply op s src k).1 = count s
                /\ parked (apply op s src k).1).
    { destruct op; simpl.
      - now apply spawn_parked.
      - now apply spawn_parked.
      - now apply update_parked. }
    destruct (apply op s src k) as [s1 k1]. cbn [fst] in A.
    destruct A as (A1 & A2 & A3). apply IH; [exact A1 | congruence | exact A3].
Qed.

End StardustFacts.

(** X13 on a fresh pool of two slots with a burst of one spark. *)
Lemma spawn_revives_free_slots_witness :
  StardustSystem.spawnedAt (Vector3.new 1 2 3)%R
    (StardustSystem.slot 0
       (StardustSystem.spawn (Vector3.new 1 2 3)%R 1
          (StardustSystem.constructor 2) (fun _ => 0.5%R) 0%nat).1).
Proof.
  assert (H : Random.uniform (fun _ => 0.5%R)) by (intros k; lra).
  assert (Hs : StardustSystem.sized (StardustSystem.constructor 2))
    by (repeat split; reflexivity).
  assert (Hj : (0 < StardustSystem.count (StardustSystem.constructor 2))%nat)
    by (simpl; lia).
  pose proof (spawn_revives_free_slots (Vector3.new 1 2 3)%R 1
                (StardustSystem.constructor 2) (fun _ => 0.5%R) 0%nat 0%nat
                H Hs Hj) as W.
  cbv zeta in W. destruct W as (_ & _ & _ & W). exact W.
Defined.

(** X14 on a pool of three slots: a spark with full life, which moves by
    its velocity and is pulled down; a spark on its last 0.02 of life,
    which is parked; and a free slot, which stays as it is. *)
Lemma update_decays_sparks_witness :
  let s := StardustSystem.mkStardust
             [1; 2; 3; 4; 5; 6; 9999; 9999; 9999]%R
             [Vector3.new 0.1 0.2 0.3; Vector3.new 0 0.1 0; Vector3.zero]%R
             [1.0; 0.02; 0]%Q 3 false in
  let s' := StardustSystem.update s in
  (StardustSystem.lifeAt 0 (StardustSystem.life s') = (1.0 - 0.02)%Q
   /\ StardustSystem.positionOf 0 (StardustSystem.positions s')
      = Some (Vector3.add (Vector3.new 1 2 3) (Vector3.new 0.1 0.2 0.3))%R
   /\ StardustSystem.velocities s' !! 0%nat
      = Some (Vector3.new 0.1 (0.2 - 0.002) 0.3)%R)
  /\ (StardustSystem.lifeAt 1 (StardustSystem.life s') = (0.02 - 0.02)%Q
      /\ StardustSystem.positionOf 1 (StardustSystem.positions s')
         = Some (Vector3.new 9999 9999 9999)%R)
  /\ StardustSystem.slot 2 s' = StardustSystem.slot 2 s.
Proof.
  intros s s'.
  assert (Hs : StardustSystem.sized s) by (repeat split; reflexivity).
  pose proof (update_decays_sparks s 0%nat Hs ltac:(simpl; lia)) as W0.
  pose proof (update_decays_sparks s 1%nat Hs ltac:(simpl; lia)) as W1.
  pose proof (update_decays_sparks s 2%nat Hs ltac:(simpl; lia)) as W2.
  cbv zeta in W0, W1, W2. fold s' in W0, W1, W2.
  destruct W0 as (_ & _ & D0). destruct W1 as (_ & _ & D1).
  destruct W2 as (_ & _ & D2).
  unfold StardustSystem.decayed in D0, D1, D2. cbv zeta in D0, D1, D2.
  change (StardustSystem.lifeAt 0 (StardustSystem.life s)) with 1.0%Q in D0.
  change (StardustSystem.lifeAt 1 (StardustSystem.life s)) with 0.02%Q in D1.
  change (StardustSystem.lifeAt 2 (StardustSystem.life s)) with 0%Q in D2.
  change (Qle_bool 1.0 0) with false in D0.
  change (Qle_bool (1.0 - 0.02) 0) with false in D0.
  change (Qle_bool 0.02 0) with false in D1.
  change (Qle_bool (0.02 - 0.02) 0) with true in D1.
  change (Qle_bool 0 0) with true in D2.
  cbv iota in D0, D1, D2.
  destruct D0 as (L0 & p & v & Hp & Hv & Hp' & Hv').
  change (Some (Vector3.new 1 2 3)%R = Some p) in Hp. injection Hp as <-.
  change (Some (Vector3.new 0.1 0.2 0.3)%R = Some v) in Hv.
  injection Hv as <-.
  destruct D1 as (L1 & P1 & _).
  split; [|split; [split; [exact L1 | exact P1] | exact D2]].
  split; [exact L0|]. split; [exact Hp' | exact Hv'].
Defined.

(** X15 on a pool of two slots: a burst, a frame, a trail. *)
Lemma dead_sparks_stay_parked_witness :
  StardustSystem.parked
    (StardustSystem.run_ops
       [ StardustSystem.Spawn (Vector3.new 1 2 3)%R 30
       ; StardustSystem.Update
       ; StardustSystem.SpawnTrail (Vector3.new 0 0 0)%R ]
       (StardustSystem.constructor 2) (fun _ => 0.5%R) 0%nat).1.
Proof.
  assert (H : Random.uniform (fun _ => 0.5%R)) by (intros k; lra).
  exact (proj2 (proj2 (dead_sparks_stay_parked 2 _ (fun _ => 0.5%R) 0%nat H))).
Defined.

(** ** More on the dispersion pair and the selection *)

Section DispersionInvariant.
Import Dispersion.
Local Open Scope Q_scope.

Lemma animate_between s :
  Qmin (current s) (target s) <= current (animate s)
  /\ current (animate s) <= Qmax (current s) (target s).
Proof.
  simpl. destruct (Qlt_le_dec (target s) (current s)) as [H|H].
  - rewrite (Q.min_r _ _ (Qlt_le_weak _ _ H)).
    rewrite (Q.max_l _ _ (Qlt_le_weak _ _ H)). split; Lqa.lra.
  - rewrite (Q.min_l _ _ H), (Q.max_r _ _ H). split; Lqa.lra.
Qed.

Lemma handle_in_range e s :
  0 <= current s <= 1.5 -> 0 <= target s <= 1.5 ->
  0 <= current (handle e s) <= 1.5 /\ 0 <= target (handle e s) <= 1.5.
Proof.
  intros Hc Ht. destruct e as [d|]; simpl.
  - split; [exact Hc | apply clamp_range].
  - split; [|exact Ht]. destruct Hc, Ht. split; Lqa.lra.
Qed.

(** X16.  Under any interleaving of wheel events and animation frames
    from the initial state, both [current] and [target] stay in [0, 1.5];
    and a frame never overshoots: the new [current] lies between the old
    [current] and the target. *)
Theorem dispersion_stays_in_range (events : list Event) (s : DispersionState) :
  (0 <= current (run events dispersionState) <= 1.5
   /\ 0 <= target (run events dispersionState) <= 1.5)
  /\ Qmin (current s) (target s) <= current (animate s)
  /\ current (animate s) <= Qmax (current s) (target s)
  /\ target (animate s) = target s.
Proof.
  split; [|split; [apply animate_between | split;
                   [apply animate_between | reflexivity]]].
  assert (G : forall evs st,
            0 <= current st <= 1.5 -> 0 <= target st <= 1.5 ->
            0 <= current (run evs st) <= 1.5
            /\ 0 <= target (run evs st) <= 1.5).
  { induction evs as [|e evs IH]; intros st Hc Ht; [now split|].
    simpl. destruct (handle_in_range e st Hc Ht) as [A B]. now apply IH. }
  apply G; split; discriminate.
Qed.

End DispersionInvariant.

Section SelectionMore.
Import OrnamentSystem ChristmasTree.
Local Open Scope R_scope.

Lemma killTweensOf_none i l :
  filter (fun tw => target tw = i) (killTweensOf i l) = [].
Proof.
  unfold killTweensOf. induction l as [|tw l IH]; [reflexivity|].
  rewrite filter_cons. destruct (decide (target tw <> i)) as [H|H].
  - rewrite filter_cons. destruct (decide (target tw = i)); [contradiction|].
    exact IH.
  - exact IH.
Qed.

Lemma killTweensOf_idem i l :
  killTweensOf i (killTweensOf i l) = killTweensOf i l.
Proof.
  unfold killTweensOf. induction l as [|tw l IH]; [reflexivity|].
  rewrite filter_cons. destruct (decide (target tw <> i)) as [H|H].
  - rewrite filter_cons. destruct (decide (target tw <> i)); [|contradiction].
    now rewrite IH.
  - exact IH.
Qed.

Lemma killTweensOf_others i l :
  filter (fun tw => target tw <> i) l = killTweensOf i l.
Proof. reflexivity. Qed.

(** X17.  A click on a card stops every tween running on that card and
    starts the pull-out pair, so that afterwards exactly those two tweens
    target the card, whatever was running (a return after a close, an
    earlier click); tweens of other cards go on untouched, in their order;
    the cards themselves are not changed by the click; and a second click
    before anything completes leaves the same state as the first. *)
Theorem click_restarts_the_pull
    (a : App) (i : nat) (card : Mesh)
    (Hcard : ornaments (ornamentSystem a) !! i = Some card) :
  let op := originalPosition (userData card) in
  let os := originalScale (userData card) in
  let a1 := handleOrnamentClick (Card i) a in
  filter (fun tw => target tw = i) (tweens a1)
  = [ mkTween i PositionOf
        (Vector3.add op (Vector3.multiplyScalar (Vector3.normalize op) 2.0))
        0.5 "back.out(1.2)" false
    ; mkTween i ScaleOf
        (Vector3.new (Vector3.x os * 1.5) (Vector3.y os * 1.5)
           (Vector3.z os * 1.5))
        0.5 "power2.out" true ]
  /\ filter (fun tw => target tw <> i) (tweens a1)
     = filter (fun tw => target tw <> i) (tweens a)
  /\ ornamentSystem a1 = ornamentSystem a
  /\ viewerVisible a1 = viewerVisible a
  /\ handleOrnamentClick (Card i) a1 = a1.
Proof.
  cbv zeta.
  set (twP := mkTween i PositionOf _ 0.5 "back.out(1.2)" false).
  set (twS := mkTween i ScaleOf _ 0.5 "power2.out" true).
  assert (E : handleOrnamentClick (Card i) a
              = mkApp (ornamentSystem a)
                  (killTweensOf i (tweens a) ++ [twP; twS])
                  (viewerVisible a) (selectedOrnament a)).
  { unfold handleOrnamentClick. simpl. rewrite Hcard. reflexivity. }
  assert (Fi : filter (fun tw => target tw = i) [twP; twS] = [twP; twS]).
  { rewrite !filter_cons. simpl.
    destruct (decide (i = i)); [reflexivity | contradiction]. }
  assert (Fo : killTweensOf i [twP; twS] = []).
  { unfold killTweensOf. rewrite !filter_cons. simpl.
    destruct (decide (i <> i)); [contradiction | reflexivity]. }
  rewrite E. cbn [tweens ornamentSystem viewerVisible].
  split; [now rewrite filter_app, killTweensOf_none, Fi|].
  split.
  { rewrite !killTweensOf_others. unfold killTweensOf at 1.
    rewrite filter_app. fold (killTweensOf i (killTweensOf i (tweens a))).
    fold (killTweensOf i [twP; twS]).
    now rewrite killTweensOf_idem, Fo, app_nil_r. }
  split; [reflexivity|]. split; [reflexivity|].
  unfold handleOrnamentClick. simpl. rewrite Hcard. fold twP twS.
  cbn [tweens]. f_equal.
  unfold killTweensOf at 1. rewrite filter_app.
  fold (killTweensOf i (killTweensOf i (tweens a))).
  fold (killTweensOf i [twP; twS]).
  now rewrite killTweensOf_idem, Fo, app_nil_r.
Qed.

Lemma clear_expanded_twice (l : list Mesh) :
  let clear m := if isExpanded (userData m) then set_isExpanded m false
                 else m in
  clear <$> (clear <$> l) = clear <$> l
  /\ Forall (fun m => isExpanded (userData m) = false) (clear <$> l).
Proof.
  cbv zeta. induction l as [|m l [IH1 IH2]]; [split; [reflexivity|constructor]|].
  rewrite !fmap_cons, IH1. split.
  - f_equal. destruct (isExpanded (userData m)) eqn:E; simpl; [reflexivity|].
    now rewrite E.
  - constructor; [|exact IH2].
    destruct (isExpanded (userData m)) eqn:E; [reflexivity | exact E].
Qed.

(** X18.  After [closeViewer] no card is expanded, the viewer is hidden
    and nothing is selected; the call moves no card (it only starts tweens)
    and a second call changes nothing more: no further tween is started. *)
Theorem closeViewer_idempotent (a : App) :
  closeViewer (closeViewer a) = closeViewer a
  /\ Forall (fun m => isExpanded (userData m) = false)
       (ornaments (ornamentSystem (closeViewer a)))
  /\ Forall2 (fun m m' =>
                meshPosition m' = meshPosition m
                /\ meshScale m' = meshScale m
                /\ meshRotation m' = meshRotation m
                /\ material m' = material m
                /\ originalPosition (userData m')
                   = originalPosition (userData m))
       (ornaments (ornamentSystem a))
       (ornaments (ornamentSystem (closeViewer a)))
  /\ viewerVisible (closeViewer a) = false
  /\ selectedOrnament (closeViewer a) = None.
Proof.
  destruct (clear_expanded_twice (ornaments (ornamentSystem a))) as [C1 C2].
  cbv zeta in C1, C2.
  split; [|split; [exact C2 | split; [|split; reflexivity]]].
  - unfold closeViewer at 1. unfold getObjects.
    cbn [closeViewer ornamentSystem ornaments loading tweens getObjects].
    unfold getObjects. rewrite C1.
    pose proof (returnTweens_none _ C2 (fun j => j)) as N.
    cbv beta in N.
    change (fun j : nat => returnTweens j) with returnTweens in N.
    rewrite N. now rewrite app_nil_r.
  - cbn [closeViewer ornamentSystem ornaments getObjects]. unfold getObjects.
    clear C1 C2.
    induction (ornaments (ornamentSystem a)) as [|m l IH]; [constructor|].
    rewrite fmap_cons. constructor; [|exact IH].
    destruct (isExpanded (userData m)); now repeat split.
Qed.

End SelectionMore.

(** X17 on the sample card while a return tween is running on it. *)
Lemma click_restarts_the_pull_witness :
  let card := OrnamentSystem.cardAt OrnamentSystem.sampleOrnament
                (Vector3.new 3 5 1)%R false in
  let a := ChristmasTree.mkApp (OrnamentSystem.mkSystem [card] [])
             [ChristmasTree.mkTween 0 ChristmasTree.PositionOf
                (Vector3.new 3 5 1)%R 0.6%R "power2.inOut" false]
             false None in
  let a1 := ChristmasTree.handleOrnamentClick (ChristmasTree.Card 0) a in
  ChristmasTree.handleOrnamentClick (ChristmasTree.Card 0) a1 = a1.
Proof.
  intros card a a1.
  pose proof (click_restarts_the_pull a 0%nat card eq_refl) as W.
  cbv zeta in W. destruct W as (_ & _ & _ & _ & W). exact W.
Defined.
Section DefaultCards.
Import Random OrnamentSystem OrnamentData.
Local Open Scope R_scope.

Lemma createOrnament_flags d rnd k :
  let m := (createOrnament d rnd k).1 in
  data (userData m) = d
  /\ isOrnament (userData m) = true
  /\ hitIsOrnament (hitBox m) = true
  /\ isExpanded (userData m) = false.
Proof. cbv zeta. unfold createOrnament, bind, Math_random, ret. now cbn. Qed.

Lemma default_height (i total : nat) :
  (i < total)%nat ->
  0 < (INR i + 0.5) / INR total < 1.
Proof.
  intros Hi.
  assert (H0 : 0 <= INR i) by apply pos_INR.
  assert (H1 : INR i + 1 <= INR total).
  { rewrite <- S_INR. apply le_INR. lia. }
  assert (Ht : 0 < INR total) by lra.
  split.
  - apply Rdiv_lt_0_compat; lra.
  - apply Rmult_lt_reg_r with (INR total); [exact Ht|].
    unfold Rdiv. rewrite Rmult_assoc, Rinv_l by lra. lra.
Qed.

(** X19.  A position computed by [generatePosition] for an index below the
    total lies between heights 1 and 11 on the cone of radius
    5.5 - 5y/13, which there is between 1.26 and 5.12; the card built from
    it by [createOrnament] keeps the height and the angle and sits exactly
    half a unit further out. *)
Theorem default_card_placement
    (i total : nat) (d : Ornament) (rnd : nat -> R) (k : nat)
    (Hi : (i < total)%nat)
    (Hd : position d = generatePosition i total) :
  let y := 1 + (INR i + 0.5) / INR total * 10 in
  let r := 5.5 - y / 13 * 5 in
  let a := INR i * 2.39996 in
  generatePosition i total = Vector3.new (cos a * r) y (sin a * r)
  /\ 1 < y < 11
  /\ 1.26 < r < 5.12
  /\ meshPosition (createOrnament d rnd k).1
     = Vector3.new (cos a * (r + 0.5)) y (sin a * (r + 0.5)).
Proof.
  cbv zeta. pose proof (default_height i total Hi) as Hh.
  set (h := (INR i + 0.5) / INR total) in *.
  set (a := INR i * 2.39996).
  assert (Eg : generatePosition i total
               = Vector3.new (cos a * (5.5 - (1 + h * 10) / 13 * 5))
                   (1 + h * 10) (sin a * (5.5 - (1 + h * 10) / 13 * 5))).
  { unfold generatePosition. fold h a. f_equal; f_equal; lra. }
  set (y := 1 + h * 10) in *. set (r := 5.5 - y / 13 * 5) in *.
  assert (Hy : 1 < y < 11) by (unfold y; lra).
  assert (Hr : 1.26 < r < 5.12) by (unfold r; lra).
  split; [exact Eg|]. split; [exact Hy|]. split; [exact Hr|].
  unfold createOrnament, bind, Math_random, ret. cbn [fst meshPosition].
  rewrite Hd, Eg. cbn [Vector3.x Vector3.y Vector3.z].
  pose proof (sin2_cos2 a) as Hsc. unfold Rsqr in Hsc.
  set (v := Vector3.new (cos a * r) 0 (sin a * r)).
  assert (Hsq : Vector3.lengthSq v = r * r).
  { unfold Vector3.lengthSq, v. simpl.
    transitivity (r * r * (sin a * sin a + cos a * cos a)); [ring|].
    rewrite Hsc. ring. }
  assert (Hpos : 0 < Vector3.lengthSq v) by (rewrite Hsq; nra).
  assert (Hlen : Vector3.length v = r).
  { pose proof (length_sqr v) as Hl. pose proof (length_pos v Hpos) as Hp.
    rewrite Hsq in Hl. nra. }
  rewrite (normalize_nonzero v Hpos), Hlen.
  assert (En : Vector3.multiplyScalar v (1 / r)
               = Vector3.new (cos a) 0 (sin a)).
  { unfold Vector3.multiplyScalar, v. simpl. f_equal; field; lra. }
  rewrite En.
  assert (Hone : Vector3.length (Vector3.new (cos a) 0 (sin a)) = 1).
  { apply length_unit. unfold Vector3.lengthSq. simpl.
    transitivity (sin a * sin a + cos a * cos a); [ring | exact Hsc]. }
  rewrite Hone.
  destruct (Req_dec_T 1 0) as [C|_]; [lra|].
  cbn [Vector3.x Vector3.z].
  assert (Em : Rmax 0.5 (5.5 - y / 13.0 * (5.5 - 0.5)) = r).
  { rewrite Rmax_right; unfold r; lra. }
  rewrite Em. reflexivity.
Qed.

Lemma default_id_inj (n1 n2 : nat) :
  "ornament_" +:+ pretty n1 = "ornament_" +:+ pretty n2 -> n1 = n2.
Proof.
  intros H. apply (inj (String.app "ornament_")) in H.
  now apply (inj pretty) in H.
Qed.

Lemma default_lookup (j : nat) :
  (j < 15)%nat -> ornamentImages !! j = Some (ornamentOf j).
Proof.
  intros Hj. unfold ornamentImages. rewrite list_lookup_fmap.
  rewrite lookup_seq_lt by exact Hj. reflexivity.
Qed.

(** X20.  The default list has fifteen cards whose ids, ornament_1 to
    ornament_15, are pairwise different; on the system built from it,
    [updateTexture] with the id ornament_n starts one load, for the card at
    index n - 1, when n is between 1 and 15, and does nothing for any other
    number. *)
Theorem default_ids_resolve (rnd : nat -> R) (n : nat) (img : string) :
  let sys := run (OrnamentSystem.constructor ornamentImages) rnd in
  length (ornaments sys) = 15%nat
  /\ NoDup (OrnamentSystem.id <$> ornamentImages)
  /\ updateTexture ("ornament_" +:+ pretty n) img sys
     = if decide (1 <= n <= 15)%nat
       then mkSystem (ornaments sys) (loading sys ++ [((n - 1)%nat, img)])
       else sys.
Proof.
  cbv zeta. unfold run, OrnamentSystem.constructor.
  pose proof (createOrnaments_spec rnd ornamentImages (mkSystem [] []) 0)
    as (cards & A & B & _).
  set (sys := (createOrnaments ornamentImages (mkSystem [] []) rnd 0%nat).1)
    in *.
  change (ornaments sys = cards) in A. clearbody sys. rewrite A.
  assert (Hlen : length cards = 15%nat).
  { rewrite <- (Forall2_length _ ornamentImages cards B).
    unfold ornamentImages. now rewrite length_fmap, length_seq. }
  assert (Hid : forall j m, cards !! j = Some m ->
                  (j < 15)%nat
                  /\ OrnamentSystem.id (data (userData m))
                     = "ornament_" +:+ pretty (j + 1)%nat).
  { intros j m Hm.
    assert (Hj : (j < 15)%nat) by (rewrite <- Hlen; eapply lookup_lt_Some; eauto).
    split; [exact Hj|].
    destruct (Forall2_lookup_r _ _ _ _ _ B Hm) as (d & Hd & k & ->).
    rewrite default_lookup in Hd by exact Hj. injection Hd as <-.
    destruct (createOrnament_flags (ornamentOf j) rnd k) as [-> _].
    reflexivity. }
  split; [exact Hlen|]. split.
  { apply NoDup_alt. intros j1 j2 x H1 H2.
    rewrite list_lookup_fmap in H1, H2.
    destruct (ornamentImages !! j1) as [d1|] eqn:E1; [|discriminate].
    destruct (ornamentImages !! j2) as [d2|] eqn:E2; [|discriminate].
    assert (L1 : (j1 < 15)%nat) by (apply lookup_lt_Some in E1; exact E1).
    assert (L2 : (j2 < 15)%nat) by (apply lookup_lt_Some in E2; exact E2).
    rewrite default_lookup in E1, E2 by assumption.
    injection E1 as <-. injection E2 as <-.
    assert (E : OrnamentSystem.id (ornamentOf j1)
                = OrnamentSystem.id (ornamentOf j2)).
    { apply (inj Some). cbn [fmap option_fmap option_map] in H1, H2.
      now rewrite H1, H2. }
    change ("ornament_" +:+ pretty (j1 + 1)%nat
            = "ornament_" +:+ pretty (j2 + 1)%nat) in E.
    apply default_id_inj in E. lia. }
  unfold updateTexture. rewrite A.
  destruct (decide (1 <= n <= 15)%nat) as [Hn|Hn].
  - destruct (lookup_lt_is_Some_2 cards (n - 1)) as [m Hm]; [lia|].
    assert (F : list_find
                  (fun o => OrnamentSystem.id (data (userData o))
                            = "ornament_" +:+ pretty n) cards
                = Some ((n - 1)%nat, m)).
    { apply list_find_Some. split; [exact Hm|]. split.
      - destruct (Hid _ _ Hm) as [_ ->]. do 2 f_equal. lia.
      - intros j y Hy Hlt Hp. destruct (Hid _ _ Hy) as [_ E].
        rewrite E in Hp. apply default_id_inj in Hp. lia. }
    rewrite F. reflexivity.
  - assert (F : list_find
                  (fun o => OrnamentSystem.id (data (userData o))
                            = "ornament_" +:+ pretty n) cards
                = None).
    { apply list_find_None. apply Forall_lookup. intros j y Hy Hp.
      destruct (Hid _ _ Hy) as [Hj E].
      rewrite E in Hp. apply default_id_inj in Hp. lia. }
    rewrite F. reflexivity.
Qed.

End DefaultCards.

(** X19 on the first of the fifteen default cards. *)
Lemma default_card_placement_witness :
  (1 < 1 + (INR 0 + 0.5) / INR 15 * 10 < 11)%R.
Proof.
  pose proof (default_card_placement 0 15 (OrnamentData.ornamentOf 0)
                (fun _ => 0%R) 0 ltac:(lia) eq_refl) as W.
  cbv zeta in W. destruct W as (_ & W & _). exact W.
Defined.

Section Uploads.
Import OrnamentSystem Interaction.

Lemma truthy_nonempty (s : string) :
  s <> EmptyString -> OrnamentStore.truthy s = true.
Proof. destruct s; [congruence | reflexivity]. Qed.

(** X21.  An uploaded image (a non-empty string) is what the store
    returns for that card from then on, whatever the fallback, and the
    other cards keep their answer; [handleUploadTrigger] then passes that
    image to [updateTexture], so that once the load completes the first
    card with that id, and no other, shows it, and nothing happens when no
    card has the id.  With no upload in the store the trigger does nothing
    for any id, and an empty string stored later hides the upload again:
    the fallback is returned. *)
Theorem upload_reaches_the_card
    (store : OrnamentStore.t) (sys : OrnamentSystem.t)
    (ornamentId base64 fallback : string) (texture : Texture)
    (Hb : base64 <> EmptyString) :
  let store' := OrnamentStore.updateOrnamentImage ornamentId base64 store in
  let sys' := handleUploadTrigger ornamentId store' sys in
  (forall other,
     OrnamentStore.getOrnamentSrc other fallback store'
     = if decide (other = ornamentId) then base64
       else OrnamentStore.getOrnamentSrc other fallback store)
  /\ sys' = updateTexture ornamentId base64 sys
  /\ match list_find (fun o => id (data (userData o)) = ornamentId)
             (ornaments sys) with
     | Some (i, card) =>
         loading sys' = loading sys ++ [(i, base64)]
         /\ ornaments (loadCompletes (length (loading sys)) texture sys')
            = <[i := set_material card
                       (mkMaterial (Some (mkTexture (image texture) "srgb"))
                          true)]> (ornaments sys)
     | None => sys' = sys
     end
  /\ (forall anyId, handleUploadTrigger anyId OrnamentStore.useOrnamentStore sys = sys)
  /\ OrnamentStore.getOrnamentSrc ornamentId fallback
       (OrnamentStore.updateOrnamentImage ornamentId EmptyString store') = fallback.
Proof.
  cbv zeta.
  assert (G : OrnamentStore.getOrnamentSrc ornamentId EmptyString
                (OrnamentStore.updateOrnamentImage ornamentId base64 store) = base64).
  { unfold OrnamentStore.getOrnamentSrc, OrnamentStore.updateOrnamentImage. cbn [OrnamentStore.customImages].
    rewrite lookup_insert_eq. now rewrite truthy_nonempty. }
  assert (T : handleUploadTrigger ornamentId
                (OrnamentStore.updateOrnamentImage ornamentId base64 store) sys
              = updateTexture ornamentId base64 sys).
  { unfold handleUploadTrigger. cbv zeta. rewrite G.
    now rewrite truthy_nonempty. }
  split.
  { intros other. unfold OrnamentStore.getOrnamentSrc, OrnamentStore.updateOrnamentImage.
    cbn [OrnamentStore.customImages]. destruct (decide (other = ornamentId)) as [->|Hne].
    - rewrite lookup_insert_eq. now rewrite truthy_nonempty.
    - rewrite lookup_insert_ne by congruence. reflexivity. }
  split; [exact T|]. split.
  { rewrite T. unfold updateTexture.
    destruct (list_find _ (ornaments sys)) as [[i card]|] eqn:F;
      [|reflexivity].
    apply list_find_Some in F as (Hi & _ & _).
    split; [reflexivity|].
    unfold loadCompletes. cbn [loading ornaments].
    rewrite lookup_app_r by lia. rewrite Nat.sub_diag. cbn [lookup list_lookup].
    cbn [ornaments]. unfold onLoad. now rewrite Hi. }
  split.
  { intros anyId. unfold handleUploadTrigger, OrnamentStore.getOrnamentSrc,
      OrnamentStore.useOrnamentStore. cbn [OrnamentStore.customImages]. now rewrite lookup_empty. }
  unfold OrnamentStore.getOrnamentSrc, OrnamentStore.updateOrnamentImage. cbn [OrnamentStore.customImages].
  now rewrite lookup_insert_eq.
Qed.

End Uploads.

(** X21 for an upload to the sample card. *)
Lemma upload_reaches_the_card_witness :
  let store' := OrnamentStore.updateOrnamentImage "ornament_1" "data:a"
                  OrnamentStore.useOrnamentStore in
  let sys := OrnamentSystem.mkSystem
               [OrnamentSystem.cardAt OrnamentSystem.sampleOrnament
                  (Vector3.new 3 5 1)%R false] [] in
  Interaction.handleUploadTrigger "ornament_1" store' sys
  = OrnamentSystem.updateTexture "ornament_1" "data:a" sys.
Proof.
  intros store' sys.
  pose proof (upload_reaches_the_card OrnamentStore.useOrnamentStore sys
                "ornament_1" "data:a" "fallback"
                (OrnamentSystem.mkTexture "data:a" "linear")
                ltac:(discriminate)) as W.
  cbv zeta in W. destruct W as (_ & W & _). exact W.
Defined.

Section PointerFacts.
Import Random OrnamentSystem ChristmasTree Interaction.
Local Open Scope R_scope.

(** The walk from any part of a flagged card ends on an object whose
    click target is the card. *)
Lemma findOrnament_on_card (cards : list Mesh) (i : nat) (card : Mesh)
    (part : SceneObject) :
  cards !! i = Some card ->
  isOrnament (userData card) = true ->
  part = OCard i \/ part = OFrame i \/ part = OHitBox i ->
  exists target,
    findOrnament (depth part) cards part = (target, true)
    /\ default target (userDataParent target) = OCard i.
Proof.
  intros Hc Hf [-> | [-> | ->]]; cbn [depth findOrnament isOrnamentOf parent].
  - rewrite Hc. cbn [from_option]. rewrite Hf. exists (OCard i). now split.
  - rewrite Hc. cbn [from_option]. rewrite Hf. exists (OCard i). now split.
  - rewrite Hc. cbn [from_option].
    destruct (hitIsOrnament (hitBox card)).
    + exists (OHitBox i). now split.
    + rewrite Hf. exists (OCard i). now split.
Qed.

(** X22.  Wherever on a card the ray lands first (the card, its frame or
    its hit box), the frame leaves the card itself as hovered object, with
    the pointer cursor and auto-rotation off, and keeps the last point on
    the hit mesh; a click then spawns thirty sparks at the card's current
    position and starts the pull-out of that card, exactly as
    [handleOrnamentClick] on the card does, unless the viewer is open, in
    which case the click does nothing. *)
Theorem click_anywhere_on_a_card
    (a : App) (dust : StardustSystem.t) (p : Pointer) (current : Q)
    (setting : bool) (i : nat) (card : Mesh) (part : SceneObject)
    (point : Vector3.t) (rest : list (SceneObject * Vector3.t))
    (rnd : nat -> R) (k : nat)
    (Hcard : ornaments (ornamentSystem a) !! i = Some card)
    (Hflag : isOrnament (userData card) = true)
    (Hpart : part = OCard i \/ part = OFrame i \/ part = OHitBox i) :
  let p' := hover a current setting ((part, point) :: rest) p in
  p' = mkPointer (Some (OCard i)) (mouse3D p) "pointer" false
  /\ onClick p' (a, dust) rnd k
     = if viewerVisible a then ((a, dust), k)
       else
         let '(dust', k') :=
           StardustSystem.spawn (meshPosition card) 30 dust rnd k in
         ((handleOrnamentClick (Card i) a, dust'), k').
Proof.
  cbv zeta.
  destruct (findOrnament_on_card _ i card part Hcard Hflag Hpart)
    as (target & Ew & Et).
  assert (Eh : hover a current setting ((part, point) :: rest) p
               = mkPointer (Some (OCard i)) (mouse3D p) "pointer" false).
  { unfold hover, getObjects. cbv zeta. rewrite Ew, Et.
    destruct (Qlt_le_dec 0.1 current); [reflexivity|].
    destruct (hoveredObject p), (selectedOrnament a); reflexivity. }
  rewrite Eh. split; [reflexivity|].
  unfold onClick, getObjects. cbn [hoveredObject].
  destruct (viewerVisible a); [reflexivity|].
  cbn [isOrnamentOf positionOfObject asObject3D]. rewrite Hcard.
  cbn [from_option]. rewrite Hflag.
  unfold bind, ret.
  destruct (StardustSystem.spawn (meshPosition card) 30 dust rnd k)
    as [dust' k']. reflexivity.
Qed.

(** X23.  After the pointer part of a frame, [controls.autoRotate] depends
    on the nearest hit alone: on when the ray meets nothing, the user's
    setting when it meets the hit mesh first, off when it meets a card
    first.  Neither the dispersion (the rule that switches rotation off
    above 0.1), nor an open viewer, nor what was hovered before has any
    effect on it. *)
Theorem autoRotate_follows_the_ray
    (a : App) (current : Q) (setting : bool)
    (intersects : list (SceneObject * Vector3.t)) (p : Pointer)
    (Hflags : Forall (fun m => isOrnament (userData m) = true)
                (ornaments (ornamentSystem a)))
    (Hscene : Forall (fun h => interactive (ornaments (ornamentSystem a)) h.1
                               = true) intersects) :
  autoRotate (hover a current setting intersects p)
  = match intersects with
    | [] => true
    | (object, _) :: _ => if decide (object = OHitMesh) then setting else false
    end.
Proof.
  destruct intersects as [|[object point] rest]; [reflexivity|].
  apply Forall_cons in Hscene as [Hobj _]. cbn [fst] in Hobj.
  assert (Hcase : object = OHitMesh
                  \/ exists i card,
                       ornaments (ornamentSystem a) !! i = Some card
                       /\ (object = OCard i \/ object = OFrame i
                           \/ object = OHitBox i)).
  { destruct object as [i|i|i| | |]; cbn [interactive] in Hobj;
      try discriminate; try (now left); right;
      apply bool_decide_eq_true in Hobj;
      destruct (lookup_lt_is_Some_2 _ _ Hobj) as [card Hc];
      exists i, card; (split; [exact Hc|]); tauto. }
  destruct Hcase as [->|(i & card & Hc & Hpart)].
  - unfold hover. cbn [depth findOrnament isOrnamentOf parent].
    destruct (decide (OHitMesh = OHitMesh)); [reflexivity | contradiction].
  - assert (Hf : isOrnament (userData card) = true).
    { eapply Forall_lookup_1 in Hflags; eauto. }
    destruct (findOrnament_on_card _ i card object Hc Hf Hpart)
      as (target & Ew & Et).
    unfold hover, getObjects. cbv zeta. rewrite Ew.
    destruct (decide (object = OHitMesh)) as [->|_]; [|reflexivity].
    destruct Hpart as [?|[?|?]]; discriminate.
Qed.

End PointerFacts.

(** X22 for a ray that meets the frame of the sample card. *)
Lemma click_anywhere_on_a_card_witness :
  let card := OrnamentSystem.cardAt OrnamentSystem.sampleOrnament
                (Vector3.new 3 5 1)%R false in
  let a := ChristmasTree.idle [card] in
  let p := Interaction.mkPointer None None "default" true in
  Interaction.hover a 0%Q true
    [(Interaction.OFrame 0, Vector3.new 3 5 1)%R] p
  = Interaction.mkPointer (Some (Interaction.OCard 0)) None "pointer" false.
Proof.
  intros card a p.
  pose proof (click_anywhere_on_a_card a (StardustSystem.constructor 4) p
                0%Q true 0%nat card (Interaction.OFrame 0)
                (Vector3.new 3 5 1)%R [] (fun _ => 0%R) 0%nat
                eq_refl eq_refl (or_intror (or_introl eq_refl))) as W.
  cbv zeta in W. destruct W as [W _]. exact W.
Defined.

(** X23 for a ray that meets the hit box of the sample card and then the
    hit mesh, while the cards are dispersed. *)
Lemma autoRotate_follows_the_ray_witness :
  let card := OrnamentSystem.cardAt OrnamentSystem.sampleOrnament
                (Vector3.new 3 5 1)%R false in
  let a := ChristmasTree.idle [card] in
  let p := Interaction.mkPointer None None "default" true in
  Interaction.autoRotate
    (Interaction.hover a 1%Q true
       [(Interaction.OHitBox 0, Vector3.new 3 5 1)%R;
        (Interaction.OHitMesh, Vector3.new 4 5 1)%R] p)
  = false.
Proof.
  intros card a p.
  apply (autoRotate_follows_the_ray a 1%Q true
           [(Interaction.OHitBox 0, Vector3.new 3 5 1)%R;
            (Interaction.OHitMesh, Vector3.new 4 5 1)%R] p).
  - repeat constructor.
  - repeat constructor.
Defined.

Section AudioFacts.
Import AudioSystem.

Lemma audio_step (op : Op) (s : t) (results : list bool) :
  Forall (fun r => r = false) results ->
  Forall volumeInRange (calls s) ->
  Forall (fun r => r = false) (apply op (s, results)).2
  /\ Forall volumeInRange (calls (apply op (s, results)).1).
Proof.
  intros Hr Hv.
  assert (Hone : forall c, volumeInRange c ->
                   Forall volumeInRange (calls s ++ [c])).
  { intros c Hc. apply Forall_app. split; [exact Hv|]. now constructor. }
  destruct op; cbn [apply toggle fst snd].
  - split; [exact Hr|]. now apply Hone.
  - split; [exact Hr|]. now apply Hone.
  - destruct (isPlaying s) eqn:E; cbn [fst snd pause play isPlaying calls];
      (split; [apply Forall_app; split; [exact Hr|]; constructor;
                [first [reflexivity | exact E] | constructor]
              | now apply Hone]).
  - split; [exact Hr|]. apply Hone. cbn [volumeInRange]. split.
    + apply Q.max_le_iff. left. apply Qle_refl.
    + apply Q.max_lub; [discriminate|]. apply Q.le_min_l.
  - split; [exact Hr|]. unfold setSource. cbv zeta.
    destruct (isPlaying s); cbn [play calls].
    + apply Forall_app. split; [now apply Hone|]. now repeat constructor.
    + now apply Hone.
  - split; [exact Hr|]. unfold playResolved.
    destruct (pendingPlays s); [exact Hv | exact Hv].
  - split; [exact Hr|]. exact Hv.
Qed.

Lemma audio_run (ops : list Op) : forall (s : t) (results : list bool),
  Forall (fun r => r = false) results ->
  Forall volumeInRange (calls s) ->
  Forall (fun r => r = false) (run_ops ops (s, results)).2
  /\ Forall volumeInRange (calls (run_ops ops (s, results)).1).
Proof.
  induction ops as [|op ops IH]; intros s results Hr Hv; [now split|].
  change (run_ops (op :: ops) (s, results))
    with (run_ops ops (apply op (s, results))).
  destruct (audio_step op s results Hr Hv) as [Hr' Hv'].
  destruct (apply op (s, results)) as [s' results'].
  now apply IH.
Qed.

(** X24.  Whatever is called on the audio system after its construction,
    and however the promises of [audio.play()] settle in between, every
    call of [toggle] returns false: when it pauses, the flag has just been
    cleared, and when it starts playback, the flag is set only later, by
    the resolved promise.  A call of [toggle] asks the element to pause
    when the flag is set and to play otherwise, and every volume handed to
    the element lies between 0 and 1. *)
Theorem toggle_never_reports_playing (ops : list Op) :
  let s := (run_ops ops (constructor, [])).1 in
  Forall (fun r => r = false) (run_ops ops (constructor, [])).2
  /\ (toggle s).2 = false
  /\ calls (toggle s).1
     = calls s ++ [if isPlaying s then CallPause else CallPlay]
  /\ Forall volumeInRange (calls s).
Proof.
  cbv zeta.
  destruct (audio_run ops constructor []) as [Hr Hv].
  - constructor.
  - unfold constructor. cbn [calls]. repeat constructor; discriminate.
  - split; [exact Hr|]. split; [|split; [|exact Hv]].
    + unfold toggle. cbn [snd].
      destruct (isPlaying (run_ops ops (constructor, [])).1) eqn:E;
        [reflexivity | exact E].
    + unfold toggle. cbn [fst].
      now destruct (isPlaying (run_ops ops (constructor, [])).1).
Qed.

End AudioFacts.
